(** * Third Eye MCP bridge: session manager, envelope glue and key storage

    A shallow embedding of the TypeScript sources
    [mcp-bridge/src/session-manager.ts], [mcp-bridge/src/eyes.ts] and the
    provider-key encryption utilities, together with the properties the
    specification states about them. *)

From Stdlib Require Import ZArith QArith Strings.String Strings.Ascii DecimalString.
From stdpp Require Import gmap list fin_maps.

Local Open Scope Z_scope.

(** ** JavaScript strings

    A string is the sequence of its Unicode code points.  [lit] turns a
    literal of the source into such a sequence. *)

Abbreviation jsstring := (list N).

Definition lit (s : string) : jsstring :=
  List.map N_of_ascii (list_ascii_of_string s).
Arguments lit : simpl never.

(** White space and line terminators, as [String.prototype.trim] strips
    them. *)
Definition is_line_terminator (c : N) : bool :=
  (c =? 10)%N || (c =? 13)%N || (c =? 8232)%N || (c =? 8233)%N.

Definition is_whitespace (c : N) : bool :=
  is_line_terminator c
  || (c =? 9)%N || (c =? 11)%N || (c =? 12)%N || (c =? 32)%N
  || (c =? 160)%N || (c =? 5760)%N
  || ((8192 <=? c)%N && (c <=? 8202)%N)
  || (c =? 8239)%N || (c =? 8287)%N || (c =? 12288)%N || (c =? 65279)%N.

Fixpoint trimStart (s : jsstring) : jsstring :=
  match s with
  | c :: rest => if is_whitespace c then trimStart rest else s
  | [] => []
  end.

Definition trimEnd (s : jsstring) : jsstring := rev (trimStart (rev s)).

Definition trim (s : jsstring) : jsstring := trimEnd (trimStart s).

(** [n.toString(36)] for an integer [n]. *)
Definition digit36 (d : N) : N :=
  if (d <? 10)%N then (48 + d)%N else (87 + d)%N.

Fixpoint digits36 (fuel : nat) (n : N) (acc : jsstring) : jsstring :=
  match fuel with
  | O => acc
  | S fuel' =>
      let acc' := digit36 (n mod 36) :: acc in
      if (n <? 36)%N then acc' else digits36 fuel' (n / 36) acc'
  end.

Definition toString36 (n : Z) : jsstring :=
  let m := Z.to_N (Z.abs n) in
  let body := digits36 (S (N.to_nat (N.log2 m))) m [] in
  if n <? 0 then lit "-" ++ body else body.
Arguments toString36 : simpl never.

(** ** JavaScript numbers

    A number is NaN, an infinity or a finite value; finite values are kept
    as rationals (every finite double is one). *)

Inductive number : Type :=
  | NaN
  | Infinity (negative : bool)
  | Finite (q : Q).

Definition Number_isFinite (n : number) : bool :=
  match n with Finite _ => true | _ => false end.

(** [n >= 0] *)
Definition number_ge0 (n : number) : bool :=
  match n with
  | NaN => false
  | Infinity negative => negb negative
  | Finite q => Qle_bool 0 q
  end.

(** ** JavaScript values *)

#[warnings="-register-all"]
Inductive value : Type :=
  | VUndefined
  | VNull
  | VBool (b : bool)
  | VNumber (n : number)
  | VString (s : jsstring)
  | VArray (items : list value)
  | VObject (props : gmap jsstring value)
  | VFunction.

(** ToBoolean *)
Definition truthy (v : value) : bool :=
  match v with
  | VUndefined | VNull => false
  | VBool b => b
  | VNumber NaN => false
  | VNumber (Infinity _) => true
  | VNumber (Finite q) => negb (Qeq_bool q 0)
  | VString s => match s with [] => false | _ => true end
  | VArray _ | VObject _ | VFunction => true
  end.

(** [typeof v === "object"] *)
Definition typeof_object (v : value) : bool :=
  match v with
  | VNull | VArray _ | VObject _ => true
  | _ => false
  end.

(** Property read [v.key] for the own data properties the sources use. *)
Definition get_prop (v : value) (key : jsstring) : value :=
  match v with
  | VObject props => default VUndefined (props !! key)
  | _ => VUndefined
  end.

(** The key [String(i)] of an array index. *)
Definition index_key (i : nat) : jsstring :=
  lit (NilZero.string_of_uint (Nat.to_uint i)).

(** [Object.entries(v)], as a finite map from keys to values. *)
Definition Object_entries (v : value) : gmap jsstring value :=
  match v with
  | VObject props => props
  | VArray items => list_to_map (imap (fun i x => (index_key i, x)) items)
  | _ => ∅
  end.

(** ** The host: clock, random source and numeric coercion

    [Date.now()] and [Math.random()] are read from the host, one reading
    per call; [ticks] and [draws] of the world count the calls so far.
    [random_suffix k] stands for the k-th evaluation of
    [Math.random().toString(36).slice(2, 9)].  [StringToNumber] and
    [ObjectToNumber] are the runtime's [Number(...)] on strings and on
    objects (arrays, functions). *)

Class Host : Type := {
  clock : nat -> Z;
  random_suffix : nat -> jsstring;
  StringToNumber : jsstring -> number;
  ObjectToNumber : value -> number;
}.

(** [Number(v)] *)
Definition ToNumber `{Host} (v : value) : number :=
  match v with
  | VUndefined => NaN
  | VNull => Finite 0
  | VBool b => if b then Finite 1 else Finite 0
  | VNumber n => n
  | VString s => StringToNumber s
  | VArray _ | VObject _ | VFunction => ObjectToNumber v
  end.

(** ** session-manager.ts: data *)

Inductive Lang : Type := LangAuto | LangEn | LangAr.

Record SessionContext : Type := mkSessionContext {
  session_id : jsstring;
  user_id : option jsstring;
  lang : Lang;
  budget_tokens : number;
  tenant : option jsstring;
  created_at : Z;
  last_activity : Z;
}.

(** [Partial<SessionContext>]: each field present or not. *)
Record PartialSessionContext : Type := mkPartial {
  p_session_id : option jsstring;
  p_user_id : option (option jsstring);
  p_lang : option Lang;
  p_budget_tokens : option number;
  p_tenant : option (option jsstring);
  p_created_at : option Z;
  p_last_activity : option Z;
}.

Definition no_updates : PartialSessionContext :=
  mkPartial None None None None None None None.

(** [Object.assign(session, updates)] *)
Definition Object_assign (session : SessionContext)
    (updates : PartialSessionContext) : SessionContext :=
  {| session_id := default (session_id session) (p_session_id updates);
     user_id := default (user_id session) (p_user_id updates);
     lang := default (lang session) (p_lang updates);
     budget_tokens := default (budget_tokens session) (p_budget_tokens updates);
     tenant := default (tenant session) (p_tenant updates);
     created_at := default (created_at session) (p_created_at updates);
     last_activity := default (last_activity session) (p_last_activity updates) |}.

Definition with_last_activity (now : Z) (s : SessionContext) : SessionContext :=
  {| session_id := session_id s; user_id := user_id s; lang := lang s;
     budget_tokens := budget_tokens s; tenant := tenant s;
     created_at := created_at s; last_activity := now |}.

(** ** The world: object heap and module state

    Session objects live in [heap] and are held by reference, so that a
    row of the [sessions] map and a copy handed to a caller are distinct
    objects.  [sessions] and [connectionToSession] are the two maps of the
    [SessionManager] singleton; [currentConnectionId] is the module
    variable of eyes.ts. *)

Abbreviation ref := nat (only parsing).

Record World : Type := mkWorld {
  heap : list SessionContext;
  sessions : gmap jsstring ref;
  connectionToSession : gmap jsstring jsstring;
  currentConnectionId : option jsstring;
  ticks : nat;
  draws : nat;
}.

Definition empty_world : World := mkWorld [] ∅ ∅ None 0 0.

Definition set_heap (h : list SessionContext) (w : World) : World :=
  mkWorld h (sessions w) (connectionToSession w) (currentConnectionId w)
    (ticks w) (draws w).

Definition set_sessions (m : gmap jsstring ref) (w : World) : World :=
  mkWorld (heap w) m (connectionToSession w) (currentConnectionId w)
    (ticks w) (draws w).

Definition set_connectionToSession (m : gmap jsstring jsstring) (w : World)
    : World :=
  mkWorld (heap w) (sessions w) m (currentConnectionId w) (ticks w) (draws w).

Definition set_currentConnectionId (c : option jsstring) (w : World) : World :=
  mkWorld (heap w) (sessions w) (connectionToSession w) c (ticks w) (draws w).

Definition blank_session : SessionContext :=
  mkSessionContext [] None LangAuto (Finite 0) None 0 0.

(** The object behind a reference.  References held by the maps always
    point into the heap; elsewhere the blank object stands in. *)
Definition deref (h : list SessionContext) (r : ref) : SessionContext :=
  default blank_session (h !! r).

(** ** Computations: state and exceptions *)

Inductive outcome (A : Type) : Type :=
  | Returned (a : A)
  | Thrown (message : jsstring).
Arguments Returned {A} a.
Arguments Thrown {A} message.

Definition M (A : Type) : Type := World -> outcome A * World.

Definition ret {A} (a : A) : M A := fun w => (Returned a, w).

Definition bind {A B} (c : M A) (k : A -> M B) : M B :=
  fun w =>
    match c w with
    | (Returned a, w') => k a w'
    | (Thrown e, w') => (Thrown e, w')
    end.

Definition throw {A} (message : jsstring) : M A := fun w => (Thrown message, w).

Notation "'let*' x ':=' c 'in' k" := (bind c (fun x => k))
  (at level 10, x name, c at level 100, k at level 200).
Notation "c ';;' k" := (bind c (fun _ => k))
  (at level 100, k at level 200, right associativity).

Definition Date_now `{Host} : M Z := fun w =>
  (Returned (clock (ticks w)),
   mkWorld (heap w) (sessions w) (connectionToSession w)
     (currentConnectionId w) (S (ticks w)) (draws w)).

Definition Math_random_suffix `{Host} : M jsstring := fun w =>
  (Returned (random_suffix (draws w)),
   mkWorld (heap w) (sessions w) (connectionToSession w)
     (currentConnectionId w) (ticks w) (S (draws w))).

(** [new] object, read and write through a reference. *)
Definition alloc (s : SessionContext) : M ref := fun w =>
  (Returned (length (heap w)), set_heap (heap w ++ [s]) w).

Definition load (r : ref) : M SessionContext := fun w =>
  (Returned (deref (heap w) r), w).

Definition store (r : ref) (s : SessionContext) : M unit := fun w =>
  (Returned tt, set_heap (<[r := s]> (heap w)) w).

(** The spread [{ ...session }]: a new object with the same fields. *)
Definition spread (r : ref) : M ref :=
  let* s := load r in alloc s.

Definition result_of {A} (c : M A) (w : World) : outcome A := fst (c w).
Definition world_after {A} (c : M A) (w : World) : World := snd (c w).

(** ** session-manager.ts: the SessionManager class *)

Module SessionManager.

(** [sessionTimeout = 30 * 60 * 1000], in milliseconds. *)
Definition sessionTimeout : Z := 30 * 60 * 1000.

Definition nonempty (s : jsstring) : bool :=
  match s with [] => false | _ => true end.

(** The test [sessionId && this.sessions.has(sessionId)] followed by
    [this.sessions.get(sessionId)!]: the row bound to a connection. *)
Definition bound (w : World) (connectionId : jsstring) : option ref :=
  match connectionToSession w !! connectionId with
  | Some sessionId =>
      if nonempty sessionId then sessions w !! sessionId else None
  | None => None
  end.

Definition bound_session (connectionId : jsstring) : M (option ref) := fun w =>
  (Returned (bound w connectionId), w).

Definition sessions_set (sessionId : jsstring) (session : ref) : M unit :=
  fun w => (Returned tt, set_sessions (<[sessionId := session]> (sessions w)) w).

Definition connectionToSession_set (connectionId sessionId : jsstring)
    : M unit := fun w =>
  (Returned tt,
   set_connectionToSession
     (<[connectionId := sessionId]> (connectionToSession w)) w).

Definition touch `{Host} (session : ref) : M unit :=
  let* now := Date_now in
  let* s := load session in
  store session (with_last_activity now s).

(** The template [`sess-${t.toString(36)}-${rnd}`]. *)
Definition session_id_of (t : Z) (rnd : jsstring) : jsstring :=
  lit "sess-" ++ toString36 t ++ lit "-" ++ rnd.
Arguments session_id_of : simpl never.

Definition getOrCreate `{Host} (connectionId : jsstring) : M ref :=
  let* found := bound_session connectionId in
  match found with
  | Some session =>
      touch session ;;
      spread session
  | None =>
      let* t := Date_now in
      let* rnd := Math_random_suffix in
      let sessionId := session_id_of t rnd in
      let* created := Date_now in
      let* active := Date_now in
      let* session :=
        alloc {| session_id := sessionId; user_id := None; lang := LangAuto;
                 budget_tokens := Finite 0; tenant := None;
                 created_at := created; last_activity := active |} in
      sessions_set sessionId session ;;
      connectionToSession_set connectionId sessionId ;;
      spread session
  end.

Definition update `{Host} (connectionId : jsstring)
    (updates : PartialSessionContext) : M ref :=
  let* found := bound_session connectionId in
  match found with
  | None => throw (lit "No session found for connection " ++ connectionId)
  | Some session =>
      let* s := load session in
      store session (Object_assign s updates) ;;
      touch session ;;
      spread session
  end.

(** [get]: [None] is the [null] result. *)
Definition get `{Host} (connectionId : jsstring) : M (option ref) :=
  let* found := bound_session connectionId in
  match found with
  | None => ret None
  | Some session =>
      touch session ;;
      let* copy := spread session in
      ret (Some copy)
  end.

Definition cleanup (connectionId : jsstring) : M unit := fun w =>
  match connectionToSession w !! connectionId with
  | Some sessionId =>
      if nonempty sessionId then
        (Returned tt,
         set_connectionToSession (delete connectionId (connectionToSession w))
           (set_sessions (delete sessionId (sessions w)) w))
      else (Returned tt, w)
  | None => (Returned tt, w)
  end.

(** The test of the first loop of [cleanupStale]:
    [session && now - session.last_activity > this.sessionTimeout]. *)
Definition is_stale (w : World) (now : Z) (sessionId : jsstring) : bool :=
  match sessions w !! sessionId with
  | Some session =>
      bool_decide (now - last_activity (deref (heap w) session) > sessionTimeout)
  | None => false
  end.

Definition staleConnections (w : World) (now : Z) : list jsstring :=
  (filter (fun entry => is_stale w now entry.2 = true)
     (map_to_list (connectionToSession w))).*1.

Fixpoint cleanup_each (connections : list jsstring) : M unit :=
  match connections with
  | [] => ret tt
  | connectionId :: rest => cleanup connectionId ;; cleanup_each rest
  end.

Definition cleanupStale `{Host} : M unit :=
  let* now := Date_now in
  fun w => cleanup_each (staleConnections w now) w.

Record Stats : Type := { total_sessions : nat; total_connections : nat }.

Definition stats : M Stats := fun w =>
  (Returned {| total_sessions := size (sessions w);
               total_connections := size (connectionToSession w) |}, w).

End SessionManager.

(** ** eyes.ts *)

Module Eyes.

Definition RESERVED_WRAPPER_KEYS : gset jsstring :=
  {[ lit "signal"; lit "_meta"; lit "requestId"; lit "progressToken";
     lit "arguments" ]}.

Definition generateTraceId `{Host} : M jsstring :=
  let* t := Date_now in
  let* rnd := Math_random_suffix in
  ret (lit "trace-" ++ toString36 t ++ lit "-" ++ rnd).

(** The template [`conn-${t.toString(36)}-${rnd}`]. *)
Definition connection_id_of (t : Z) (rnd : jsstring) : jsstring :=
  lit "conn-" ++ toString36 t ++ lit "-" ++ rnd.
Arguments connection_id_of : simpl never.

Definition generateConnectionId `{Host} : M jsstring :=
  let* t := Date_now in
  let* rnd := Math_random_suffix in
  ret (connection_id_of t rnd).

(** The context type of eyes.ts: the five fields sent to the server. *)
Record SessionContext : Type := mkContext {
  c_session_id : jsstring;
  c_user_id : option jsstring;
  c_lang : Lang;
  c_budget_tokens : number;
  c_tenant : option jsstring;
}.

Definition getConnectionId `{Host} : M jsstring := fun w =>
  match currentConnectionId w with
  | Some (c :: rest) => (Returned (c :: rest), w)
  | _ =>
      (let* fresh := generateConnectionId in
       fun w' => (Returned fresh, set_currentConnectionId (Some fresh) w')) w
  end.

(** The first step of [extractEnvelope]: the [arguments] wrapper is opened
    when [typeof raw.arguments === "object" && raw.arguments !== null]. *)
Definition unwrap_arguments (raw : gmap jsstring value) : gmap jsstring value :=
  match raw !! lit "arguments" with
  | Some arguments =>
      if typeof_object arguments
         && negb (match arguments with VNull => true | _ => false end)
      then Object_entries arguments
      else raw
  | None => raw
  end.

Definition extractEnvelope (raw : gmap jsstring value) : gmap jsstring value :=
  let envelope := unwrap_arguments raw in
  map_fold
    (fun key value cleaned =>
       if bool_decide (key ∈ RESERVED_WRAPPER_KEYS) then cleaned
       else <[key := value]> cleaned)
    ∅ envelope.

Definition ensureContext `{Host} : M SessionContext :=
  let* connectionId := getConnectionId in
  let* session := SessionManager.getOrCreate connectionId in
  let* s := load session in
  ret {| c_session_id := session_id s; c_user_id := user_id s;
         c_lang := lang s; c_budget_tokens := budget_tokens s;
         c_tenant := tenant s |}.

(** The mutable locals of [coalesceContext]. *)
Record Coalesce : Type := mkCoalesce {
  base : SessionContext;
  updates : PartialSessionContext;
  hasUpdates : bool;
}.

Definition string_lang (v : value) : option Lang :=
  match v with
  | VString s =>
      if bool_decide (s = lit "en") then Some LangEn
      else if bool_decide (s = lit "ar") then Some LangAr
      else if bool_decide (s = lit "auto") then Some LangAuto
      else None
  | _ => None
  end.

Definition coalesce_session_id (raw : value) (st : Coalesce) : Coalesce :=
  match get_prop raw (lit "session_id") with
  | VString s =>
      if SessionManager.nonempty (trim s) then
        let b := base st in let u := updates st in
        mkCoalesce
          (mkContext (trim s) (c_user_id b) (c_lang b) (c_budget_tokens b)
             (c_tenant b))
          (mkPartial (Some (trim s)) (p_user_id u) (p_lang u)
             (p_budget_tokens u) (p_tenant u) (p_created_at u)
             (p_last_activity u))
          true
      else st
  | _ => st
  end.

Definition set_user_id (x : option jsstring) (st : Coalesce) : Coalesce :=
  let b := base st in let u := updates st in
  mkCoalesce
    (mkContext (c_session_id b) x (c_lang b) (c_budget_tokens b) (c_tenant b))
    (mkPartial (p_session_id u) (Some x) (p_lang u) (p_budget_tokens u)
       (p_tenant u) (p_created_at u) (p_last_activity u))
    true.

Definition coalesce_user_id (raw : value) (st : Coalesce) : Coalesce :=
  match get_prop raw (lit "user_id") with
  | VString s =>
      if SessionManager.nonempty (trim s) then set_user_id (Some (trim s)) st
      else st
  | VNull => set_user_id None st
  | _ => st
  end.

Definition coalesce_lang (raw : value) (st : Coalesce) : Coalesce :=
  match string_lang (get_prop raw (lit "lang")) with
  | Some l =>
      let b := base st in let u := updates st in
      mkCoalesce
        (mkContext (c_session_id b) (c_user_id b) l (c_budget_tokens b)
           (c_tenant b))
        (mkPartial (p_session_id u) (p_user_id u) (Some l) (p_budget_tokens u)
           (p_tenant u) (p_created_at u) (p_last_activity u))
        true
  | None => st
  end.

Definition coalesce_budget_tokens `{Host} (raw : value) (st : Coalesce)
    : Coalesce :=
  let numericBudget := ToNumber (get_prop raw (lit "budget_tokens")) in
  if Number_isFinite numericBudget && number_ge0 numericBudget then
    let b := base st in let u := updates st in
    mkCoalesce
      (mkContext (c_session_id b) (c_user_id b) (c_lang b) numericBudget
         (c_tenant b))
      (mkPartial (p_session_id u) (p_user_id u) (p_lang u) (Some numericBudget)
         (p_tenant u) (p_created_at u) (p_last_activity u))
      true
  else st.

Definition set_tenant (x : option jsstring) (st : Coalesce) : Coalesce :=
  let b := base st in let u := updates st in
  mkCoalesce
    (mkContext (c_session_id b) (c_user_id b) (c_lang b) (c_budget_tokens b) x)
    (mkPartial (p_session_id u) (p_user_id u) (p_lang u) (p_budget_tokens u)
       (Some x) (p_created_at u) (p_last_activity u))
    true.

Definition coalesce_tenant (raw : value) (st : Coalesce) : Coalesce :=
  match get_prop raw (lit "tenant") with
  | VString s =>
      if SessionManager.nonempty (trim s) then set_tenant (Some (trim s)) st
      else st
  | VNull => set_tenant None st
  | _ => st
  end.

Definition coalesce_fields `{Host} (raw : value) (st : Coalesce) : Coalesce :=
  coalesce_tenant raw
    (coalesce_budget_tokens raw
       (coalesce_lang raw
          (coalesce_user_id raw
             (coalesce_session_id raw st)))).

Definition coalesceContext `{Host} (input : value) : M SessionContext :=
  let* base0 := ensureContext in
  if negb (truthy input) || negb (typeof_object input) then ret base0
  else
    let st := coalesce_fields input (mkCoalesce base0 no_updates false) in
    if hasUpdates st then
      let* connectionId := getConnectionId in
      SessionManager.update connectionId (updates st) ;;
      ret (base st)
    else ret (base st).

Definition lang_string (l : Lang) : jsstring :=
  match l with
  | LangAuto => lit "auto"
  | LangEn => lit "en"
  | LangAr => lit "ar"
  end.

Definition nullable_string (x : option jsstring) : value :=
  match x with Some s => VString s | None => VNull end.

(** A context as the object it is in the request body. *)
Definition context_value (c : SessionContext) : value :=
  VObject
    (<[lit "session_id" := VString (c_session_id c)]>
       (<[lit "user_id" := nullable_string (c_user_id c)]>
          (<[lit "lang" := VString (lang_string (c_lang c))]>
             (<[lit "budget_tokens" := VNumber (c_budget_tokens c)]>
                (<[lit "tenant" := nullable_string (c_tenant c)]> ∅))))).

(** [a || b] *)
Definition or_else (a b : value) : value := if truthy a then a else b.

(** [callEye] up to the request it sends: the [finalPayload] object that
    is serialised as the body of the POST to [API_URL + path]. *)
Definition callEye_finalPayload `{Host} (path : jsstring)
    (body : gmap jsstring value) : M (gmap jsstring value) :=
  let* traceId := generateTraceId in
  let envelope := extractEnvelope body in
  let* mergedContext :=
    coalesceContext (default VUndefined (envelope !! lit "context")) in
  let envelope1 := <[lit "context" := context_value mergedContext]> envelope in
  let payload := default VUndefined (envelope1 !! lit "payload") in
  let envelope2 :=
    if negb (truthy payload) || negb (typeof_object payload)
    then <[lit "payload" := VObject ∅]> envelope1
    else envelope1 in
  ret (<[lit "context" := default VUndefined (envelope2 !! lit "context")]>
         (<[lit "payload" := default VUndefined (envelope2 !! lit "payload")]>
            (<[lit "reasoning_md" :=
                 or_else (default VUndefined (envelope2 !! lit "reasoning_md"))
                   VNull]> ∅))).

End Eyes.

(** ** eyes.ts: the input schema of the [third-eye/oversee] tool

    The JSON Schema keywords the source uses, and their validation
    semantics.  A schema is the list of its keywords; annotations
    ([description], [examples]) assert nothing and are left out. *)

Module Schema.

Inductive jtype : Type :=
  | TString | TNumber | TObject | TArray | TNull | TBoolean.

#[warnings="-register-all"]
Inductive keyword : Type :=
  | type (ts : list jtype)
  | enum (allowed : list jsstring)
  | minLength (n : nat)
  | pattern (re : jsstring -> bool)
  | minimum (q : Q)
  | properties (ps : list (jsstring * list keyword))
  | required (keys : list jsstring)
  | additionalProperties (allowed : bool)
  | minProperties (n : nat)
  | items (s : list keyword)
  | anyOf (alternatives : list (list keyword)).

Abbreviation schema := (list keyword).

Definition has_type (t : jtype) (v : value) : bool :=
  match t, v with
  | TString, VString _ => true
  | TNumber, VNumber (Finite _) => true
  | TObject, VObject _ => true
  | TArray, VArray _ => true
  | TNull, VNull => true
  | TBoolean, VBool _ => true
  | _, _ => false
  end.

(** The names under the [properties] keywords of a schema. *)
Definition declared_properties (s : schema) : list jsstring :=
  flat_map (fun kw => match kw with properties ps => ps.*1 | _ => [] end) s.

Fixpoint check (declared : list jsstring) (kw : keyword) (v : value)
    {struct kw} : bool :=
  match kw with
  | type ts => existsb (fun t => has_type t v) ts
  | enum allowed =>
      match v with
      | VString s => bool_decide (s ∈ allowed)
      | _ => false
      end
  | minLength n =>
      match v with
      | VString s => bool_decide (n ≤ length s)%nat
      | _ => true
      end
  | pattern re =>
      match v with
      | VString s => re s
      | _ => true
      end
  | minimum q =>
      match v with
      | VNumber (Finite x) => Qle_bool q x
      | _ => true
      end
  | properties ps =>
      match v with
      | VObject props =>
          forallb
            (fun p =>
               match props !! p.1 with
               | Some x =>
                   forallb (fun kw' => check (declared_properties p.2) kw' x) p.2
               | None => true
               end)
            ps
      | _ => true
      end
  | required keys =>
      match v with
      | VObject props => forallb (fun k => bool_decide (is_Some (props !! k))) keys
      | _ => true
      end
  | additionalProperties allowed =>
      match v with
      | VObject props =>
          allowed
          || forallb (fun k => bool_decide (k ∈ declared)) (map_to_list props).*1
      | _ => true
      end
  | minProperties n =>
      match v with
      | VObject props => bool_decide (n ≤ size props)%nat
      | _ => true
      end
  | items s =>
      match v with
      | VArray xs =>
          forallb
            (fun x => forallb (fun kw' => check (declared_properties s) kw' x) s)
            xs
      | _ => true
      end
  | anyOf alternatives =>
      existsb
        (fun s => forallb (fun kw' => check (declared_properties s) kw' v) s)
        alternatives
  end.

Definition valid (s : schema) (v : value) : bool :=
  forallb (fun kw => check (declared_properties s) kw v) s.

(** The regular expression [^.{5,}$]: five or more characters, none of
    them a line terminator. *)
Definition re_5_or_more (s : jsstring) : bool :=
  bool_decide (5 ≤ length s)%nat && forallb (fun c => negb (is_line_terminator c)) s.

Definition contextSchema : schema :=
  [ type [TObject];
    properties
      [ (lit "session_id", [type [TString]]);
        (lit "user_id", [type [TString; TNull]]);
        (lit "tenant", [type [TString; TNull]]);
        (lit "lang", [enum [lit "auto"; lit "en"; lit "ar"]]);
        (lit "budget_tokens", [type [TNumber]; minimum 0]) ];
    required [lit "session_id"; lit "lang"; lit "budget_tokens"];
    additionalProperties false ].

Definition intentSchema : schema :=
  [ type [TString]; minLength 5; pattern re_5_or_more ].

Definition workSchema : schema :=
  [ type [TObject];
    properties
      [ (lit "code", [type [TString]]);
        (lit "plan", [type [TString]]);
        (lit "draft", [type [TString]]);
        (lit "requirements", [type [TString]]);
        (lit "tests", [type [TString]]);
        (lit "docs", [type [TString]]) ];
    minProperties 1;
    additionalProperties true ].

Definition contextInfoSchema : schema :=
  [ type [TObject];
    properties
      [ (lit "project_type", [type [TString]]);
        (lit "language", [type [TString]]);
        (lit "target_audience", [type [TString]]);
        (lit "compliance_requirements", [type [TArray]; items [type [TString]]]);
        (lit "performance_criteria", [type [TString]]);
        (lit "security_level",
          [type [TString];
           enum [lit "low"; lit "medium"; lit "high"; lit "critical"]]) ];
    minProperties 1;
    additionalProperties true ].

Definition payloadSchema : schema :=
  [ type [TObject];
    properties
      [ (lit "intent", intentSchema);
        (lit "work", workSchema);
        (lit "context_info", contextInfoSchema) ];
    required [lit "intent"; lit "work"; lit "context_info"];
    additionalProperties false ].

(** The [inputSchema] registered with the tool by [buildEyes]. *)
Definition inputSchema : schema :=
  [ type [TObject];
    properties
      [ (lit "context", [anyOf [contextSchema; [type [TNull]]]]);
        (lit "payload", payloadSchema);
        (lit "reasoning_md", [type [TString]; minLength 10]) ];
    required [lit "payload"; lit "reasoning_md"];
    additionalProperties false ].

End Schema.

(** ** Provider-key encryption: the storage format *)

Module Encryption.

Abbreviation Buffer := (list Byte.byte).

Definition IV_LENGTH : nat := 12.
Definition SALT_LENGTH : nat := 32.
Definition TAG_LENGTH : nat := 16.

Record EncryptedData : Type := mkEncryptedData {
  encrypted : Buffer;
  iv : Buffer;
  salt : Buffer;
  tag : Buffer;
}.

Definition Buffer_concat (parts : list Buffer) : Buffer := concat parts.

(** [buffer.subarray(start, end)] and [buffer.subarray(start)] for
    non-negative offsets. *)
Definition subarray (buffer : Buffer) (start stop : nat) : Buffer :=
  take (stop - start) (drop start buffer).

Definition subarray_from (buffer : Buffer) (start : nat) : Buffer :=
  drop start buffer.

Definition serializeEncrypted (data : EncryptedData) : Buffer :=
  Buffer_concat [salt data; iv data; tag data; encrypted data].

Definition deserializeEncrypted (buffer : Buffer) : outcome EncryptedData :=
  if (length buffer <? SALT_LENGTH + IV_LENGTH + TAG_LENGTH)%nat then
    Thrown (lit "Invalid encrypted data: buffer too short")
  else
    let offset := 0%nat in
    let salt := subarray buffer offset (offset + SALT_LENGTH) in
    let offset := (offset + SALT_LENGTH)%nat in
    let iv := subarray buffer offset (offset + IV_LENGTH) in
    let offset := (offset + IV_LENGTH)%nat in
    let tag := subarray buffer offset (offset + TAG_LENGTH) in
    let offset := (offset + TAG_LENGTH)%nat in
    let encrypted := subarray_from buffer offset in
    Returned {| salt := salt; iv := iv; tag := tag; encrypted := encrypted |}.

End Encryption.

(** ** The orchestrator's payload validation (server side) *)

Module Overseer.

Inductive verdict : Type :=
  | Accepted
  | E_BAD_PAYLOAD_SCHEMA (field : jsstring).

(** Modelled from the spec: the [strict_mode] flag of a request body
    [{context, payload, reasoning_md, strict_mode?}]; the server code
    ([src/third_eye/eyes/overseer.py]) is not part of the sources at hand.
    An absent flag means strict. *)
Definition strict_mode_of (body : gmap jsstring value) : bool :=
  match body !! lit "strict_mode" with
  | Some (VBool b) => b
  | _ => true
  end.

Definition string_at_least (n : nat) (v : value) : bool :=
  match v with
  | VString s => bool_decide (n ≤ length s)%nat
  | _ => false
  end.

Definition has_entries (v : value) : bool :=
  match v with
  | VObject props => bool_decide (1 ≤ size props)%nat
  | _ => false
  end.

(** Modelled from the spec: the validation step of [orchestrate]
    ([src/third_eye/eyes/overseer.py] is not part of the sources at hand).
    Strict mode requires [intent] of at least 5 characters, [work] and
    [context_info] with at least one entry each and [reasoning_md] of at
    least 10 characters; relaxed mode requires only [intent] of at least 1
    character.  A rejection names the field that failed. *)
Definition validate (body : gmap jsstring value) : verdict :=
  let payload := default VUndefined (body !! lit "payload") in
  if strict_mode_of body then
    if negb (string_at_least 5 (get_prop payload (lit "intent")))
    then E_BAD_PAYLOAD_SCHEMA (lit "intent")
    else if negb (has_entries (get_prop payload (lit "work")))
    then E_BAD_PAYLOAD_SCHEMA (lit "work")
    else if negb (has_entries (get_prop payload (lit "context_info")))
    then E_BAD_PAYLOAD_SCHEMA (lit "context_info")
    else if negb (string_at_least 10
                    (default VUndefined (body !! lit "reasoning_md")))
    then E_BAD_PAYLOAD_SCHEMA (lit "reasoning_md")
    else Accepted
  else
    if negb (string_at_least 1 (get_prop payload (lit "intent")))
    then E_BAD_PAYLOAD_SCHEMA (lit "intent")
    else Accepted.

End Overseer.

(** ** CSRF tokens for the admin endpoints (server side) *)

Module Csrf.

Local Open Scope string_scope.

(** [str.split(":")] *)
Fixpoint split_colon (s : string) : list string :=
  match s with
  | EmptyString => [EmptyString]
  | String c rest =>
      if Ascii.eqb c ":" then EmptyString :: split_colon rest
      else
        match split_colon rest with
        | part :: parts => String c part :: parts
        | [] => [String c EmptyString]
        end
  end.

Definition decimal (n : Z) : string := NilZero.string_of_int (Z.to_int n).

Definition parse_decimal (s : string) : option Z :=
  match NilZero.uint_of_string s with
  | Some d => Some (Z.of_N (N.of_uint d))
  | None => None
  end.

Definition CSRF_VALIDITY_SECONDS : Z := 3600.

Inductive Method : Type := GET | POST | PUT | DELETE.

Definition state_changing (m : Method) : bool :=
  match m with GET => false | _ => true end.

Record Request : Type := mkRequest {
  method : Method;
  admin : bool;
  x_csrf_token : option string;
  csrf_cookie : option string;
}.

Inductive csrf_result : Type := Pass | E_CSRF_FAILED.

Section WithSecret.

(** [hmac.new(SECRET, message, digestmod="sha256").hexdigest()] *)
Variable hmac_sha256_hexdigest : string -> string -> string.
Variable SECRET : string.

(** [generate_csrf_token], as the implementation report gives it;
    [now] is [int(time.time())] and [token] is
    [secrets.token_urlsafe(32)]. *)
Definition generate_csrf_token (now : Z) (token : string) : string :=
  let timestamp := decimal now in
  let signature := hmac_sha256_hexdigest SECRET (token ++ ":" ++ timestamp) in
  token ++ ":" ++ timestamp ++ ":" ++ signature.

(** Modelled from the spec: signature check of a token
    ([src/third_eye/csrf.py] is not part of the sources at hand).  The
    value splits into [token:timestamp:signature] and the signature is the
    HMAC of [token:timestamp]. *)
Definition signature_verifies (value : string) : bool :=
  match split_colon value with
  | [token; timestamp; signature] =>
      String.eqb signature
        (hmac_sha256_hexdigest SECRET (token ++ ":" ++ timestamp))
  | _ => false
  end.

(** Modelled from the spec: the timestamp part of a token
    ([src/third_eye/csrf.py] is not part of the sources at hand). *)
Definition timestamp_of (value : string) : option Z :=
  match split_colon value with
  | [token; timestamp; signature] => parse_decimal timestamp
  | _ => None
  end.

(** Modelled from the spec: the timestamp is within 3600 s of [now]
    ([src/third_eye/csrf.py] is not part of the sources at hand). *)
Definition within_window (now : Z) (value : string) : bool :=
  match timestamp_of value with
  | Some t => (Z.abs (now - t) <=? CSRF_VALIDITY_SECONDS)%Z
  | None => false
  end.

(** Modelled from the spec: validity of a token, signature and window
    ([src/third_eye/csrf.py] is not part of the sources at hand). *)
Definition validate_csrf_token (now : Z) (value : string) : bool :=
  signature_verifies value && within_window now value.

(** Modelled from the spec: the middleware check [csrf_protect] of
    [src/third_eye/csrf.py], which is not part of the sources at hand.
    A state-changing admin request passes when its [X-CSRF-Token] header
    equals the CSRF cookie and that value is a valid token. *)
Definition csrf_protect (now : Z) (request : Request) : csrf_result :=
  if admin request && state_changing (method request) then
    match x_csrf_token request, csrf_cookie request with
    | Some header, Some cookie =>
        if String.eqb header cookie && validate_csrf_token now cookie
        then Pass else E_CSRF_FAILED
    | _, _ => E_CSRF_FAILED
    end
  else Pass.

End WithSecret.

End Csrf.

(** ** portal.ts *)

Module Portal.

(** [launchPortal(sessionId, auto)] up to the process it starts: the
    argument list handed to [spawn(command, args, ...)], where [command]
    is [UV_PATH] or "uv"; nothing is spawned for an empty session id.  A
    failure of [spawn] is caught and logged. *)
Definition launchPortal (sessionId : jsstring) (auto : bool)
    : option (list jsstring) :=
  if negb (SessionManager.nonempty sessionId) then None
  else
    let args := [lit "run"; lit "third_eye.cli"; lit "portal";
                 lit "--session-id"; sessionId] in
    Some (if auto then args ++ [lit "--auto"] else args ++ [lit "--no-auto"]).

End Portal.

(** ** eyes.ts: the tool call *)

Module Tool.

(** What [callEye] hands to [fetch]: the URL, the headers and the object
    serialised as the body. *)
Record FetchRequest : Type := mkFetchRequest {
  url : jsstring;
  headers : gmap jsstring jsstring;
  body : gmap jsstring value;
}.

(** What [callEye] reads of the response: [ok], [status], the body as
    text and the body parsed as JSON (which can fail). *)
Record Response : Type := mkResponse {
  ok : bool;
  status : nat;
  text : jsstring;
  json : outcome value;
}.

(** The value the tool handler resolves to, and the portal process it
    started, if any. *)
Record ToolResult : Type := mkToolResult {
  returned : value;
  spawned : option (list jsstring);
}.

Section WithServer.
Context `{Host}.

(** [API_URL] and [API_KEY] are read from the environment; [fetch] is the
    HTTP exchange with the server (it can reject) and [JSON_stringify] is
    [JSON.stringify(payload, null, 2)]. *)
Variables (API_URL API_KEY : jsstring).
Variable fetch : FetchRequest -> outcome Response.
Variable JSON_stringify : value -> jsstring.

Definition callEye (path : jsstring) (body : gmap jsstring value)
    : M ToolResult :=
  let* traceId := Eyes.generateTraceId in
  let headers :=
    <[lit "X-Trace-Id" := traceId]>
      (<[lit "content-type" := lit "application/json"]> ∅) in
  let headers :=
    if SessionManager.nonempty API_KEY
    then <[lit "X-API-Key" := API_KEY]> headers
    else headers in
  let envelope := Eyes.extractEnvelope body in
  let* mergedContext :=
    Eyes.coalesceContext (default VUndefined (envelope !! lit "context")) in
  let envelope := <[lit "context" := Eyes.context_value mergedContext]> envelope in
  let payload := default VUndefined (envelope !! lit "payload") in
  let envelope :=
    if negb (truthy payload) || negb (typeof_object payload)
    then <[lit "payload" := VObject ∅]> envelope
    else envelope in
  let finalPayload : gmap jsstring value :=
    <[lit "context" := default VUndefined (envelope !! lit "context")]>
      (<[lit "payload" := default VUndefined (envelope !! lit "payload")]>
         (<[lit "reasoning_md" :=
              Eyes.or_else (default VUndefined (envelope !! lit "reasoning_md"))
                VNull]> ∅)) in
  match fetch (mkFetchRequest (API_URL ++ path) headers finalPayload) with
  | Thrown e => throw e
  | Returned response =>
      if negb (ok response) then
        throw (lit "Eye request failed (" ++ index_key (status response)
               ++ lit "): " ++ text response)
      else
        match json response with
        | Thrown e => throw e
        | Returned payload =>
            let launched :=
              if bool_decide (path = lit "/eyes/overseer/navigator") then
                match get_prop (default VUndefined (envelope !! lit "context"))
                        (lit "session_id") with
                | VString sessionId =>
                    if SessionManager.nonempty sessionId
                    then Portal.launchPortal sessionId true
                    else None
                | _ => None
                end
              else None in
            ret (mkToolResult
                   (VObject
                      (<[lit "content" :=
                           VArray
                             [VObject
                                (<[lit "type" := VString (lit "text")]>
                                   (<[lit "text" :=
                                        VString (JSON_stringify payload)]> ∅))]]>
                         (<[lit "structuredContent" := payload]> ∅)))
                   launched)
        end
  end.

(** A tool as [server.tool(name, {inputSchema, ...}, handler)] registers
    it. *)
Record Registration : Type := mkRegistration {
  name : jsstring;
  inputSchema : Schema.schema;
  handler : gmap jsstring value -> M ToolResult;
}.

(** [buildEyes(server)]: the connection id is reset and the one tool is
    registered; the registrations are returned. *)
Definition buildEyes : M (list Registration) := fun w =>
  (Returned
     [ mkRegistration (lit "third-eye/oversee") Schema.inputSchema
         (fun args => callEye (lit "/eyes/overseer/orchestrate") args) ],
   set_currentConnectionId None w).

End WithServer.

End Tool.

(** ** dynamic-instructions.ts *)

Module DynamicInstructions.

Definition getConnectionId : jsstring := lit "default-connection".

(** The instructions when no session exists. *)
Definition no_session_instructions : jsstring :=
  [129535%N]
  ++ lit " THIRD EYE OVERSEER - STRICT VALIDATION REQUIRED"
  ++ [10%N; 10%N]
  ++ lit "Third Eye enforces quality gates and validates work products. "
  ++ lit "Submit complete work via 'third-eye/oversee' tool."
  ++ [10%N; 10%N]
  ++ lit "REQUIREMENTS (ALL MANDATORY):"
  ++ [10%N]
  ++ lit "- intent: Clear validation request"
  ++ [10%N]
  ++ lit "- work: Actual content to validate (code/plan/draft/requirements)"
  ++ [10%N]
  ++ lit "- context_info: Project details affecting validation"
  ++ [10%N]
  ++ lit "- reasoning_md: Your justification and design decisions"
  ++ [10%N; 10%N]
  ++ lit "Third Eye NEVER authors deliverables - it only validates and "
  ++ lit "approves/rejects your work.".

Definition baseInstructions : jsstring :=
  [129535%N]
  ++ lit " THIRD EYE VALIDATION OVERSEER: ".

Definition ready_instructions : jsstring :=
  lit "Ready for validation requests. Submit complete work packages "
  ++ lit "via 'third-eye/oversee'. ALL FIELDS REQUIRED - incomplete submissions "
  ++ lit "will be rejected.".

Definition arabic_instructions : jsstring :=
  [1606%N; 1592%N; 1575%N; 1605%N]
  ++ lit " "
  ++ [1575%N; 1604%N; 1605%N; 1585%N; 1575%N; 1602%N; 1576%N; 1577%N]
  ++ lit " "
  ++ [1575%N; 1604%N; 1589%N; 1575%N; 1585%N; 1605%N]
  ++ lit ". "
  ++ [1580%N; 1605%N; 1610%N; 1593%N]
  ++ lit " "
  ++ [1575%N; 1604%N; 1581%N; 1602%N; 1608%N; 1604%N]
  ++ lit " "
  ++ [1605%N; 1591%N; 1604%N; 1608%N; 1576%N; 1577%N]
  ++ lit " "
  ++ [1604%N; 1604%N; 1578%N; 1581%N; 1602%N; 1602%N]
  ++ lit " "
  ++ [1605%N; 1606%N]
  ++ lit " "
  ++ [1589%N; 1581%N; 1577%N]
  ++ lit " "
  ++ [1575%N; 1604%N; 1593%N; 1605%N; 1604%N]
  ++ lit ". "
  ++ [1575%N; 1587%N; 1578%N; 1582%N; 1583%N; 1605%N]
  ++ lit " "
  ++ [1571%N; 1583%N; 1575%N; 1577%N]
  ++ lit " 'third-eye/oversee' "
  ++ [1604%N; 1578%N; 1602%N; 1583%N; 1610%N; 1605%N]
  ++ lit " "
  ++ [1575%N; 1604%N; 1593%N; 1605%N; 1604%N]
  ++ lit " "
  ++ [1575%N; 1604%N; 1605%N; 1603%N; 1578%N; 1605%N; 1604%N]
  ++ lit ".".

Definition active_instructions : jsstring :=
  lit "Session active. Submit complete work for validation via 'third-eye/oversee'. "
  ++ lit "Third Eye enforces standards - provide intent, work content, "
  ++ lit "context, and reasoning.".

Definition fallback_instructions : jsstring :=
  [129535%N]
  ++ lit " THIRD EYE OVERSEER: Submit complete work for mandatory validation "
  ++ lit "via 'third-eye/oversee'. Requires intent, work content, context, "
  ++ lit "and reasoning. Incomplete submissions REJECTED.".

(** [n === 0] *)
Definition is_zero (n : number) : bool :=
  match n with
  | Finite q => Qeq_bool q 0
  | _ => false
  end.

Definition getDynamicInstructions `{Host} : M jsstring := fun w =>
  match SessionManager.get getConnectionId w with
  | (Returned None, w') => (Returned no_session_instructions, w')
  | (Returned (Some session), w') =>
      let s := deref (heap w') session in
      if is_zero (budget_tokens s) then
        (Returned (baseInstructions ++ ready_instructions), w')
      else
        match lang s with
        | LangAr => (Returned (baseInstructions ++ arabic_instructions), w')
        | _ => (Returned (baseInstructions ++ active_instructions), w')
        end
  | (Thrown _, w') => (Returned fallback_instructions, w')
  end.

End DynamicInstructions.

(** ** Provider-key encryption: the operations

    The cryptographic primitives of node's [crypto] module, the UTF-8
    codec and the configured master key are parameters.  [randomBytes k n]
    is the result of the k-th call of [randomBytes], asked for [n] bytes;
    the operations thread the number of calls made so far. *)

Module Cipher.
Import Encryption.

(** [buffer.toString('hex')] *)
Definition hex_digit (d : N) : N :=
  if (d <? 10)%N then (48 + d)%N else (87 + d)%N.

Definition toHex (buffer : Buffer) : jsstring :=
  flat_map
    (fun b => [hex_digit (Byte.to_N b / 16); hex_digit (Byte.to_N b mod 16)])
    buffer.

Section WithCrypto.

(** [config.security.encryptionKey] *)
Variable encryptionKey : option jsstring.
Variable randomBytes : nat -> nat -> Buffer.
(** [pbkdf2Sync(masterKey, salt, KEY_ITERATIONS, 32, 'sha256')] *)
Variable pbkdf2Sync : jsstring -> Buffer -> Buffer.
(** AES-256-GCM under a key and an iv: the ciphertext and the
    authentication tag of a plaintext, and the plaintext of a ciphertext
    under a tag.  Both can throw. *)
Variable aes_256_gcm_encrypt : Buffer -> Buffer -> Buffer -> outcome (Buffer * Buffer).
Variable aes_256_gcm_decrypt :
  Buffer -> Buffer -> Buffer -> Buffer -> outcome Buffer.
Variable utf8_encode : jsstring -> Buffer.
Variable utf8_decode : Buffer -> jsstring.

Definition getEncryptionKey (draws : nat) : jsstring * nat :=
  match encryptionKey with
  | Some (c :: key) => (c :: key, draws)
  | _ => (toHex (randomBytes draws 32), S draws)
  end.

Definition deriveKey (masterKey : jsstring) (salt : Buffer) : Buffer :=
  pbkdf2Sync masterKey salt.

Definition encrypt (plaintext : jsstring) (draws : nat)
    : outcome EncryptedData * nat :=
  let '(masterKey, draws) := getEncryptionKey draws in
  let salt := randomBytes draws SALT_LENGTH in
  let iv := randomBytes (S draws) IV_LENGTH in
  let draws := S (S draws) in
  let key := deriveKey masterKey salt in
  match aes_256_gcm_encrypt key iv (utf8_encode plaintext) with
  | Returned (encrypted, tag) =>
      (Returned {| encrypted := encrypted; iv := iv; salt := salt; tag := tag |},
       draws)
  | Thrown message => (Thrown (lit "Encryption failed: " ++ message), draws)
  end.

Definition decrypt (data : EncryptedData) (draws : nat)
    : outcome jsstring * nat :=
  let '(masterKey, draws) := getEncryptionKey draws in
  let key := deriveKey masterKey (salt data) in
  match aes_256_gcm_decrypt key (iv data) (tag data) (encrypted data) with
  | Returned decrypted => (Returned (utf8_decode decrypted), draws)
  | Thrown message => (Thrown (lit "Decryption failed: " ++ message), draws)
  end.

Definition encryptForStorage (plaintext : jsstring) (draws : nat)
    : outcome Buffer * nat :=
  match encrypt plaintext draws with
  | (Returned encrypted, draws) => (Returned (serializeEncrypted encrypted), draws)
  | (Thrown message, draws) => (Thrown message, draws)
  end.

Definition decryptFromStorage (buffer : Buffer) (draws : nat)
    : outcome jsstring * nat :=
  match deserializeEncrypted buffer with
  | Returned encryptedData => decrypt encryptedData draws
  | Thrown message => (Thrown message, draws)
  end.

Definition testEncryption (draws : nat) : bool * nat :=
  let testData := lit "test-api-key-12345" in
  match encrypt testData draws with
  | (Thrown _, draws) => (false, draws)
  | (Returned encrypted, draws) =>
      match decrypt encrypted draws with
      | (Thrown _, draws) => (false, draws)
      | (Returned decrypted, draws) =>
          if negb (bool_decide (testData = decrypted)) then (false, draws)
          else
            let serialized := serializeEncrypted encrypted in
            match deserializeEncrypted serialized with
            | Thrown _ => (false, draws)
            | Returned deserialized =>
                match decrypt deserialized draws with
                | (Thrown _, draws) => (false, draws)
                | (Returned decrypted2, draws) =>
                    if negb (bool_decide (testData = decrypted2))
                    then (false, draws)
                    else (true, draws)
                end
            end
      end
  end.

End WithCrypto.

(** *** validateEncryptionKey *)

(** The UTF-16 code units of a string: [length] and regular expressions
    without the [u] flag count and match these. *)
Definition code_units (s : jsstring) : list N :=
  flat_map
    (fun c =>
       if (c <? 65536)%N then [c]
       else [(55296 + (c - 65536) / 1024)%N; (56320 + (c - 65536) mod 1024)%N])
    s.

(** [/[A-Za-z]/] and [/[0-9]/] on one code unit. *)
Definition is_letter (c : N) : bool :=
  ((65 <=? c)%N && (c <=? 90)%N) || ((97 <=? c)%N && (c <=? 122)%N).

Definition is_digit (c : N) : bool := (48 <=? c)%N && (c <=? 57)%N.

(** [/^(.)\1+$/]: one code unit that is no line terminator, twice or
    more, and nothing else. *)
Definition repetitive (units : list N) : bool :=
  match units with
  | c :: (_ :: _) as rest =>
      negb (is_line_terminator c) && forallb (N.eqb c) rest
  | _ => false
  end.

Record Validation : Type := mkValidation {
  valid : bool;
  issues : list jsstring;
}.

Section WithCase.

(** [String.prototype.toLowerCase] and [toUpperCase]. *)
Variables toLowerCase toUpperCase : jsstring -> jsstring.

Definition validateEncryptionKey (key : jsstring) : Validation :=
  let units := code_units key in
  let issues := [] in
  let issues :=
    if (length units <? 32)%nat
    then issues ++ [lit "Key too short (minimum 32 characters)"]
    else issues in
  let issues :=
    if (length units <? 64)%nat
    then issues
         ++ [lit "Key should be at least 64 characters for optimal security"]
    else issues in
  let issues :=
    if negb (existsb is_letter units)
    then issues ++ [lit "Key should contain letters"]
    else issues in
  let issues :=
    if negb (existsb is_digit units)
    then issues ++ [lit "Key should contain numbers"]
    else issues in
  let issues :=
    if repetitive units
    then issues ++ [lit "Key should not be repetitive"]
    else issues in
  let issues :=
    if bool_decide (key = toLowerCase key) || bool_decide (key = toUpperCase key)
    then issues ++ [lit "Key should contain mixed case"]
    else issues in
  {| valid := (length issues =? 0)%nat; issues := issues |}.

End WithCase.

End Cipher.

(** ** Vocabulary of the properties *)

(** The id the next [getOrCreate] would mint in world [w]. *)
Definition minted_session_id `{Host} (w : World) : jsstring :=
  SessionManager.session_id_of (clock (ticks w)) (random_suffix (draws w)).

(** The state invariant of the session store: rows are objects of the
    heap, no two ids share a row object, a connection has at most one
    session id, every row is referenced by exactly one binding, and every
    binding references a row under a non-empty id. *)
Record store_invariant (w : World) : Prop := {
  rows_in_heap :
    forall sid r, sessions w !! sid = Some r -> (r < length (heap w))%nat;
  rows_not_shared :
    forall sid1 sid2 r,
      sessions w !! sid1 = Some r -> sessions w !! sid2 = Some r -> sid1 = sid2;
  one_session_per_connection :
    forall c sid1 sid2,
      connectionToSession w !! c = Some sid1 ->
      connectionToSession w !! c = Some sid2 -> sid1 = sid2;
  row_bound_exactly_once :
    forall sid, is_Some (sessions w !! sid) ->
      exists c, connectionToSession w !! c = Some sid
                /\ forall c', connectionToSession w !! c' = Some sid -> c' = c;
  binding_has_row :
    forall c sid, connectionToSession w !! c = Some sid ->
      sid <> [] /\ is_Some (sessions w !! sid);
}.

(** The operations of the store, as a caller issues them. *)
Inductive operation : Type :=
  | OpGetOrCreate (connectionId : jsstring)
  | OpGet (connectionId : jsstring)
  | OpUpdate (connectionId : jsstring) (updates : PartialSessionContext)
  | OpCleanup (connectionId : jsstring)
  | OpCleanupStale.

Definition perform `{Host} (op : operation) : M unit :=
  match op with
  | OpGetOrCreate c => SessionManager.getOrCreate c ;; ret tt
  | OpGet c => SessionManager.get c ;; ret tt
  | OpUpdate c u => SessionManager.update c u ;; ret tt
  | OpCleanup c => SessionManager.cleanup c
  | OpCleanupStale => SessionManager.cleanupStale
  end.

Fixpoint perform_all `{Host} (ops : list operation) (w : World) : World :=
  match ops with
  | [] => w
  | op :: rest => perform_all rest (world_after (perform op) w)
  end.

(** A [getOrCreate] that has to create a session mints an id that is not
    in use. *)
Definition mints_fresh `{Host} (op : operation) (w : World) : bool :=
  match op with
  | OpGetOrCreate c =>
      match SessionManager.bound w c with
      | Some _ => true
      | None => bool_decide (sessions w !! minted_session_id w = None)
      end
  | _ => true
  end.

Fixpoint fresh_run `{Host} (ops : list operation) (w : World) : bool :=
  match ops with
  | [] => true
  | op :: rest =>
      mints_fresh op w && fresh_run rest (world_after (perform op) w)
  end.

(** [n] calls of [getOrCreate] in a row, collecting the returned objects. *)
Fixpoint getOrCreate_times `{Host} (n : nat) (connectionId : jsstring)
    : M (list ref) :=
  match n with
  | O => ret []
  | S n' =>
      let* copy := SessionManager.getOrCreate connectionId in
      let* copies := getOrCreate_times n' connectionId in
      ret (copy :: copies)
  end.

(** The five fields of a session row that make up a context. *)
Definition session_fields (s : SessionContext) : Eyes.SessionContext :=
  Eyes.mkContext (session_id s) (user_id s) (lang s) (budget_tokens s)
    (tenant s).

(** The context reconstructed from the binding of connection [c]: the
    fields of the bound row, or those of the session a first call mints. *)
Definition bound_context `{Host} (w : World) (c : jsstring)
    : Eyes.SessionContext :=
  match SessionManager.bound w c with
  | Some r => session_fields (deref (heap w) r)
  | None => Eyes.mkContext (minted_session_id w) None LangAuto (Finite 0) None
  end.

(** The four thresholds of strict validation, read off the arguments of
    a tool call. *)
Definition meets_thresholds (args : value) : Prop :=
  (exists s, get_prop (get_prop args (lit "payload")) (lit "intent") = VString s
             /\ (5 <= length s)%nat)
  /\ (exists m, get_prop (get_prop args (lit "payload")) (lit "work") = VObject m
                /\ (1 <= size m)%nat)
  /\ (exists m, get_prop (get_prop args (lit "payload")) (lit "context_info")
                = VObject m
                /\ (1 <= size m)%nat)
  /\ (exists s, get_prop args (lit "reasoning_md") = VString s
                /\ (10 <= length s)%nat).

(** [intent] is a string without line terminators. *)
Definition single_line_intent (args : value) : Prop :=
  exists s, get_prop (get_prop args (lit "payload")) (lit "intent") = VString s
            /\ Forall (fun c => is_line_terminator c = false) s.

(** A property of an object is absent or satisfies [P]. *)
Definition field_ok (P : value -> Prop) (v : value) (key : jsstring) : Prop :=
  match v with
  | VObject props =>
      match props !! key with Some x => P x | None => True end
  | _ => True
  end.

Definition is_string (v : value) : Prop := exists s, v = VString s.

Definition is_string_array (v : value) : Prop :=
  exists xs, v = VArray xs /\ Forall is_string xs.

Definition is_security_level (v : value) : Prop :=
  v = VString (lit "low") \/ v = VString (lit "medium")
  \/ v = VString (lit "high") \/ v = VString (lit "critical").

(** An object has no keys besides the listed ones. *)
Definition only_keys (allowed : list jsstring) (v : value) : Prop :=
  match v with
  | VObject props => forall key, is_Some (props !! key) -> key ∈ allowed
  | _ => True
  end.

(** What the input schema asks for besides the four thresholds and the
    pattern of [intent]. *)
Definition rest_well_formed (args : value) : Prop :=
  let payload := get_prop args (lit "payload") in
  let work := get_prop payload (lit "work") in
  let context_info := get_prop payload (lit "context_info") in
  only_keys [lit "context"; lit "payload"; lit "reasoning_md"] args
  /\ only_keys [lit "intent"; lit "work"; lit "context_info"] payload
  /\ field_ok
       (fun c => c = VNull \/ Schema.valid Schema.contextSchema c = true)
       args (lit "context")
  /\ Forall (field_ok is_string work)
       [lit "code"; lit "plan"; lit "draft"; lit "requirements"; lit "tests";
        lit "docs"]
  /\ Forall (field_ok is_string context_info)
       [lit "project_type"; lit "language"; lit "target_audience";
        lit "performance_criteria"]
  /\ field_ok is_string_array context_info (lit "compliance_requirements")
  /\ field_ok is_security_level context_info (lit "security_level").

(** A string without a colon. *)
Fixpoint no_colon (s : string) : bool :=
  match s with
  | EmptyString => true
  | String c rest => negb (Ascii.eqb c ":") && no_colon rest
  end.

(** [value] has the form [token:timestamp:signature]. *)
Definition token_parts (value token timestamp signature : string) : Prop :=
  value = (token ++ ":" ++ timestamp ++ ":" ++ signature)%string
  /\ no_colon token = true /\ no_colon timestamp = true
  /\ no_colon signature = true.

(** The signature of [value] is the HMAC of [token:timestamp]. *)
Definition well_signed (hmac : string -> string -> string) (secret : string)
    (value : string) : Prop :=
  exists token timestamp signature,
    token_parts value token timestamp signature
    /\ signature = hmac secret (token ++ ":" ++ timestamp)%string.

(** The timestamp of [value] is a decimal number within 3600 s of [now]. *)
Definition timely (now : Z) (value : string) : Prop :=
  exists token timestamp signature t,
    token_parts value token timestamp signature
    /\ Csrf.parse_decimal timestamp = Some t
    /\ -3600 <= now - t <= 3600.

(** The running context [base] is what [Object.assign(row, updates)]
    would give, and [updates] is empty as long as [hasUpdates] is unset. *)
Definition tracks (row : SessionContext) (st : Eyes.Coalesce) : Prop :=
  Eyes.base st = session_fields (Object_assign row (Eyes.updates st))
  /\ (Eyes.hasUpdates st = false -> Eyes.updates st = no_updates).

(** Every stored row has a finite, non-negative token budget. *)
Definition budgets_ok (w : World) : Prop :=
  forall sid r, sessions w !! sid = Some r ->
    exists q, budget_tokens (deref (heap w) r) = Finite q /\ Qle_bool 0 q = true.

(** A run of tool calls, each a path and a body handed to [callEye]. *)
Fixpoint tool_calls `{Host} (API_URL API_KEY : jsstring)
    (fetch : Tool.FetchRequest -> outcome Tool.Response)
    (JSON_stringify : value -> jsstring)
    (calls : list (jsstring * gmap jsstring value)) (w : World) : World :=
  match calls with
  | [] => w
  | (path, body) :: rest =>
      tool_calls API_URL API_KEY fetch JSON_stringify rest
        (world_after (Tool.callEye API_URL API_KEY fetch JSON_stringify path body)
           w)
  end.

(** The connection id of dynamic-instructions.ts is neither bound nor the
    current connection id of eyes.ts. *)
Definition default_connection_unused (w : World) : Prop :=
  connectionToSession w !! DynamicInstructions.getConnectionId = None
  /\ currentConnectionId w <> Some DynamicInstructions.getConnectionId.

(** Every stored session id was minted from a non-negative clock reading
    and one of the random suffixes drawn so far. *)
Definition minted_before `{Host} (w : World) : Prop :=
  forall sid, is_Some (sessions w !! sid) ->
    exists t j, sid = SessionManager.session_id_of t (random_suffix j)
                /\ 0 <= t /\ (j < draws w)%nat.

(** ** Sample inputs *)

Definition sample_host : Host :=
  {| clock := fun n => 1700000000000 + 1000 * Z.of_nat n;
     random_suffix := fun n => lit "k3x9q" ++ index_key n;
     StringToNumber := fun _ => NaN;
     ObjectToNumber := fun _ => NaN |}.

Definition sample_encrypted : Encryption.EncryptedData :=
  {| Encryption.encrypted := [Byte.x01; Byte.x02; Byte.x03];
     Encryption.iv := repeat Byte.x0a 12;
     Encryption.salt := repeat Byte.x0b 32;
     Encryption.tag := repeat Byte.x0c 16 |}.

Definition conn_a : jsstring := lit "conn-a".
Definition conn_b : jsstring := lit "conn-b".

Definition sample_ops : list operation :=
  [ OpGetOrCreate conn_a; OpGetOrCreate conn_b;
    OpUpdate conn_a
      (mkPartial None (Some (Some (lit "alice"))) None None None None None);
    OpGet conn_b; OpCleanupStale; OpCleanup conn_b; OpGetOrCreate conn_a;
    OpUpdate conn_b no_updates ].

(** A host whose clock stands at 0 for the first three readings and at
    one hour (3 600 000 ms) afterwards. *)
Definition late_host : Host :=
  {| clock := fun n => if (n <? 3)%nat then 0 else 3600000;
     random_suffix := fun n => lit "k3x9q" ++ index_key n;
     StringToNumber := fun _ => NaN;
     ObjectToNumber := fun _ => NaN |}.

(** The store after one [getOrCreate] under [late_host], its session id
    and its row. *)
Definition late_store : World :=
  @perform_all late_host [OpGetOrCreate conn_a] empty_world.

Definition late_session_id : jsstring :=
  @minted_session_id late_host empty_world.

Definition late_row : SessionContext :=
  mkSessionContext late_session_id None LangAuto (Finite 0) None 0 0.

Definition orchestrate_path : jsstring := lit "/eyes/overseer/orchestrate".

(** A tool call whose [arguments] object itself has an [arguments] key. *)
Definition nested_arguments_body : gmap jsstring value :=
  {[ lit "arguments" :=
       VObject (<[lit "arguments" := VString (lit "x")]>
                  {[ lit "payload" := VObject ∅ ]}) ]}.

(** A relaxed-mode submission: [{payload: {intent: "test"}, strict_mode: false}]. *)
Definition relaxed_body : gmap jsstring value :=
  <[lit "payload" := VObject {[ lit "intent" := VString (lit "test") ]}]>
    {[ lit "strict_mode" := VBool false ]}.

Definition alice_context : value :=
  VObject {[ lit "user_id" := VString (lit "alice") ]}.

Definition null_user_context : value :=
  VObject {[ lit "user_id" := VNull ]}.

(** The world after a first call that set the user of the session. *)
Definition alice_world : World :=
  world_after (@Eyes.coalesceContext sample_host alice_context) empty_world.

Definition alice_connection : jsstring :=
  Eyes.connection_id_of 1700000000000 (lit "k3x9q0").

(** Scenario 1 of the spec with a long enough justification, for a given
    [context_info]. *)
Definition sample_intent : jsstring := lit "Review my login endpoint".

Definition sample_reasoning : jsstring :=
  lit "Checks the credentials before issuing a token".

Definition sample_work : gmap jsstring value :=
  {[ lit "code" := VString (lit "def login(): pass") ]}.

Definition payload_of (context_info : gmap jsstring value)
    : gmap jsstring value :=
  <[lit "intent" := VString sample_intent]>
    (<[lit "work" := VObject sample_work]>
       {[ lit "context_info" := VObject context_info ]}).

Definition submission_of (context_info : gmap jsstring value)
    : gmap jsstring value :=
  <[lit "payload" := VObject (payload_of context_info)]>
    {[ lit "reasoning_md" := VString sample_reasoning ]}.

Definition sample_context_info : gmap jsstring value :=
  {[ lit "language" := VString (lit "python") ]}.

(** A submission that the input schema accepts. *)
Definition sample_submission : value :=
  VObject (submission_of sample_context_info).

(** A [context_info] whose [security_level] is outside the enumeration,
    and the submission that carries it. *)
Definition extreme_context_info : gmap jsstring value :=
  {[ lit "security_level" := VString (lit "extreme") ]}.

Definition extreme_submission : value :=
  VObject (submission_of extreme_context_info).

(** A stand-in for the keyed hash, and an admin request that carries a
    generated token in both the header and the cookie. *)
Definition toy_hmac (key message : string) : string :=
  Csrf.decimal (Z.of_nat (String.length (key ++ message))).

Definition sample_token : string :=
  Csrf.generate_csrf_token toy_hmac "server-secret" 1700000000 "q7Zt_x-0".

Definition sample_request : Csrf.Request :=
  Csrf.mkRequest Csrf.POST true (Some sample_token) (Some sample_token).

(** The store after two connections got their sessions. *)
Definition sample_store : World :=
  @perform_all sample_host [OpGetOrCreate conn_a; OpGetOrCreate conn_b]
    empty_world.

(** A submission whose [intent] runs over two lines. *)
Definition multiline_intent : jsstring :=
  lit "Review my login" ++ [10%N] ++ lit "endpoint".

Definition multiline_submission : value :=
  VObject
    (<[lit "payload" :=
         VObject (<[lit "intent" := VString multiline_intent]>
                    (payload_of sample_context_info))]>
       (submission_of sample_context_info)).

(** A server that refuses every request with status 422. *)
Definition sample_failure : Tool.Response :=
  Tool.mkResponse false 422 (lit "reasoning_md is required")
    (Thrown (lit "Unexpected token r in JSON at position 0")).

Definition failing_fetch (req : Tool.FetchRequest) : outcome Tool.Response :=
  Returned sample_failure.

Definition sample_stringify (v : value) : jsstring := lit "{}".

Definition sample_api_url : jsstring := lit "http://localhost:8000".

(** Stand-ins for the cryptographic primitives and the codecs: constant
    random bytes, a key derivation that returns the salt, a cipher that
    reverses the plaintext under a constant tag, and a codec for strings
    of one-byte characters. *)
Definition toy_randomBytes (k n : nat) : Encryption.Buffer := repeat Byte.x2a n.

Definition toy_pbkdf2Sync (masterKey : jsstring) (salt : Encryption.Buffer)
    : Encryption.Buffer := salt.

Definition toy_encrypt (key iv plaintext : Encryption.Buffer)
    : outcome (Encryption.Buffer * Encryption.Buffer) :=
  Returned (rev plaintext, repeat Byte.x00 16).

Definition toy_decrypt (key iv tag ciphertext : Encryption.Buffer)
    : outcome Encryption.Buffer :=
  Returned (rev ciphertext).

Definition toy_utf8_encode (s : jsstring) : Encryption.Buffer :=
  List.map (fun c => default Byte.x00 (Byte.of_N (c mod 256))) s.

Definition toy_utf8_decode (buffer : Encryption.Buffer) : jsstring :=
  List.map Byte.to_N buffer.

Definition sample_master_key : jsstring := lit "Master-Key-0001".

Definition sample_plaintext : jsstring := lit "sk-live-12345".

(** Case conversion of the letters A-Z and a-z. *)
Definition ascii_toLowerCase (s : jsstring) : jsstring :=
  List.map (fun c => if ((65 <=? c) && (c <=? 90))%N then (c + 32)%N else c) s.

Definition ascii_toUpperCase (s : jsstring) : jsstring :=
  List.map (fun c => if ((97 <=? c) && (c <=? 122))%N then (c - 32)%N else c) s.

(** A host whose random suffixes are all different. *)
Definition counting_host : Host :=
  {| clock := fun n => Z.of_nat n;
     random_suffix := fun n => repeat 97%N (S n);
     StringToNumber := fun _ => NaN;
     ObjectToNumber := fun _ => NaN |}.

(** A host whose clock and random source repeat themselves. *)
Definition frozen_host : Host :=
  {| clock := fun _ => 0;
     random_suffix := fun _ => lit "aaaaaaa";
     StringToNumber := fun _ => NaN;
     ObjectToNumber := fun _ => NaN |}.

(** * Properties *)

(** ** Storage format of encrypted provider keys *)

Section EncryptionFacts.
Import Encryption.

Lemma subarray_middle (a b c : Buffer) (start stop : nat) :
  start = length a -> stop = (length a + length b)%nat ->
  subarray (a ++ b ++ c) start stop = b.
Proof.
  intros -> ->. unfold subarray.
  rewrite drop_app_length.
  replace (length a + length b - length a)%nat with (length b) by lia.
  apply take_app_length.
Qed.

Lemma deserialize_layout (s i t e : Buffer) :
  length s = SALT_LENGTH -> length i = IV_LENGTH -> length t = TAG_LENGTH ->
  deserializeEncrypted (s ++ i ++ t ++ e)
  = Returned {| salt := s; iv := i; tag := t; encrypted := e |}.
Proof.
  intros Hs Hi Ht. unfold deserializeEncrypted.
  assert (Hlen : (length (s ++ i ++ t ++ e)
                  <? SALT_LENGTH + IV_LENGTH + TAG_LENGTH)%nat = false).
  { apply Nat.ltb_ge. rewrite !length_app. lia. }
  rewrite Hlen. cbv zeta. f_equal. f_equal.
  - unfold subarray_from.
    replace (s ++ i ++ t ++ e) with ((s ++ i ++ t) ++ e)
      by (by rewrite <- !app_assoc).
    apply drop_app_length'. rewrite !length_app. lia.
  - apply (subarray_middle s i (t ++ e)); lia.
  - apply (subarray_middle [] s (i ++ t ++ e)); simpl; lia.
  - replace (s ++ i ++ t ++ e) with ((s ++ i) ++ t ++ e)
      by (by rewrite <- !app_assoc).
    apply (subarray_middle (s ++ i) t e); rewrite !length_app; lia.
Qed.

(** C9. For every [EncryptedData] whose salt is 32 bytes, iv 12 bytes and
    tag 16 bytes, deserialising its serialisation gives the value back;
    and [deserializeEncrypted] throws "Invalid encrypted data: buffer too
    short" exactly when its input is shorter than 60 bytes, returning a
    value otherwise. *)
Theorem serialize_deserialize_roundtrip (d : EncryptedData) (buffer : Buffer)
    (Hsalt : length (salt d) = 32%nat) (Hiv : length (iv d) = 12%nat)
    (Htag : length (tag d) = 16%nat) :
  deserializeEncrypted (serializeEncrypted d) = Returned d
  /\ (deserializeEncrypted buffer
        = Thrown (lit "Invalid encrypted data: buffer too short")
      <-> (length buffer < 60)%nat)
  /\ ((60 <= length buffer)%nat ->
      exists data, deserializeEncrypted buffer = Returned data).
Proof.
  split; [|split].
  - unfold serializeEncrypted, Buffer_concat. cbn [concat].
    rewrite app_nil_r. rewrite deserialize_layout by done. by destruct d.
  - unfold deserializeEncrypted.
    change (SALT_LENGTH + IV_LENGTH + TAG_LENGTH)%nat with 60%nat.
    destruct (Nat.ltb_spec (length buffer) 60) as [Hlt | Hge].
    + split; [intros _; exact Hlt | reflexivity].
    + split; [discriminate | lia].
  - intros Hge. unfold deserializeEncrypted.
    change (SALT_LENGTH + IV_LENGTH + TAG_LENGTH)%nat with 60%nat.
    destruct (Nat.ltb_spec (length buffer) 60) as [Hlt | _]; [lia|].
    eexists. reflexivity.
Qed.

Lemma serialize_deserialize_roundtrip_witness :
  Encryption.deserializeEncrypted (Encryption.serializeEncrypted sample_encrypted)
  = Returned sample_encrypted
  /\ (Encryption.deserializeEncrypted [Byte.x00]
        = Thrown (lit "Invalid encrypted data: buffer too short")
      <-> (length [Byte.x00] < 60)%nat)
  /\ ((60 <= length [Byte.x00])%nat ->
      exists data, Encryption.deserializeEncrypted [Byte.x00] = Returned data).
Proof.
  apply (serialize_deserialize_roundtrip sample_encrypted [Byte.x00]);
    reflexivity.
Defined.

End EncryptionFacts.

(** ** The session store *)

Section StoreFacts.
Context `{Host}.
Import SessionManager.

Lemma nonempty_spec (s : jsstring) : nonempty s = true <-> s <> [].
Proof. destruct s; simpl; split; congruence. Qed.

Lemma session_id_of_nonempty t rnd : session_id_of t rnd <> [].
Proof. discriminate. Qed.

Lemma bound_Some w c r :
  bound w c = Some r <->
  exists sid, connectionToSession w !! c = Some sid /\ sid <> []
              /\ sessions w !! sid = Some r.
Proof.
  unfold bound. split.
  - destruct (connectionToSession w !! c) as [sid|]; [|done].
    destruct (nonempty sid) eqn:Hne; [|done].
    intros Hr. exists sid. by rewrite <- nonempty_spec.
  - intros (sid & -> & Hne & Hr). apply nonempty_spec in Hne. by rewrite Hne.
Qed.

Lemma getOrCreate_bound c w r :
  bound w c = Some r ->
  getOrCreate c w
  = (Returned (length (heap w)),
     let h1 := <[r := with_last_activity (clock (ticks w)) (deref (heap w) r)]>
                 (heap w) in
     mkWorld (h1 ++ [deref h1 r]) (sessions w) (connectionToSession w)
       (currentConnectionId w) (S (ticks w)) (draws w)).
Proof.
  intros Hb. unfold getOrCreate, bind, bound_session. rewrite Hb.
  cbn. unfold alloc. cbn. by rewrite length_insert.
Qed.

Lemma getOrCreate_unbound c w :
  bound w c = None ->
  getOrCreate c w
  = (let sid := minted_session_id w in
     let s := mkSessionContext sid None LangAuto (Finite 0) None
                (clock (S (ticks w))) (clock (S (S (ticks w)))) in
     (Returned (S (length (heap w))),
      mkWorld (heap w ++ [s; s]) (<[sid := length (heap w)]> (sessions w))
        (<[c := sid]> (connectionToSession w))
        (currentConnectionId w) (S (S (S (ticks w)))) (S (draws w)))).
Proof.
  intros Hb. unfold getOrCreate, bind, bound_session. rewrite Hb.
  cbn. unfold alloc, deref. cbn. rewrite lookup_app_r by lia.
  rewrite Nat.sub_diag. cbn.
  rewrite length_app. cbn. rewrite Nat.add_1_r. by rewrite <- app_assoc.
Qed.

Lemma update_bound c u w r :
  bound w c = Some r ->
  update c u w
  = (Returned (length (heap w)),
     let h1 := <[r := Object_assign (deref (heap w) r) u]> (heap w) in
     let h2 := <[r := with_last_activity (clock (ticks w)) (deref h1 r)]> h1 in
     mkWorld (h2 ++ [deref h2 r]) (sessions w) (connectionToSession w)
       (currentConnectionId w) (S (ticks w)) (draws w)).
Proof.
  intros Hb. unfold update, bind, bound_session. rewrite Hb.
  cbn. unfold alloc. cbn. by rewrite !length_insert.
Qed.

Lemma update_unbound c u w :
  bound w c = None ->
  update c u w
  = (Thrown (lit "No session found for connection " ++ c), w).
Proof.
  intros Hb. unfold update, bind, bound_session. by rewrite Hb.
Qed.

Lemma get_bound c w r :
  bound w c = Some r ->
  get c w
  = (Returned (Some (length (heap w))),
     let h1 := <[r := with_last_activity (clock (ticks w)) (deref (heap w) r)]>
                 (heap w) in
     mkWorld (h1 ++ [deref h1 r]) (sessions w) (connectionToSession w)
       (currentConnectionId w) (S (ticks w)) (draws w)).
Proof.
  intros Hb. unfold get, bind, bound_session. rewrite Hb.
  cbn. unfold alloc. cbn. by rewrite length_insert.
Qed.

Lemma get_unbound c w : bound w c = None -> get c w = (Returned None, w).
Proof.
  intros Hb. unfold get, bind, bound_session. by rewrite Hb.
Qed.

Lemma invariant_same_maps w w' :
  store_invariant w ->
  sessions w' = sessions w ->
  connectionToSession w' = connectionToSession w ->
  (length (heap w) <= length (heap w'))%nat ->
  store_invariant w'.
Proof.
  intros [H1 H2 H3 H4 H5] Hs Hc Hl.
  split; rewrite ?Hs, ?Hc; try done.
  intros sid r Hr. specialize (H1 sid r Hr). lia.
Qed.

Lemma invariant_unbound w c :
  store_invariant w -> bound w c = None -> connectionToSession w !! c = None.
Proof.
  intros Hinv Hb.
  destruct (connectionToSession w !! c) as [sid|] eqn:Hc; [|done].
  destruct (binding_has_row w Hinv c sid Hc) as [Hne [r Hr]].
  assert (bound w c = Some r) by (apply bound_Some; eauto).
  congruence.
Qed.

Lemma invariant_create w c sid h' cur t d :
  store_invariant w ->
  connectionToSession w !! c = None ->
  sessions w !! sid = None ->
  sid <> [] ->
  (length (heap w) < length h')%nat ->
  store_invariant
    (mkWorld h' (<[sid := length (heap w)]> (sessions w))
       (<[c := sid]> (connectionToSession w)) cur t d).
Proof.
  intros [H1 H2 H3 H4 H5] Hc Hs Hne Hl. split; cbn.
  - intros sid' r. rewrite lookup_insert. case_decide.
    + intros [= <-]. lia.
    + intros Hr. specialize (H1 _ _ Hr). lia.
  - intros sid1 sid2 r. rewrite !lookup_insert.
    repeat case_decide; subst; try done.
    + intros [= <-] Hr. specialize (H1 _ _ Hr). lia.
    + intros Hr [= <-]. specialize (H1 _ _ Hr). lia.
    + apply H2.
  - intros c' sid1 sid2 E1 E2. congruence.
  - intros sid'. rewrite lookup_insert. case_decide as Hsid.
    + subst sid'. intros _. exists c. split; [by rewrite lookup_insert_eq|].
      intros c'. rewrite lookup_insert. case_decide; [done|].
      intros Hc'. destruct (H5 _ _ Hc') as [_ [r Hr]]. congruence.
    + intros Hsome. destruct (H4 _ Hsome) as (c0 & Hc0 & Huniq).
      exists c0. split.
      * rewrite lookup_insert_ne; [done|]. intros ->. congruence.
      * intros c'. rewrite lookup_insert. case_decide; [congruence|].
        apply Huniq.
  - intros c' sid'. rewrite lookup_insert. case_decide.
    + intros [= <-]. split; [done|]. rewrite lookup_insert_eq. eauto.
    + intros Hc'. destruct (H5 _ _ Hc') as [Hn [r Hr]]. split; [done|].
      rewrite lookup_insert_ne; [eauto|]. intros ->. congruence.
Qed.

Lemma cleanup_bound c w sid :
  connectionToSession w !! c = Some sid -> sid <> [] ->
  cleanup c w
  = (Returned tt,
     mkWorld (heap w) (delete sid (sessions w))
       (delete c (connectionToSession w)) (currentConnectionId w)
       (ticks w) (draws w)).
Proof.
  intros Hc Hne. unfold cleanup. rewrite Hc.
  apply nonempty_spec in Hne. by rewrite Hne.
Qed.

Lemma cleanup_unbound c w :
  connectionToSession w !! c = None -> cleanup c w = (Returned tt, w).
Proof. intros Hc. unfold cleanup. by rewrite Hc. Qed.

Lemma invariant_cleanup w c :
  store_invariant w -> store_invariant (world_after (cleanup c) w).
Proof.
  intros Hinv. unfold world_after.
  destruct (connectionToSession w !! c) as [sid|] eqn:Hc.
  2:{ by rewrite cleanup_unbound. }
  destruct (binding_has_row w Hinv c sid Hc) as [Hne Hrow].
  rewrite (cleanup_bound c w sid) by done. cbn.
  destruct Hinv as [H1 H2 H3 H4 H5].
  destruct (H4 sid Hrow) as (c0 & Hc0 & Huniq).
  assert (c0 = c) as -> by (symmetry; by apply Huniq).
  split; cbn.
  - intros sid' r. rewrite lookup_delete. case_decide; [done|]. apply H1.
  - intros sid1 sid2 r. rewrite !lookup_delete.
    repeat case_decide; try done. apply H2.
  - intros c' sid1 sid2 E1 E2. congruence.
  - intros sid'. rewrite lookup_delete. case_decide as Hsid.
    { intros [? ?]; done. }
    intros Hsome. destruct (H4 _ Hsome) as (c1 & Hc1 & Huniq1).
    exists c1. split.
    + rewrite lookup_delete_ne; [done|]. intros ->. congruence.
    + intros c'. rewrite lookup_delete. case_decide; [done|]. apply Huniq1.
  - intros c' sid'. rewrite lookup_delete. case_decide as Hcc; [done|].
    intros Hc'. destruct (H5 _ _ Hc') as [Hn Hs]. split; [done|].
    rewrite lookup_delete_ne; [done|]. intros ->.
    apply Hcc. symmetry. by apply Huniq.
Qed.

Lemma invariant_cleanup_each cs w :
  store_invariant w -> store_invariant (world_after (cleanup_each cs) w).
Proof.
  revert w. induction cs as [|c cs IH]; intros w Hinv; [done|].
  unfold world_after in *. cbn. unfold bind.
  pose proof (invariant_cleanup w c Hinv) as Hc. unfold world_after in Hc.
  destruct (cleanup c w) as [[[]|e] w1] eqn:E; cbn in *.
  - by apply IH.
  - done.
Qed.


Lemma invariant_after_touch w r s t d :
  store_invariant w -> (r < length (heap w))%nat ->
  store_invariant
    (mkWorld (<[r := s]> (heap w) ++ [deref (<[r := s]> (heap w)) r])
       (sessions w) (connectionToSession w) (currentConnectionId w) t d).
Proof.
  intros Hinv Hr. apply (invariant_same_maps w); try done.
  cbn. rewrite length_app, length_insert. lia.
Qed.

Lemma invariant_perform op w :
  store_invariant w -> mints_fresh op w = true ->
  store_invariant (world_after (perform op) w).
Proof.
  intros Hinv Hfresh. unfold world_after.
  destruct op as [c | c | c u | c | ]; cbn [perform].
  - unfold bind. destruct (bound w c) as [r|] eqn:Hb.
    + rewrite (getOrCreate_bound c w r Hb). cbn.
      apply (invariant_same_maps w); try done.
      cbn. rewrite length_app, length_insert. lia.
    + rewrite (getOrCreate_unbound c w Hb). cbn.
      cbn in Hfresh. rewrite Hb in Hfresh. apply bool_decide_eq_true in Hfresh.
      apply invariant_create; try done.
      * by apply invariant_unbound.
      * rewrite length_app. cbn. lia.
  - unfold bind. destruct (bound w c) as [r|] eqn:Hb.
    + rewrite (get_bound c w r Hb). cbn.
      apply (invariant_same_maps w); try done.
      cbn. rewrite length_app, length_insert. lia.
    + by rewrite (get_unbound c w Hb).
  - unfold bind. destruct (bound w c) as [r|] eqn:Hb.
    + rewrite (update_bound c u w r Hb). cbn.
      apply (invariant_same_maps w); try done.
      cbn. rewrite length_app, !length_insert. lia.
    + by rewrite (update_unbound c u w Hb).
  - by apply invariant_cleanup.
  - unfold cleanupStale, bind. cbn.
    apply (invariant_cleanup_each _
             (mkWorld (heap w) (sessions w) (connectionToSession w)
                (currentConnectionId w) (S (ticks w)) (draws w))).
    by apply (invariant_same_maps w).
Qed.

Lemma invariant_empty_world : store_invariant empty_world.
Proof.
  split; cbn; intros *; rewrite ?lookup_empty; done.
Qed.

Lemma invariant_run ops w :
  store_invariant w -> fresh_run ops w = true ->
  store_invariant (perform_all ops w).
Proof.
  revert w. induction ops as [|op ops IH]; intros w Hinv Hfresh; [done|].
  cbn in Hfresh. apply andb_true_iff in Hfresh as [Hop Hrest].
  cbn [perform_all]. apply IH; [|done]. by apply invariant_perform.
Qed.


(** *** Reclaiming stale sessions *)

Lemma cleanup_each_effect cs : forall w,
  NoDup cs ->
  (forall c, c ∈ cs ->
     exists sid, connectionToSession w !! c = Some sid /\ sid <> []) ->
  let w' := world_after (cleanup_each cs) w in
  result_of (cleanup_each cs) w = Returned tt
  /\ heap w' = heap w
  /\ (forall c, c ∈ cs -> connectionToSession w' !! c = None)
  /\ (forall c, c ∉ cs ->
        connectionToSession w' !! c = connectionToSession w !! c)
  /\ (forall c sid, c ∈ cs -> connectionToSession w !! c = Some sid ->
        sessions w' !! sid = None)
  /\ (forall sid,
        (forall c, c ∈ cs -> connectionToSession w !! c <> Some sid) ->
        sessions w' !! sid = sessions w !! sid).
Proof.
  induction cs as [|c0 cs IH]; intros w Hnd Hbound.
  { cbn. repeat split; try done; by intros * Hc%elem_of_nil. }
  apply NoDup_cons in Hnd as [Hc0 Hnd].
  destruct (Hbound c0) as (sid0 & Hsid0 & Hne0); [left|].
  unfold result_of, world_after. cbn [cleanup_each]. unfold bind.
  rewrite (cleanup_bound c0 w sid0) by done.
  set (w1 := mkWorld (heap w) (delete sid0 (sessions w))
               (delete c0 (connectionToSession w)) (currentConnectionId w)
               (ticks w) (draws w)).
  assert (Hsame : forall c, c ∈ cs ->
            connectionToSession w1 !! c = connectionToSession w !! c).
  { intros c Hc. cbn. apply lookup_delete_ne. intros ->. done. }
  destruct (IH w1 Hnd) as (Hres & Hheap & Hin & Hout & Hgone & Hkept).
  { intros c Hc. rewrite (Hsame c Hc). apply Hbound. by right. }
  unfold result_of, world_after in *.
  split; [done|]. split; [done|].
  split; [|split; [|split]].
  - intros c Hc. apply elem_of_cons in Hc as [-> | Hc]; [|by apply Hin].
    rewrite (Hout c0 Hc0). cbn. apply lookup_delete_eq.
  - intros c Hc. apply not_elem_of_cons in Hc as [Hne Hc].
    rewrite (Hout c Hc). cbn. by apply lookup_delete_ne.
  - intros c sid Hc Hsid. apply elem_of_cons in Hc as [-> | Hc].
    + assert (sid = sid0) as -> by congruence.
      destruct (decide (Exists (fun c' => connectionToSession w1 !! c'
                                          = Some sid0) cs)) as [Hex | Hnex].
      * apply Exists_exists in Hex as (c' & Hc' & Hb'). by apply (Hgone c').
      * rewrite Hkept; [cbn; apply lookup_delete_eq|].
        intros c' Hc' Hb'. apply Hnex, Exists_exists. eauto.
    + apply (Hgone c); [done|]. by rewrite (Hsame c Hc).
  - intros sid Hnone. rewrite Hkept.
    + cbn. apply lookup_delete_ne. intros <-. apply (Hnone c0); [left|done].
    + intros c Hc. rewrite (Hsame c Hc). apply Hnone. by right.
Qed.

Lemma elem_of_staleConnections w now c :
  c ∈ staleConnections w now <->
  exists sid, connectionToSession w !! c = Some sid
              /\ is_stale w now sid = true.
Proof.
  unfold staleConnections. rewrite list_elem_of_fmap. split.
  - intros ([c' sid] & -> & Hin). apply list_elem_of_filter in Hin as [Hst Hin].
    apply elem_of_map_to_list in Hin. exists sid. done.
  - intros (sid & Hc & Hst). exists (c, sid). split; [done|].
    apply list_elem_of_filter. split; [done|]. by apply elem_of_map_to_list.
Qed.

Lemma NoDup_staleConnections w now : NoDup (staleConnections w now).
Proof.
  unfold staleConnections.
  eapply sublist_NoDup; [apply (NoDup_fst_map_to_list (connectionToSession w))|].
  apply fmap_sublist, sublist_filter.
Qed.

Lemma is_stale_spec w now sid r row :
  sessions w !! sid = Some r -> heap w !! r = Some row ->
  is_stale w now sid = true <-> now - last_activity row > sessionTimeout.
Proof.
  intros Hr Hrow. unfold is_stale, deref. rewrite Hr, Hrow. cbn.
  apply bool_decide_eq_true.
Qed.

(** C6, as the code has it.  On a store that satisfies the invariant,
    [cleanupStale] reclaims a session exactly when [now - last_activity]
    exceeds the session timeout, which is 30 minutes (1 800 000 ms); a
    reclaimed session loses its row and its connection binding, and a
    session that is not stale keeps its id, its row object, the row's
    content and its binding. *)
Theorem cleanupStale_reclaims (w : World) (sid : jsstring) (r : ref)
    (row : SessionContext) (Hinv : store_invariant w)
    (Hsid : sessions w !! sid = Some r) (Hrow : heap w !! r = Some row) :
  let now := clock (ticks w) in
  let w' := world_after cleanupStale w in
  sessionTimeout = 1800000
  /\ result_of cleanupStale w = Returned tt
  /\ (sessions w' !! sid = None <-> now - last_activity row > 1800000)
  /\ (now - last_activity row > 1800000 ->
      forall c, connectionToSession w !! c = Some sid ->
                connectionToSession w' !! c = None)
  /\ (~ now - last_activity row > 1800000 ->
      sessions w' !! sid = Some r /\ heap w' !! r = Some row
      /\ forall c, connectionToSession w !! c = Some sid ->
                   connectionToSession w' !! c = Some sid).
Proof.
  intros now w'. split; [reflexivity|].
  change 1800000 with sessionTimeout.
  set (w0 := mkWorld (heap w) (sessions w) (connectionToSession w)
               (currentConnectionId w) (S (ticks w)) (draws w)).
  assert (Hrun : cleanupStale w = cleanup_each (staleConnections w0 now) w0)
    by reflexivity.
  destruct (cleanup_each_effect (staleConnections w0 now) w0)
    as (Hres & Hheap & Hin & Hout & Hgone & Hkept).
  { apply NoDup_staleConnections. }
  { intros c Hc. apply elem_of_staleConnections in Hc as (s & Hs & _).
    exists s. split; [done|]. by apply (binding_has_row w Hinv c s). }
  unfold result_of, world_after in *. subst w'. rewrite Hrun.
  split; [done|].
  assert (Hstale : is_stale w0 now sid = true
                   <-> now - last_activity row > sessionTimeout)
    by (by apply (is_stale_spec w0 now sid r row)).
  destruct (row_bound_exactly_once w Hinv sid) as (c0 & Hc0 & Huniq); [eauto|].
  assert (Hreclaimed : now - last_activity row > sessionTimeout ->
            sessions (cleanup_each (staleConnections w0 now) w0).2 !! sid
            = None).
  { intros Hgt. apply (Hgone c0); [|done].
    apply elem_of_staleConnections. exists sid. split; [done|].
    by apply Hstale. }
  assert (Hsurvives : ~ now - last_activity row > sessionTimeout ->
            forall c, connectionToSession w !! c = Some sid ->
                      c ∉ staleConnections w0 now).
  { intros Hle c Hc Hin'. apply elem_of_staleConnections in Hin'
      as (s & Hs & Hst). cbn in Hs. assert (s = sid) as -> by congruence.
    by apply Hle, Hstale. }
  split; [|split].
  - split; [|done].
    intros Hnone.
    destruct (decide (now - last_activity row > sessionTimeout)) as [|Hle];
      [done|].
    rewrite Hkept in Hnone; [cbn in Hnone; congruence|].
    intros c Hc Hb. apply elem_of_staleConnections in Hc as (s & Hs & Hst).
    cbn in Hs, Hb. assert (s = sid) as -> by congruence.
    by apply Hle, Hstale.
  - intros Hgt c Hc. apply Hin. apply elem_of_staleConnections.
    exists sid. split; [done|]. by apply Hstale.
  - intros Hle. split; [|split].
    + rewrite Hkept; [done|]. intros c Hc Hb.
      apply (Hsurvives Hle c); done.
    + by rewrite Hheap.
    + intros c Hc. rewrite Hout; [done|]. by apply Hsurvives.
Qed.

(** *** Repeated [getOrCreate] *)

Lemma with_last_activity_twice a b s :
  with_last_activity a (with_last_activity b s) = with_last_activity a s.
Proof. reflexivity. Qed.

Lemma getOrCreate_times_bound c k : forall w r s0,
  bound w c = Some r -> heap w !! r = Some s0 ->
  exists w',
    getOrCreate_times k c w = (Returned (seq (length (heap w)) k), w')
    /\ sessions w' = sessions w
    /\ connectionToSession w' = connectionToSession w
    /\ length (heap w') = (length (heap w) + k)%nat
    /\ (forall j, (j < length (heap w))%nat -> j <> r ->
          heap w' !! j = heap w !! j)
    /\ (forall i, (i < k)%nat ->
          heap w' !! (length (heap w) + i)%nat
          = Some (with_last_activity (clock (ticks w + i)%nat) s0)).
Proof.
  induction k as [|k IH]; intros w r s0 Hb Hs0.
  { exists w. cbn. repeat split; try done; intros; lia. }
  assert (Hr : (r < length (heap w))%nat) by (by eapply lookup_lt_Some).
  set (s1 := with_last_activity (clock (ticks w)) s0).
  set (w1 := mkWorld (<[r := s1]> (heap w) ++ [s1]) (sessions w)
               (connectionToSession w) (currentConnectionId w)
               (S (ticks w)) (draws w)).
  assert (Hstep : getOrCreate c w = (Returned (length (heap w)), w1)).
  { rewrite (getOrCreate_bound c w r Hb). cbn zeta. unfold deref.
    rewrite Hs0. cbn [default]. rewrite list_lookup_insert_eq by done.
    reflexivity. }
  assert (Hlen1 : length (heap w1) = S (length (heap w))).
  { cbn. rewrite length_app, length_insert. cbn. lia. }
  destruct (IH w1 r s1) as (w' & Hrun & Hs & Hc & Hlen & Hold & Hnew).
  { done. }
  { cbn. rewrite lookup_app_l by (rewrite length_insert; lia).
    by apply list_lookup_insert_eq. }
  exists w'. split; [|split; [|split; [|split; [|split]]]].
  - cbn [getOrCreate_times]. unfold bind at 1. rewrite Hstep.
    unfold bind. rewrite Hrun. rewrite Hlen1. reflexivity.
  - by rewrite Hs.
  - by rewrite Hc.
  - rewrite Hlen, Hlen1. lia.
  - intros j Hj Hjr. rewrite Hold by (rewrite ?Hlen1; lia || done).
    cbn. rewrite lookup_app_l by (rewrite length_insert; lia).
    by apply list_lookup_insert_ne.
  - intros i Hi. destruct i as [|i].
    + rewrite Nat.add_0_r. rewrite Hold by (rewrite ?Hlen1; lia).
      cbn. rewrite lookup_app_r by (rewrite length_insert; lia).
      rewrite length_insert, Nat.sub_diag. cbn. unfold s1.
      by rewrite Nat.add_0_r.
    + replace (length (heap w) + S i)%nat with (length (heap w1) + i)%nat
        by (rewrite Hlen1; lia).
      rewrite Hnew by lia. unfold s1. rewrite with_last_activity_twice.
      cbn [ticks w1]. do 3 f_equal. lia.
Qed.

(** C5, as the code has it.  For a connection without a binding and an
    unused minted id, [N >= 1] calls of [getOrCreate] in a row return [N]
    distinct objects, none of them the stored row; they agree on every
    field except [last_activity], which is the clock reading of the
    respective call; and the calls add exactly one session row and one
    connection binding. *)
Theorem getOrCreate_repeated (c : jsstring) (n : nat) (w : World)
    (Hn : (1 <= n)%nat)
    (Hunbound : connectionToSession w !! c = None)
    (Hfresh : sessions w !! minted_session_id w = None) :
  exists copies row,
    result_of (getOrCreate_times n c) w = Returned copies
    /\ let w' := world_after (getOrCreate_times n c) w in
       length copies = n /\ NoDup copies /\ (row ∉ copies)
       /\ sessions w' = <[minted_session_id w := row]> (sessions w)
       /\ connectionToSession w'
          = <[c := minted_session_id w]> (connectionToSession w)
       /\ size (sessions w') = S (size (sessions w))
       /\ size (connectionToSession w') = S (size (connectionToSession w))
       /\ forall i copy, copies !! i = Some copy ->
            heap w' !! copy
            = Some {| session_id := minted_session_id w; user_id := None;
                      lang := LangAuto; budget_tokens := Finite 0;
                      tenant := None;
                      created_at := clock (S (ticks w));
                      last_activity := clock (ticks w + 2 + i)%nat |}.
Proof.
  destruct n as [|k]; [lia|].
  assert (Hb : bound w c = None) by (unfold bound; by rewrite Hunbound).
  set (sid := minted_session_id w).
  set (s := mkSessionContext sid None LangAuto (Finite 0) None
              (clock (S (ticks w))) (clock (S (S (ticks w))))).
  set (L := length (heap w)).
  set (w1 := mkWorld (heap w ++ [s; s]) (<[sid := L]> (sessions w))
               (<[c := sid]> (connectionToSession w))
               (currentConnectionId w) (S (S (S (ticks w)))) (S (draws w))).
  assert (Hstep : getOrCreate c w = (Returned (S L), w1))
    by (by rewrite (getOrCreate_unbound c w Hb)).
  assert (Hlen1 : length (heap w1) = S (S L)).
  { cbn. rewrite length_app. cbn. lia. }
  destruct (getOrCreate_times_bound c k w1 L s)
    as (w' & Hrun & Hs & Hc & Hlen & Hold & Hnew).
  { apply bound_Some. exists sid. cbn. rewrite !lookup_insert_eq.
    split; [done|]. split; [apply session_id_of_nonempty | done]. }
  { cbn. rewrite lookup_app_r by lia. by rewrite Nat.sub_diag. }
  exists (seq (S L) (S k)), L.
  assert (Hall : getOrCreate_times (S k) c w
                 = (Returned (seq (S L) (S k)), w')).
  { cbn [getOrCreate_times]. unfold bind at 1. rewrite Hstep.
    unfold bind. rewrite Hrun, Hlen1. reflexivity. }
  unfold result_of, world_after. rewrite Hall. cbn [fst snd].
  split; [done|]. cbv zeta.
  split; [by rewrite length_seq|].
  split; [apply NoDup_seq|].
  split; [rewrite elem_of_seq; lia|].
  split; [by rewrite Hs|]. split; [by rewrite Hc|].
  split; [rewrite Hs; cbn; by apply map_size_insert_None|].
  split; [rewrite Hc; cbn; by apply map_size_insert_None|].
  intros i copy Hi. apply lookup_seq in Hi as [-> Hi].
  destruct i as [|i].
  - rewrite Nat.add_0_r. rewrite Hold by (rewrite ?Hlen1; lia).
    cbn. rewrite lookup_app_r by lia.
    replace (S L - length (heap w))%nat with 1%nat by lia. cbn.
    do 2 f_equal. f_equal. lia.
  - replace (S L + S i)%nat with (length (heap w1) + i)%nat
      by (rewrite Hlen1; lia).
    rewrite Hnew by lia. cbn. unfold with_last_activity. cbn.
    do 2 f_equal. f_equal. lia.
Qed.

End StoreFacts.



Lemma getOrCreate_repeated_witness :
  (1 <= 3)%nat
  /\ connectionToSession empty_world !! conn_a = None
  /\ sessions empty_world !! @minted_session_id sample_host empty_world = None
  /\ exists copies row,
       result_of (@getOrCreate_times sample_host 3 conn_a) empty_world
       = Returned copies
       /\ length copies = 3%nat /\ NoDup copies /\ (row ∉ copies).
Proof.
  split; [lia|]. split; [reflexivity|]. split; [reflexivity|].
  destruct (@getOrCreate_repeated sample_host conn_a 3 empty_world)
    as (copies & row & Hres & Hlen & Hnd & Hrow & _);
    [lia | reflexivity | reflexivity |].
  exists copies, row. auto.
Defined.

(** C5 as stated fails: under a clock that advances, two calls in a row
    return copies that differ (in [last_activity]). *)
Lemma getOrCreate_copies_differ :
  result_of (@getOrCreate_times sample_host 2 conn_a) empty_world
  = Returned [1%nat; 2%nat]
  /\ ~ (forall i j ci cj,
         [1%nat; 2%nat] !! i = Some ci -> [1%nat; 2%nat] !! j = Some cj ->
         heap (world_after (@getOrCreate_times sample_host 2 conn_a)
                 empty_world) !! ci
         = heap (world_after (@getOrCreate_times sample_host 2 conn_a)
                   empty_world) !! cj).
Proof.
  split; [vm_compute; reflexivity|].
  intros Hall. specialize (Hall 0%nat 1%nat 1%nat 2%nat eq_refl eq_refl).
  vm_compute in Hall. discriminate Hall.
Qed.

Lemma cleanupStale_reclaims_witness :
  store_invariant late_store
  /\ sessions late_store !! late_session_id = Some 0%nat
  /\ heap late_store !! 0%nat = Some late_row
  /\ (sessions (world_after (@SessionManager.cleanupStale late_host) late_store)
        !! late_session_id = None
      <-> @clock late_host (ticks late_store) - last_activity late_row
          > 1800000).
Proof.
  assert (Hinv : store_invariant late_store).
  { apply (invariant_run (H := late_host));
      [apply invariant_empty_world | vm_compute; reflexivity]. }
  assert (Hsid : sessions late_store !! late_session_id = Some 0%nat)
    by (vm_compute; reflexivity).
  assert (Hrow : heap late_store !! 0%nat = Some late_row)
    by (vm_compute; reflexivity).
  split; [done|]. split; [done|]. split; [done|].
  apply (@cleanupStale_reclaims late_host late_store late_session_id 0%nat
           late_row Hinv Hsid Hrow).
Defined.

(** C6 as stated fails: a session idle for one hour is reclaimed although
    one hour does not exceed 7 days (604 800 000 ms). *)
Lemma cleanupStale_not_seven_days :
  ~ (sessions (world_after (@SessionManager.cleanupStale late_host) late_store)
       !! late_session_id = None
     <-> @clock late_host (ticks late_store) - last_activity late_row
         > 7 * 24 * 60 * 60 * 1000).
Proof.
  intros [Hthen _].
  assert (Hgone : sessions (world_after (@SessionManager.cleanupStale late_host)
                              late_store) !! late_session_id = None)
    by (vm_compute; reflexivity).
  specialize (Hthen Hgone). vm_compute in Hthen. discriminate Hthen.
Qed.

(** ** The envelope glue of eyes.ts *)

Section EyesFacts.
Context `{Host}.
Import Eyes.

Ltac lit_neq :=
  let Heq := fresh in intros Heq; vm_compute in Heq; discriminate Heq.

Lemma reserved_keys key :
  key ∈ RESERVED_WRAPPER_KEYS <->
  key = lit "signal" \/ key = lit "_meta" \/ key = lit "requestId"
  \/ key = lit "progressToken" \/ key = lit "arguments".
Proof.
  unfold RESERVED_WRAPPER_KEYS.
  rewrite !elem_of_union, !elem_of_singleton. tauto.
Qed.

Lemma extractEnvelope_lookup raw key :
  extractEnvelope raw !! key
  = if bool_decide (key ∈ RESERVED_WRAPPER_KEYS) then None
    else unwrap_arguments raw !! key.
Proof.
  unfold extractEnvelope. cbv zeta. generalize (unwrap_arguments raw).
  intros m. revert key.
  apply (map_fold_weak_ind
           (fun r m => forall key,
              r !! key = if bool_decide (key ∈ RESERVED_WRAPPER_KEYS)
                         then None else m !! key)).
  - intros key. rewrite !lookup_empty. by case_bool_decide.
  - intros i x m' r Hi IH key.
    destruct (bool_decide_reflect (i ∈ RESERVED_WRAPPER_KEYS)) as [Hres | Hres].
    + rewrite IH. case_bool_decide as Hkey; [done|].
      rewrite lookup_insert_ne; [done|]. intros ->. done.
    + rewrite !lookup_insert. case_decide as Hik.
      * subst. by rewrite bool_decide_eq_false_2.
      * apply IH.
Qed.

Lemma unwrap_arguments_cases raw :
  unwrap_arguments raw
  = match raw !! lit "arguments" with
    | Some (VObject props) => props
    | Some (VArray items) => Object_entries (VArray items)
    | _ => raw
    end.
Proof.
  unfold unwrap_arguments.
  destruct (raw !! lit "arguments") as [[]|]; reflexivity.
Qed.

(** *** The connection id *)

Lemma connection_id_of_nonempty t rnd : connection_id_of t rnd <> [].
Proof. discriminate. Qed.

Lemma getConnectionId_known w c :
  currentConnectionId w = Some c -> c <> [] ->
  getConnectionId w = (Returned c, w).
Proof.
  intros Hc Hne. unfold getConnectionId. rewrite Hc. by destruct c.
Qed.

Lemma getConnectionId_spec w :
  exists c w0,
    getConnectionId w = (Returned c, w0)
    /\ c <> [] /\ currentConnectionId w0 = Some c
    /\ heap w0 = heap w /\ sessions w0 = sessions w
    /\ connectionToSession w0 = connectionToSession w.
Proof.
  unfold getConnectionId.
  destruct (currentConnectionId w) as [[|a c]|] eqn:Hcur.
  - eexists _, _. split; [reflexivity|]. cbn.
    split; [apply connection_id_of_nonempty|]. done.
  - exists (a :: c), w. done.
  - eexists _, _. split; [reflexivity|]. cbn.
    split; [apply connection_id_of_nonempty|]. done.
Qed.

(** *** The base context *)

Lemma fields_after_touch h r t :
  session_fields (deref (<[r := with_last_activity t (deref h r)]> h) r)
  = session_fields (deref h r).
Proof.
  destruct (decide (r < length h)%nat) as [Hlt | Hge].
  - unfold deref at 1. by rewrite list_lookup_insert_eq.
  - by rewrite list_insert_ge by lia.
Qed.

Lemma getOrCreate_context c w :
  exists copy w2 r,
    SessionManager.getOrCreate c w = (Returned copy, w2)
    /\ session_fields (deref (heap w2) copy) = bound_context w c
    /\ SessionManager.bound w2 c = Some r
    /\ currentConnectionId w2 = currentConnectionId w.
Proof.
  destruct (SessionManager.bound w c) as [r|] eqn:Hb.
  - rewrite (getOrCreate_bound c w r Hb). eexists _, _, r.
    split; [reflexivity|]. cbn. split; [|done].
    unfold bound_context. rewrite Hb. unfold deref at 1.
    rewrite lookup_app_r by (by rewrite length_insert).
    rewrite length_insert, Nat.sub_diag. cbn. apply fields_after_touch.
  - rewrite (getOrCreate_unbound c w Hb). eexists _, _, (length (heap w)).
    split; [reflexivity|]. cbn. split; [|split; [|done]].
    + unfold bound_context. rewrite Hb. unfold deref.
      rewrite lookup_app_r by lia.
      replace (S (length (heap w)) - length (heap w))%nat with 1%nat by lia.
      reflexivity.
    + apply bound_Some. exists (minted_session_id w). cbn.
      rewrite !lookup_insert_eq.
      split; [done|]. split; [apply session_id_of_nonempty | done].
Qed.

Lemma ensureContext_spec w :
  exists c w0 w2 r,
    getConnectionId w = (Returned c, w0)
    /\ ensureContext w = (Returned (bound_context w0 c), w2)
    /\ currentConnectionId w2 = Some c /\ c <> []
    /\ SessionManager.bound w2 c = Some r.
Proof.
  destruct (getConnectionId_spec w) as (c & w0 & Hc & Hne & Hcur & _).
  destruct (getOrCreate_context c w0) as (copy & w2 & r & Hg & Hf & Hb & Hcur2).
  exists c, w0, w2, r. split; [done|].
  split; [|split; [congruence | done]].
  unfold ensureContext, bind. rewrite Hc, Hg. cbn. by rewrite <- Hf.
Qed.

(** *** Coalescing the submitted context *)

Lemma coalesce_session_id_base raw st :
  base (coalesce_session_id raw st)
  = mkContext
      (match get_prop raw (lit "session_id") with
       | VString s =>
           if decide (trim s = []) then c_session_id (base st) else trim s
       | _ => c_session_id (base st)
       end)
      (c_user_id (base st)) (c_lang (base st)) (c_budget_tokens (base st))
      (c_tenant (base st)).
Proof.
  unfold coalesce_session_id.
  destruct (get_prop raw (lit "session_id")) as [| |b|n|s|items|props|];
    try (by destruct (base st)).
  destruct (trim s); cbn; by destruct (base st).
Qed.

Lemma coalesce_user_id_base raw st :
  base (coalesce_user_id raw st)
  = mkContext (c_session_id (base st))
      (match get_prop raw (lit "user_id") with
       | VString s =>
           if decide (trim s = []) then c_user_id (base st)
           else Some (trim s)
       | VNull => None
       | _ => c_user_id (base st)
       end)
      (c_lang (base st)) (c_budget_tokens (base st)) (c_tenant (base st)).
Proof.
  unfold coalesce_user_id, set_user_id.
  destruct (get_prop raw (lit "user_id")) as [| |b|n|s|items|props|];
    try destruct (trim s); cbn; by destruct (base st).
Qed.

Lemma coalesce_lang_base raw st :
  base (coalesce_lang raw st)
  = mkContext (c_session_id (base st)) (c_user_id (base st))
      (match get_prop raw (lit "lang") with
       | VString s =>
           if decide (s = lit "en") then LangEn
           else if decide (s = lit "ar") then LangAr
           else if decide (s = lit "auto") then LangAuto
           else c_lang (base st)
       | _ => c_lang (base st)
       end)
      (c_budget_tokens (base st)) (c_tenant (base st)).
Proof.
  unfold coalesce_lang, string_lang.
  destruct (get_prop raw (lit "lang")) as [| |b|n|s|items|props|];
    try (by destruct (base st)).
  repeat (case_bool_decide; case_decide; try done; try (by destruct (base st))).
Qed.

Lemma coalesce_budget_tokens_base raw st :
  base (coalesce_budget_tokens raw st)
  = mkContext (c_session_id (base st)) (c_user_id (base st)) (c_lang (base st))
      (match ToNumber (get_prop raw (lit "budget_tokens")) with
       | Finite q =>
           if Qle_bool 0 q then Finite q else c_budget_tokens (base st)
       | _ => c_budget_tokens (base st)
       end)
      (c_tenant (base st)).
Proof.
  unfold coalesce_budget_tokens.
  destruct (ToNumber (get_prop raw (lit "budget_tokens"))) as [|neg|q]; cbn;
    try (by destruct (base st)).
  destruct (Qle_bool 0 q); by destruct (base st).
Qed.

Lemma coalesce_tenant_base raw st :
  base (coalesce_tenant raw st)
  = mkContext (c_session_id (base st)) (c_user_id (base st)) (c_lang (base st))
      (c_budget_tokens (base st))
      (match get_prop raw (lit "tenant") with
       | VString s =>
           if decide (trim s = []) then c_tenant (base st) else Some (trim s)
       | VNull => None
       | _ => c_tenant (base st)
       end).
Proof.
  unfold coalesce_tenant, set_tenant.
  destruct (get_prop raw (lit "tenant")) as [| |b|n|s|items|props|];
    try destruct (trim s); cbn; by destruct (base st).
Qed.

(** The context that [coalesceContext] builds from the bound context [b]
    and the fields of a submitted object. *)
Lemma coalesce_fields_base raw st :
  base (coalesce_fields raw st)
  = mkContext
      (match get_prop raw (lit "session_id") with
       | VString s =>
           if decide (trim s = []) then c_session_id (base st) else trim s
       | _ => c_session_id (base st)
       end)
      (match get_prop raw (lit "user_id") with
       | VString s =>
           if decide (trim s = []) then c_user_id (base st)
           else Some (trim s)
       | VNull => None
       | _ => c_user_id (base st)
       end)
      (match get_prop raw (lit "lang") with
       | VString s =>
           if decide (s = lit "en") then LangEn
           else if decide (s = lit "ar") then LangAr
           else if decide (s = lit "auto") then LangAuto
           else c_lang (base st)
       | _ => c_lang (base st)
       end)
      (match ToNumber (get_prop raw (lit "budget_tokens")) with
       | Finite q =>
           if Qle_bool 0 q then Finite q else c_budget_tokens (base st)
       | _ => c_budget_tokens (base st)
       end)
      (match get_prop raw (lit "tenant") with
       | VString s =>
           if decide (trim s = []) then c_tenant (base st) else Some (trim s)
       | VNull => None
       | _ => c_tenant (base st)
       end).
Proof.
  unfold coalesce_fields.
  rewrite coalesce_tenant_base, coalesce_budget_tokens_base,
    coalesce_lang_base, coalesce_user_id_base, coalesce_session_id_base.
  reflexivity.
Qed.

Lemma coalesceContext_returns input w :
  exists c w0 w3,
    getConnectionId w = (Returned c, w0)
    /\ coalesceContext input w
       = (Returned
            (if truthy input && typeof_object input
             then base (coalesce_fields input
                          (mkCoalesce (bound_context w0 c) no_updates false))
             else bound_context w0 c), w3).
Proof.
  destruct (ensureContext_spec w) as (c & w0 & w2 & r & Hc & He & Hcur & Hne & Hb).
  exists c, w0. unfold coalesceContext, bind. rewrite He.
  destruct (truthy input && typeof_object input) eqn:Hobj.
  - apply andb_true_iff in Hobj as [-> ->]. cbn [negb orb].
    destruct (hasUpdates _).
    + rewrite (getConnectionId_known w2 c Hcur Hne).
      rewrite (update_bound c _ w2 r Hb). eexists. split; [done|reflexivity].
    + eexists. split; [done|reflexivity].
  - replace (negb (truthy input) || negb (typeof_object input)) with true.
    + eexists. split; [done|reflexivity].
    + destruct (truthy input), (typeof_object input); done.
Qed.

(** What [coalesceContext] returns, field by field.  For an input that
    is not an object (absent, null, a primitive) and for an array it is
    the context reconstructed from the connection binding; for an object
    each field is taken from the input when it is well-formed there and
    from the binding otherwise. *)
Lemma coalesceContext_fields (input : value) (w : World) :
  exists c w0 ctx,
    getConnectionId w = (Returned c, w0)
    /\ result_of (coalesceContext input) w = Returned ctx
    /\ let b := bound_context w0 c in
       match input with
       | VObject props =>
           c_session_id ctx
           = match props !! lit "session_id" with
             | Some (VString s) =>
                 if decide (trim s = []) then c_session_id b else trim s
             | _ => c_session_id b
             end
           /\ c_user_id ctx
              = match props !! lit "user_id" with
                | Some (VString s) =>
                    if decide (trim s = []) then c_user_id b
                    else Some (trim s)
                | Some VNull => None
                | _ => c_user_id b
                end
           /\ c_lang ctx
              = match props !! lit "lang" with
                | Some (VString s) =>
                    if decide (s = lit "en") then LangEn
                    else if decide (s = lit "ar") then LangAr
                    else if decide (s = lit "auto") then LangAuto
                    else c_lang b
                | _ => c_lang b
                end
           /\ c_budget_tokens ctx
              = match ToNumber (default VUndefined
                                  (props !! lit "budget_tokens")) with
                | Finite q =>
                    if Qle_bool 0 q then Finite q else c_budget_tokens b
                | _ => c_budget_tokens b
                end
           /\ c_tenant ctx
              = match props !! lit "tenant" with
                | Some (VString s) =>
                    if decide (trim s = []) then c_tenant b
                    else Some (trim s)
                | Some VNull => None
                | _ => c_tenant b
                end
       | _ => ctx = b
       end.
Proof.
  destruct (coalesceContext_returns input w) as (c & w0 & w3 & Hc & Hrun).
  exists c, w0. eexists. split; [done|].
  unfold result_of. rewrite Hrun. cbn [fst]. split; [reflexivity|].
  cbv zeta.
  destruct input as [| |b|n|s|items|props|]; try reflexivity.
  - by destruct b.
  - destruct n as [| |q]; try reflexivity. cbn. by destruct (Qeq_bool q 0).
  - by destruct s.
  - cbn [truthy typeof_object andb]. rewrite coalesce_fields_base.
    cbn [c_session_id c_user_id c_lang c_budget_tokens c_tenant base get_prop].
    repeat split.
    + by destruct (props !! lit "session_id") as [[]|].
    + by destruct (props !! lit "user_id") as [[]|].
    + by destruct (props !! lit "lang") as [[]|].
    + by destruct (props !! lit "tenant") as [[]|].
Qed.

(** *** The request body *)

Lemma context_ne_payload : lit "context" <> lit "payload".
Proof. lit_neq. Qed.

Lemma context_ne_reasoning_md : lit "context" <> lit "reasoning_md".
Proof. lit_neq. Qed.

Lemma payload_ne_reasoning_md : lit "payload" <> lit "reasoning_md".
Proof. lit_neq. Qed.

Lemma extractEnvelope_kept raw key :
  key ∉ RESERVED_WRAPPER_KEYS ->
  extractEnvelope raw !! key = unwrap_arguments raw !! key.
Proof.
  intros Hkey. rewrite extractEnvelope_lookup.
  by rewrite bool_decide_eq_false_2.
Qed.

Ltac not_reserved :=
  rewrite reserved_keys;
  let Heq := fresh in
  intros [Heq | [Heq | [Heq | [Heq | Heq]]]];
  vm_compute in Heq; discriminate Heq.

Lemma not_reserved_payload : lit "payload" ∉ RESERVED_WRAPPER_KEYS.
Proof. not_reserved. Qed.

Lemma not_reserved_reasoning_md : lit "reasoning_md" ∉ RESERVED_WRAPPER_KEYS.
Proof. not_reserved. Qed.

Lemma not_reserved_context : lit "context" ∉ RESERVED_WRAPPER_KEYS.
Proof. not_reserved. Qed.

(** The request body: its [context] is what [coalesceContext] returns
    for the [context] of the extracted envelope, run after the trace id
    has been generated. *)
Lemma callEye_finalPayload_sends path body w :
  exists ctx w',
    coalesceContext (default VUndefined (extractEnvelope body !! lit "context"))
      (world_after generateTraceId w)
    = (Returned ctx, w')
    /\ callEye_finalPayload path body w
       = (Returned
            (<[lit "context" := context_value ctx]>
               (<[lit "payload" :=
                    match unwrap_arguments body !! lit "payload" with
                    | Some (VObject props) => VObject props
                    | Some (VArray items) => VArray items
                    | _ => VObject ∅
                    end]>
                  (<[lit "reasoning_md" :=
                       or_else
                         (default VUndefined
                            (unwrap_arguments body !! lit "reasoning_md"))
                         VNull]> ∅))), w').
Proof.
  assert (Htrace : exists traceId,
            generateTraceId w = (Returned traceId, world_after generateTraceId w))
    by (eexists; reflexivity).
  destruct Htrace as [traceId Htrace].
  set (w1 := world_after generateTraceId w) in *.
  destruct (coalesceContext_returns
              (default VUndefined (extractEnvelope body !! lit "context")) w1)
    as (c & w0 & w3 & _ & Hrun).
  eexists _, w3. split; [exact Hrun|].
  unfold callEye_finalPayload, bind. rewrite Htrace, Hrun. unfold ret.
  assert (Hp : extractEnvelope body !! lit "payload"
               = unwrap_arguments body !! lit "payload").
  { apply extractEnvelope_kept, not_reserved_payload. }
  assert (Hr : extractEnvelope body !! lit "reasoning_md"
               = unwrap_arguments body !! lit "reasoning_md").
  { apply extractEnvelope_kept, not_reserved_reasoning_md. }
  set (cv := context_value _).
  set (e1 := <[lit "context" := cv]> (extractEnvelope body)).
  assert (Hp1 : e1 !! lit "payload" = unwrap_arguments body !! lit "payload").
  { unfold e1. rewrite lookup_insert_ne by apply context_ne_payload. done. }
  assert (Hr1 : e1 !! lit "reasoning_md"
                = unwrap_arguments body !! lit "reasoning_md").
  { unfold e1. rewrite lookup_insert_ne by apply context_ne_reasoning_md.
    done. }
  assert (Hc1 : e1 !! lit "context" = Some cv)
    by (unfold e1; apply lookup_insert_eq).
  rewrite Hp1.
  set (cond := negb (truthy _) || negb (typeof_object _)).
  assert (Hc2 : (if cond then <[lit "payload" := VObject ∅]> e1 else e1)
                !! lit "context" = Some cv).
  { destruct cond; [|done].
    rewrite lookup_insert_ne by (apply not_eq_sym, context_ne_payload). done. }
  assert (Hr2 : (if cond then <[lit "payload" := VObject ∅]> e1 else e1)
                !! lit "reasoning_md"
                = unwrap_arguments body !! lit "reasoning_md").
  { destruct cond; [|done].
    rewrite lookup_insert_ne by apply payload_ne_reasoning_md. done. }
  assert (Hp2 : default VUndefined
                  ((if cond then <[lit "payload" := VObject ∅]> e1 else e1)
                   !! lit "payload")
                = match unwrap_arguments body !! lit "payload" with
                  | Some (VObject props) => VObject props
                  | Some (VArray items) => VArray items
                  | _ => VObject ∅
                  end).
  { subst cond.
    destruct (unwrap_arguments body !! lit "payload")
      as [[| |b|n|s|items|props|]|] eqn:Hpayload;
      cbn [default from_option id truthy typeof_object negb orb];
      rewrite ?orb_true_r; rewrite ?lookup_insert_eq, ?Hp1; done. }
  rewrite Hc2, Hr2, Hp2. reflexivity.
Qed.

Lemma callEye_finalPayload_spec path body w :
  exists ctx w',
    callEye_finalPayload path body w
    = (Returned
         (<[lit "context" := context_value ctx]>
            (<[lit "payload" :=
                 match unwrap_arguments body !! lit "payload" with
                 | Some (VObject props) => VObject props
                 | Some (VArray items) => VArray items
                 | _ => VObject ∅
                 end]>
               (<[lit "reasoning_md" :=
                    or_else
                      (default VUndefined
                         (unwrap_arguments body !! lit "reasoning_md"))
                      VNull]> ∅))), w').
Proof.
  destruct (callEye_finalPayload_sends path body w) as (ctx & w' & _ & Hrun).
  by exists ctx, w'.
Qed.




End EyesFacts.



(** ** The input schema *)

Section SchemaFacts.
Import Schema.

Lemma valid_Forall s v :
  valid s v = true <-> Forall (fun kw => check (declared_properties s) kw v = true) s.
Proof.
  unfold valid. rewrite forallb_forall, Forall_forall.
  split; intros Hall kw Hkw; apply Hall; by apply list_elem_of_In.
Qed.

Lemma check_type D ts v :
  check D (type ts) v = true <-> exists t, t ∈ ts /\ has_type t v = true.
Proof.
  cbn [check]. rewrite existsb_exists.
  split; intros (t & Ht & Hv); exists t; split; try done; by apply list_elem_of_In.
Qed.

Lemma check_properties D ps m :
  check D (properties ps) (VObject m) = true
  <-> forall key s x, (key, s) ∈ ps -> m !! key = Some x -> valid s x = true.
Proof.
  cbn [check]. rewrite forallb_forall. split.
  - intros Hall key s x Hin Hx. apply list_elem_of_In in Hin.
    specialize (Hall _ Hin). cbn in Hall. by rewrite Hx in Hall.
  - intros Hall [key s] Hin. apply list_elem_of_In in Hin. cbn.
    destruct (m !! key) as [x|] eqn:Hx; [|done]. by apply (Hall key s x).
Qed.

Lemma check_required D keys m :
  check D (required keys) (VObject m) = true
  <-> forall key, key ∈ keys -> is_Some (m !! key).
Proof.
  cbn [check]. rewrite forallb_forall. split.
  - intros Hall key Hin. apply list_elem_of_In in Hin.
    specialize (Hall _ Hin). by apply bool_decide_eq_true in Hall.
  - intros Hall key Hin. apply list_elem_of_In in Hin.
    by apply bool_decide_eq_true, Hall.
Qed.

Lemma check_no_additional D m :
  check D (additionalProperties false) (VObject m) = true
  <-> forall key, is_Some (m !! key) -> key ∈ D.
Proof.
  cbn [check orb]. rewrite forallb_forall. split.
  - intros Hall key [x Hx].
    assert (Hin : In key (map_to_list m).*1).
    { apply list_elem_of_In, list_elem_of_fmap. exists (key, x).
      split; [done|]. by apply elem_of_map_to_list. }
    specialize (Hall _ Hin). by apply bool_decide_eq_true in Hall.
  - intros Hall key Hin. apply list_elem_of_In, list_elem_of_fmap in Hin
      as ([k x] & -> & Hin). apply elem_of_map_to_list in Hin.
    apply bool_decide_eq_true, Hall. cbn. eauto.
Qed.

Lemma check_minProperties D n m :
  check D (minProperties n) (VObject m) = true <-> (n <= size m)%nat.
Proof. cbn [check]. apply bool_decide_eq_true. Qed.

Lemma check_minLength D n s :
  check D (minLength n) (VString s) = true <-> (n <= length s)%nat.
Proof. cbn [check]. apply bool_decide_eq_true. Qed.

Lemma check_enum D allowed v :
  check D (enum allowed) v = true <-> exists s, v = VString s /\ s ∈ allowed.
Proof.
  cbn [check]. destruct v; try (split; [done | by intros (? & ? & ?)]).
  rewrite bool_decide_eq_true. split; [eauto|]. by intros (? & [= <-] & ?).
Qed.

Lemma check_items D s xs :
  check D (items s) (VArray xs) = true <-> Forall (fun x => valid s x = true) xs.
Proof.
  cbn [check]. rewrite forallb_forall, Forall_forall.
  split; intros Hall x Hx; apply Hall; by apply list_elem_of_In.
Qed.

Lemma check_anyOf D alternatives v :
  check D (anyOf alternatives) v = true
  <-> exists s, s ∈ alternatives /\ valid s v = true.
Proof.
  cbn [check]. rewrite existsb_exists.
  split; intros (s & Hs & Hv); exists s; split; try done; by apply list_elem_of_In.
Qed.

Lemma valid_keyword s kw v :
  kw ∈ s -> valid s v = true -> check (declared_properties s) kw v = true.
Proof.
  intros Hin Hv. apply valid_Forall in Hv. rewrite Forall_forall in Hv.
  by apply Hv.
Qed.

Lemma valid_object s v :
  type [TObject] ∈ s -> valid s v = true -> exists m, v = VObject m.
Proof.
  intros Hin Hv. apply (valid_keyword _ _ _ Hin), check_type in Hv
    as (t & Ht & Hv).
  apply list_elem_of_singleton in Ht as ->. destruct v; try discriminate Hv.
  eauto.
Qed.

Lemma valid_string s v :
  type [TString] ∈ s -> valid s v = true -> exists x, v = VString x.
Proof.
  intros Hin Hv. apply (valid_keyword _ _ _ Hin), check_type in Hv
    as (t & Ht & Hv).
  apply list_elem_of_singleton in Ht as ->. destruct v; try discriminate Hv.
  eauto.
Qed.

Lemma valid_required s keys m key :
  required keys ∈ s -> key ∈ keys -> valid s (VObject m) = true ->
  is_Some (m !! key).
Proof.
  intros Hin Hkey Hv. apply (valid_keyword _ _ _ Hin) in Hv.
  by apply (proj1 (check_required _ keys m) Hv).
Qed.

Lemma valid_property s ps key sub m x :
  properties ps ∈ s -> (key, sub) ∈ ps -> m !! key = Some x ->
  valid s (VObject m) = true -> valid sub x = true.
Proof.
  intros Hin Hkey Hx Hv. apply (valid_keyword _ _ _ Hin) in Hv.
  by apply (proj1 (check_properties _ ps m) Hv key sub x).
Qed.

Ltac in_list := repeat first [ by left | right ].

Lemma intentSchema_elim x :
  valid intentSchema x = true ->
  exists s, x = VString s /\ (5 <= length s)%nat.
Proof.
  intros Hv. destruct (valid_string intentSchema x) as [s ->];
    [in_list | done |].
  exists s. split; [done|].
  apply (valid_keyword _ (minLength 5)) in Hv; [|in_list].
  by apply check_minLength in Hv.
Qed.

Lemma workSchema_elim x :
  valid workSchema x = true -> exists m, x = VObject m /\ (1 <= size m)%nat.
Proof.
  intros Hv. destruct (valid_object workSchema x) as [m ->];
    [in_list | done |].
  exists m. split; [done|].
  apply (valid_keyword _ (minProperties 1)) in Hv; [|in_list].
  by apply check_minProperties in Hv.
Qed.

Lemma contextInfoSchema_elim x :
  valid contextInfoSchema x = true ->
  exists m, x = VObject m /\ (1 <= size m)%nat.
Proof.
  intros Hv. destruct (valid_object contextInfoSchema x) as [m ->];
    [in_list | done |].
  exists m. split; [done|].
  apply (valid_keyword _ (minProperties 1)) in Hv; [|in_list].
  by apply check_minProperties in Hv.
Qed.

Lemma reasoning_elim x :
  valid [type [TString]; minLength 10] x = true ->
  exists s, x = VString s /\ (10 <= length s)%nat.
Proof.
  intros Hv.
  destruct (valid_string [type [TString]; minLength 10] x) as [s ->];
    [in_list | done |].
  exists s. split; [done|].
  apply (valid_keyword _ (minLength 10)) in Hv; [|in_list].
  by apply check_minLength in Hv.
Qed.

Lemma inputSchema_elim args :
  valid inputSchema args = true -> meets_thresholds args.
Proof.
  intros Hv. destruct (valid_object inputSchema args) as [props ->];
    [in_list | done |].
  destruct (valid_required inputSchema [lit "payload"; lit "reasoning_md"] props (lit "payload"))
    as [payload Hpayload]; [in_list | in_list | done |].
  destruct (valid_required inputSchema [lit "payload"; lit "reasoning_md"] props (lit "reasoning_md"))
    as [reasoning Hreasoning]; [in_list | in_list | done |].
  assert (Hp : valid payloadSchema payload = true).
  { eapply (valid_property inputSchema _ (lit "payload"));
      [in_list | in_list | done | done]. }
  assert (Hr : valid [type [TString]; minLength 10] reasoning = true).
  { eapply (valid_property inputSchema _ (lit "reasoning_md"));
      [in_list | in_list | done | done]. }
  destruct (valid_object payloadSchema payload) as [pp ->];
    [in_list | done |].
  destruct (valid_required payloadSchema [lit "intent"; lit "work"; lit "context_info"] pp (lit "intent"))
    as [intent Hintent]; [in_list | in_list | done |].
  destruct (valid_required payloadSchema [lit "intent"; lit "work"; lit "context_info"] pp (lit "work"))
    as [work Hwork]; [in_list | in_list | done |].
  destruct (valid_required payloadSchema [lit "intent"; lit "work"; lit "context_info"] pp (lit "context_info"))
    as [ci Hci]; [in_list | in_list | done |].
  assert (Hi : valid intentSchema intent = true).
  { eapply (valid_property payloadSchema _ (lit "intent"));
      [in_list | in_list | done | done]. }
  assert (Hw : valid workSchema work = true).
  { eapply (valid_property payloadSchema _ (lit "work"));
      [in_list | in_list | done | done]. }
  assert (Hc : valid contextInfoSchema ci = true).
  { eapply (valid_property payloadSchema _ (lit "context_info"));
      [in_list | in_list | done | done]. }
  apply intentSchema_elim in Hi as (s & -> & Hs).
  apply workSchema_elim in Hw as (mw & -> & Hmw).
  apply contextInfoSchema_elim in Hc as (mc & -> & Hmc).
  apply reasoning_elim in Hr as (r & -> & Hrlen).
  unfold meets_thresholds, get_prop.
  rewrite Hpayload, Hreasoning. cbn [default from_option id].
  rewrite Hintent, Hwork, Hci. cbn [default from_option id].
  split; [by exists s|]. split; [by exists mw|]. split; [by exists mc|].
  by exists r.
Qed.

Ltac each_keyword :=
  repeat first [ apply List.Forall_nil | apply List.Forall_cons ].

Ltac split_in H :=
  repeat (apply elem_of_cons in H as [H | H]);
  [.. | by apply elem_of_nil in H].

Lemma get_prop_VObject v key m :
  get_prop v key = VObject m ->
  exists props, v = VObject props /\ props !! key = Some (VObject m).
Proof.
  destruct v as [| |b|n|s|xs|props|]; cbn; try discriminate.
  destruct (props !! key) as [x|] eqn:Hx; cbn; [|discriminate].
  intros ->. by exists props.
Qed.

Lemma get_prop_VString v key s :
  get_prop v key = VString s ->
  exists props, v = VObject props /\ props !! key = Some (VString s).
Proof.
  destruct v as [| |b|n|s'|xs|props|]; cbn; try discriminate.
  destruct (props !! key) as [x|] eqn:Hx; cbn; [|discriminate].
  intros ->. by exists props.
Qed.

Lemma string_schema_intro s : valid [type [TString]] (VString s) = true.
Proof. reflexivity. Qed.

Lemma intentSchema_intro s :
  (5 <= length s)%nat -> Forall (fun c => is_line_terminator c = false) s ->
  valid intentSchema (VString s) = true.
Proof.
  intros Hlen Hline. apply valid_Forall. unfold intentSchema.
  each_keyword.
  - reflexivity.
  - by apply check_minLength.
  - cbn [check]. unfold re_5_or_more. apply andb_true_iff. split.
    + by apply bool_decide_eq_true.
    + apply forallb_forall. intros c Hc. apply list_elem_of_In in Hc.
      rewrite Forall_forall in Hline. by rewrite (Hline c Hc).
Qed.

Lemma workSchema_intro m :
  (1 <= size m)%nat ->
  Forall (field_ok is_string (VObject m))
    [lit "code"; lit "plan"; lit "draft"; lit "requirements"; lit "tests";
     lit "docs"] ->
  valid workSchema (VObject m) = true.
Proof.
  intros Hsize Hfields. apply valid_Forall. unfold workSchema.
  each_keyword.
  - reflexivity.
  - apply check_properties. intros key sub x Hin Hx.
    rewrite Forall_forall in Hfields.
    assert (Hkey : sub = [type [TString]] /\ is_string x).
    { split_in Hin; injection Hin as -> ->; (split; [done|]);
        match goal with
        | Hx : m !! ?k = Some x |- _ =>
            specialize (Hfields k ltac:(in_list)); cbn in Hfields;
            by rewrite Hx in Hfields
        end. }
    destruct Hkey as [-> [s ->]]. reflexivity.
  - by apply check_minProperties.
  - reflexivity.
Qed.

Lemma string_array_intro xs :
  Forall is_string xs -> valid [type [TArray]; items [type [TString]]] (VArray xs) = true.
Proof.
  intros Hxs. apply valid_Forall. each_keyword.
  - reflexivity.
  - apply check_items. eapply Forall_impl; [exact Hxs|].
    by intros x [s ->].
Qed.

Lemma security_level_intro x :
  is_security_level x ->
  valid [type [TString];
         enum [lit "low"; lit "medium"; lit "high"; lit "critical"]] x = true.
Proof.
  intros Hx. apply valid_Forall. each_keyword.
  - destruct Hx as [-> | [-> | [-> | ->]]]; reflexivity.
  - apply check_enum.
    destruct Hx as [-> | [-> | [-> | ->]]]; eexists; (split; [reflexivity|]);
      in_list.
Qed.

Lemma contextInfoSchema_intro m :
  (1 <= size m)%nat ->
  Forall (field_ok is_string (VObject m))
    [lit "project_type"; lit "language"; lit "target_audience";
     lit "performance_criteria"] ->
  field_ok is_string_array (VObject m) (lit "compliance_requirements") ->
  field_ok is_security_level (VObject m) (lit "security_level") ->
  valid contextInfoSchema (VObject m) = true.
Proof.
  intros Hsize Hfields Harray Hlevel. apply valid_Forall.
  unfold contextInfoSchema.
  each_keyword.
  - reflexivity.
  - apply check_properties. intros key sub x Hin Hx.
    rewrite Forall_forall in Hfields. cbn in Harray, Hlevel.
    split_in Hin; injection Hin as -> ->;
      try (match goal with
           | Hx : m !! ?k = Some x |- _ =>
               specialize (Hfields k ltac:(in_list)); cbn in Hfields;
               rewrite Hx in Hfields; destruct Hfields as [s ->];
               reflexivity
           end).
    + rewrite Hx in Harray. destruct Harray as (xs & -> & Hxs).
      by apply string_array_intro.
    + rewrite Hx in Hlevel. by apply security_level_intro.
  - by apply check_minProperties.
  - reflexivity.
Qed.

Lemma payloadSchema_intro pp s mw mc :
  pp !! lit "intent" = Some (VString s) ->
  pp !! lit "work" = Some (VObject mw) ->
  pp !! lit "context_info" = Some (VObject mc) ->
  valid intentSchema (VString s) = true ->
  valid workSchema (VObject mw) = true ->
  valid contextInfoSchema (VObject mc) = true ->
  only_keys [lit "intent"; lit "work"; lit "context_info"] (VObject pp) ->
  valid payloadSchema (VObject pp) = true.
Proof.
  intros Hi Hw Hc Hvi Hvw Hvc Hkeys. apply valid_Forall. unfold payloadSchema.
  each_keyword.
  - reflexivity.
  - apply check_properties. intros key sub x Hin Hx.
    split_in Hin; injection Hin as -> ->; congruence.
  - apply check_required. intros key Hin. split_in Hin; subst; eauto.
  - apply check_no_additional. exact Hkeys.
Qed.

Lemma inputSchema_intro args :
  meets_thresholds args -> single_line_intent args -> rest_well_formed args ->
  valid inputSchema args = true.
Proof.
  intros ((s & Hs & Hslen) & (mw & Hmw & Hwsize) & (mc & Hmc & Hcsize)
          & (r & Hr & Hrlen)) (s' & Hs' & Hline)
         (Hkeys & Hpkeys & Hctx & Hwork & Hinfo & Harray & Hlevel).
  rewrite Hmw in Hwork. rewrite Hmc in Hinfo, Harray, Hlevel.
  assert (s' = s) as -> by congruence.
  apply get_prop_VString in Hr as (props & -> & Hreasoning).
  apply get_prop_VString in Hs as (pp & Hpayload & Hintent).
  rewrite Hpayload in Hmw, Hmc, Hpkeys.
  apply get_prop_VObject in Hmw as (pp' & [= <-] & Hw).
  apply get_prop_VObject in Hmc as (pp' & [= <-] & Hc).
  apply get_prop_VObject in Hpayload as (props' & [= <-] & Hp).
  apply valid_Forall. unfold inputSchema.
  each_keyword.
  - reflexivity.
  - apply check_properties. intros key sub x Hin Hx.
    split_in Hin; injection Hin as -> ->.
    + cbn in Hctx. rewrite Hx in Hctx. apply valid_Forall.
      each_keyword. apply check_anyOf.
      destruct Hctx as [-> | Hvalid].
      * exists [type [TNull]]. split; [in_list | reflexivity].
      * exists contextSchema. split; [in_list | done].
    + assert (x = VObject pp) as -> by congruence.
      apply (payloadSchema_intro pp s mw mc); try done.
      * by apply intentSchema_intro.
      * by apply workSchema_intro.
      * by apply contextInfoSchema_intro.
    + assert (x = VString r) as -> by congruence.
      apply valid_Forall. each_keyword.
      * reflexivity.
      * by apply check_minLength.
  - apply check_required. intros key Hin. split_in Hin; subst; eauto.
  - apply check_no_additional. exact Hkeys.
Qed.

(** C1, as the code has it.  Every arguments object that the input schema
    accepts meets the four thresholds ([intent] of at least 5 characters,
    [work] and [context_info] objects with at least one entry,
    [reasoning_md] of at least 10 characters), so an object that misses
    one of them is rejected; and an object that meets the four thresholds
    is accepted when its [intent] is a single line and the rest of the
    schema holds (no keys besides the declared ones at the top level and
    in the payload, a [context] that is absent, null or a valid context,
    and declared [work] and [context_info] properties of their declared
    types). *)
Theorem inputSchema_strict (args : value) :
  (valid inputSchema args = true -> meets_thresholds args)
  /\ (meets_thresholds args -> single_line_intent args ->
      rest_well_formed args -> valid inputSchema args = true).
Proof. split; [apply inputSchema_elim | apply inputSchema_intro]. Qed.


End SchemaFacts.

Lemma submission_meets_thresholds (context_info : gmap jsstring value) :
  (1 <= size context_info)%nat ->
  meets_thresholds (VObject (submission_of context_info)).
Proof.
  intros Hsize. unfold meets_thresholds, get_prop.
  assert (Hp : submission_of context_info !! lit "payload"
               = Some (VObject (payload_of context_info)))
    by (vm_compute; reflexivity).
  assert (Hr : submission_of context_info !! lit "reasoning_md"
               = Some (VString sample_reasoning))
    by (vm_compute; reflexivity).
  assert (Hi : payload_of context_info !! lit "intent"
               = Some (VString sample_intent))
    by (vm_compute; reflexivity).
  assert (Hw : payload_of context_info !! lit "work"
               = Some (VObject sample_work))
    by (vm_compute; reflexivity).
  assert (Hc : payload_of context_info !! lit "context_info"
               = Some (VObject context_info))
    by (vm_compute; reflexivity).
  rewrite Hp, Hr. cbn [default from_option id]. rewrite Hi, Hw, Hc.
  cbn [default from_option id].
  split; [exists sample_intent; split; [done | vm_compute; lia]|].
  split; [exists sample_work; split; [done | vm_compute; lia]|].
  split; [by exists context_info|].
  exists sample_reasoning. split; [done | vm_compute; lia].
Qed.

(** C1 as stated fails: a submission that meets all four thresholds is
    rejected because its [security_level] is not one of "low", "medium",
    "high", "critical". *)
Lemma extreme_security_level_rejected :
  ~ (meets_thresholds extreme_submission ->
     Schema.valid Schema.inputSchema extreme_submission = true).
Proof.
  intros Hclaim.
  assert (Hvalid : Schema.valid Schema.inputSchema extreme_submission = true).
  { apply Hclaim, submission_meets_thresholds. vm_compute. lia. }
  vm_compute in Hvalid. discriminate Hvalid.
Qed.

Lemma inputSchema_strict_witness :
  meets_thresholds sample_submission
  /\ single_line_intent sample_submission
  /\ rest_well_formed sample_submission
  /\ Schema.valid Schema.inputSchema sample_submission = true.
Proof.
  assert (Hthresholds : meets_thresholds sample_submission).
  { apply submission_meets_thresholds. vm_compute. lia. }
  assert (Hline : single_line_intent sample_submission).
  { exists sample_intent. split; [vm_compute; reflexivity|].
    unfold sample_intent. vm_compute. repeat constructor. }
  assert (Hrest : rest_well_formed sample_submission).
  { unfold rest_well_formed. cbv zeta.
    assert (Hp : get_prop sample_submission (lit "payload")
                 = VObject (payload_of sample_context_info))
      by (vm_compute; reflexivity).
    rewrite Hp.
    assert (Hw : get_prop (VObject (payload_of sample_context_info))
                   (lit "work") = VObject sample_work)
      by (vm_compute; reflexivity).
    assert (Hc : get_prop (VObject (payload_of sample_context_info))
                   (lit "context_info") = VObject sample_context_info)
      by (vm_compute; reflexivity).
    rewrite Hw, Hc.
    split; [|split; [|split; [|split; [|split; [|split]]]]].
    - unfold sample_submission, only_keys.
      apply (proj1 (check_no_additional
                      [lit "context"; lit "payload"; lit "reasoning_md"]
                      (submission_of sample_context_info))).
      vm_compute. reflexivity.
    - unfold only_keys.
      apply (proj1 (check_no_additional
                      [lit "intent"; lit "work"; lit "context_info"]
                      (payload_of sample_context_info))).
      vm_compute. reflexivity.
    - vm_compute. exact I.
    - repeat apply List.Forall_cons; try apply List.Forall_nil;
        vm_compute; try exact I; eexists; reflexivity.
    - repeat apply List.Forall_cons; try apply List.Forall_nil;
        vm_compute; try exact I; eexists; reflexivity.
    - vm_compute. exact I.
    - vm_compute. exact I. }
  split; [done|]. split; [done|]. split; [done|].
  by apply (proj2 (inputSchema_strict sample_submission)).
Defined.

(** ** Relaxed mode and the bridge *)

Section ModeFacts.
Context `{Host}.

Lemma strict_mode_not_declared :
  lit "strict_mode" ∉ [lit "context"; lit "payload"; lit "reasoning_md"].
Proof.
  intros Hin.
  repeat (apply elem_of_cons in Hin as [Hin | Hin];
          [vm_compute in Hin; discriminate Hin|]).
  by apply elem_of_nil in Hin.
Qed.

Lemma finalPayload_without_strict_mode path body w :
  exists fp,
    result_of (Eyes.callEye_finalPayload path body) w = Returned fp
    /\ fp !! lit "strict_mode" = None
    /\ dom fp = {[ lit "context"; lit "payload"; lit "reasoning_md" ]}
    /\ Overseer.strict_mode_of fp = true.
Proof.
  destruct (callEye_finalPayload_spec path body w) as (ctx & w' & Hrun).
  eexists. unfold result_of. rewrite Hrun. cbn [fst].
  split; [reflexivity|].
  assert (Hnone : forall a b c : value,
            (<[lit "context" := a]>
               (<[lit "payload" := b]>
                  (<[lit "reasoning_md" := c]> (∅ : gmap jsstring value))))
            !! lit "strict_mode" = None).
  { intros a b c. pose proof strict_mode_not_declared as Hnot.
    rewrite !lookup_insert_ne; [apply lookup_empty | ..];
      intros Heq; apply Hnot; rewrite <- Heq;
      repeat first [ by left | right ]. }
  split; [apply Hnone|]. split.
  - rewrite !dom_insert_L, dom_empty_L. set_solver.
  - unfold Overseer.strict_mode_of. by rewrite Hnone.
Qed.

Lemma inputSchema_rejects_strict_mode (body : gmap jsstring value) :
  is_Some (body !! lit "strict_mode") ->
  Schema.valid Schema.inputSchema (VObject body) = false.
Proof.
  intros Hmode.
  destruct (Schema.valid Schema.inputSchema (VObject body)) eqn:Hv; [|done].
  exfalso. apply strict_mode_not_declared.
  apply (valid_keyword _ (Schema.additionalProperties false)) in Hv;
    [|repeat first [ by left | right ]].
  by apply (proj1 (check_no_additional _ body) Hv).
Qed.

(** C2, as the code has it.  A request body with [strict_mode = false]
    and an [intent] of at least one character passes the orchestrator's
    validation.  The bridge does not let a caller reach that mode: the
    body it submits carries exactly [context], [payload] and
    [reasoning_md], never [strict_mode], so the orchestrator validates it
    strictly; and the bridge's input schema rejects arguments that have a
    [strict_mode] key. *)
Theorem relaxed_mode_not_through_bridge (body : gmap jsstring value)
    (intent : jsstring)
    (Hmode : body !! lit "strict_mode" = Some (VBool false))
    (Hintent : get_prop (default VUndefined (body !! lit "payload"))
                 (lit "intent") = VString intent)
    (Hlen : (1 <= length intent)%nat) :
  Overseer.validate body = Overseer.Accepted
  /\ (forall path w,
        exists fp,
          result_of (Eyes.callEye_finalPayload path body) w = Returned fp
          /\ fp !! lit "strict_mode" = None
          /\ dom fp = {[ lit "context"; lit "payload"; lit "reasoning_md" ]}
          /\ Overseer.strict_mode_of fp = true)
  /\ Schema.valid Schema.inputSchema (VObject body) = false.
Proof.
  split; [|split].
  - unfold Overseer.validate, Overseer.strict_mode_of.
    rewrite Hmode, Hintent. cbn [Overseer.string_at_least].
    by rewrite bool_decide_eq_true_2.
  - intros path w. apply finalPayload_without_strict_mode.
  - apply inputSchema_rejects_strict_mode. by rewrite Hmode.
Qed.

End ModeFacts.

Lemma relaxed_mode_not_through_bridge_witness :
  relaxed_body !! lit "strict_mode" = Some (VBool false)
  /\ get_prop (default VUndefined (relaxed_body !! lit "payload")) (lit "intent")
     = VString (lit "test")
  /\ (1 <= length (lit "test"))%nat
  /\ Overseer.validate relaxed_body = Overseer.Accepted
  /\ Schema.valid Schema.inputSchema (VObject relaxed_body) = false.
Proof.
  assert (Hmode : relaxed_body !! lit "strict_mode" = Some (VBool false))
    by (vm_compute; reflexivity).
  assert (Hintent : get_prop (default VUndefined (relaxed_body !! lit "payload"))
                      (lit "intent") = VString (lit "test"))
    by (vm_compute; reflexivity).
  assert (Hlen : (1 <= length (lit "test"))%nat) by (vm_compute; lia).
  destruct (@relaxed_mode_not_through_bridge sample_host relaxed_body
              (lit "test") Hmode Hintent Hlen) as (Hok & _ & Hschema).
  auto.
Defined.

(** C2 as stated fails: the body the bridge submits for a relaxed-mode
    call does not carry the [strict_mode] field. *)
Lemma strict_mode_not_forwarded :
  ~ (exists fp,
       result_of (@Eyes.callEye_finalPayload sample_host orchestrate_path
                    relaxed_body) empty_world = Returned fp
       /\ fp !! lit "strict_mode" = Some (VBool false)).
Proof.
  intros (fp & Hfp & Hmode).
  destruct (@finalPayload_without_strict_mode sample_host orchestrate_path
              relaxed_body empty_world) as (fp' & Hfp' & Hnone & _).
  rewrite Hfp in Hfp'. injection Hfp' as <-. congruence.
Qed.

(** ** CSRF tokens *)

Section CsrfFacts.
Import Csrf.
Variable hmac : string -> string -> string.
Variable secret : string.

Local Open Scope string_scope.

Lemma split_colon_nonempty s : split_colon s <> [].
Proof.
  destruct s as [|c s]; cbn; [done|].
  destruct (Ascii.eqb c ":"); [done|]. by destruct (split_colon s).
Qed.

Lemma split_colon_no_colon a : no_colon a = true -> split_colon a = [a].
Proof.
  induction a as [|c a IH]; cbn; [done|].
  intros [Hc Ha]%andb_true_iff. apply negb_true_iff in Hc. rewrite Hc.
  by rewrite (IH Ha).
Qed.

Lemma split_colon_app a rest :
  no_colon a = true ->
  split_colon (a ++ ":" ++ rest) = a :: split_colon rest.
Proof.
  induction a as [|c a IH]; [done|].
  intros [Hc Ha]%andb_true_iff. apply negb_true_iff in Hc.
  change (split_colon (String c (a ++ ":" ++ rest))
          = String c a :: split_colon rest).
  cbn [split_colon]. rewrite Hc. by rewrite (IH Ha).
Qed.

Lemma split_colon_cons s p ps :
  split_colon s = p :: ps ->
  no_colon p = true
  /\ (ps = [] /\ s = p
      \/ exists rest, s = p ++ ":" ++ rest /\ split_colon rest = ps).
Proof.
  revert p ps. induction s as [|c s IH]; intros p ps; cbn.
  - intros [= <- <-]. split; [done|]. by left.
  - destruct (Ascii.eqb c ":") eqn:Hc.
    + apply Ascii.eqb_eq in Hc as ->. intros [= <- <-].
      split; [done|]. right. by exists s.
    + destruct (split_colon s) as [|q qs] eqn:Hs.
      { by destruct (split_colon_nonempty s). }
      intros [= <- <-]. destruct (IH q qs eq_refl) as [Hq Hrest].
      split; [cbn; by rewrite Hc, Hq|].
      destruct Hrest as [[-> ->] | (rest & -> & Hsplit)]; [by left|].
      right. by exists rest.
Qed.

Lemma split_colon_three value token timestamp signature :
  split_colon value = [token; timestamp; signature]
  <-> token_parts value token timestamp signature.
Proof.
  split.
  - intros Hsplit.
    apply split_colon_cons in Hsplit as [Htoken [[? _] | (r1 & -> & Hsplit)]];
      [done|].
    apply split_colon_cons in Hsplit as [Hts [[? _] | (r2 & -> & Hsplit)]];
      [done|].
    apply split_colon_cons in Hsplit as [Hsig [[_ ->] | (r3 & _ & Hsplit)]].
    + done.
    + by destruct (split_colon_nonempty r3).
  - intros (-> & Htoken & Hts & Hsig).
    rewrite (split_colon_app _ _ Htoken), (split_colon_app _ _ Hts).
    by rewrite (split_colon_no_colon _ Hsig).
Qed.

Lemma signature_verifies_spec value :
  signature_verifies hmac secret value = true <-> well_signed hmac secret value.
Proof.
  unfold signature_verifies, well_signed. split.
  - destruct (split_colon value) as [|token [|timestamp [|signature [|]]]]
      eqn:Hsplit; try done.
    intros Heq%String.eqb_eq. exists token, timestamp, signature.
    split; [by apply split_colon_three | done].
  - intros (token & timestamp & signature & Hparts & ->).
    apply split_colon_three in Hparts. rewrite Hparts.
    apply String.eqb_refl.
Qed.

Lemma within_window_spec now value :
  within_window now value = true <-> timely now value.
Proof.
  unfold within_window, timestamp_of, timely, CSRF_VALIDITY_SECONDS. split.
  - destruct (split_colon value) as [|token [|timestamp [|signature [|]]]]
      eqn:Hsplit; try done.
    destruct (parse_decimal timestamp) as [t|] eqn:Ht; [|done].
    intros Habs%Z.leb_le. exists token, timestamp, signature, t.
    split; [by apply split_colon_three|]. split; [done | lia].
  - intros (token & timestamp & signature & t & Hparts & Ht & Hwin).
    apply split_colon_three in Hparts. rewrite Hparts, Ht.
    apply Z.leb_le. lia.
Qed.

(** C8.  A generated token is [token:timestamp:signature] with the
    signature the HMAC of [token:timestamp] under the server secret.  A
    state-changing admin request is rejected with [E_CSRF_FAILED] exactly
    when its [X-CSRF-Token] header differs from the CSRF cookie, or the
    cookie's signature does not verify, or its timestamp is not within
    3600 s of now; otherwise it passes. *)
Theorem csrf_protect_rejects (now issued : Z) (token : string)
    (request : Request)
    (Hadmin : admin request = true)
    (Hmethod : state_changing (method request) = true) :
  generate_csrf_token hmac secret issued token
  = token ++ ":" ++ decimal issued ++ ":"
    ++ hmac secret (token ++ ":" ++ decimal issued)
  /\ (csrf_protect hmac secret now request = E_CSRF_FAILED
      <-> x_csrf_token request <> csrf_cookie request
          \/ ~ (exists cookie, csrf_cookie request = Some cookie
                               /\ well_signed hmac secret cookie)
          \/ ~ (exists cookie, csrf_cookie request = Some cookie
                               /\ timely now cookie))
  /\ (csrf_protect hmac secret now request <> E_CSRF_FAILED
      -> csrf_protect hmac secret now request = Pass).
Proof.
  split; [reflexivity|]. split.
  - unfold csrf_protect, validate_csrf_token. rewrite Hadmin, Hmethod.
    cbn [andb].
    destruct (x_csrf_token request) as [header|],
             (csrf_cookie request) as [cookie|].
    + destruct (String.eqb_spec header cookie) as [-> | Hne].
      * cbn [andb].
        destruct (signature_verifies hmac secret cookie) eqn:Hsig;
          cbn [andb].
        -- destruct (within_window now cookie) eqn:Hwin.
           ++ split; [done|]. intros [Hd | [Hs | Ht]]; [done | |].
              ** destruct Hs. exists cookie. split; [done|].
                 by apply signature_verifies_spec.
              ** destruct Ht. exists cookie. split; [done|].
                 by apply within_window_spec.
           ++ split; [|done]. intros _. right. right.
              intros (c & [= <-] & Ht). apply within_window_spec in Ht.
              congruence.
        -- split; [|done]. intros _. right. left.
           intros (c & [= <-] & Hs). apply signature_verifies_spec in Hs.
           congruence.
      * cbn [andb]. split; [|done]. intros _. left. congruence.
    + split; [|done]. intros _. by left.
    + split; [|done]. intros _. by left.
    + split; [|done]. intros _. right. left. by intros (c & [=] & _).
  - by destruct (csrf_protect hmac secret now request).
Qed.

End CsrfFacts.

Lemma csrf_protect_rejects_witness :
  Csrf.admin sample_request = true
  /\ Csrf.state_changing (Csrf.method sample_request) = true
  /\ Csrf.csrf_protect toy_hmac "server-secret" 1700000100 sample_request
     = Csrf.Pass
  /\ ~ (Csrf.x_csrf_token sample_request <> Csrf.csrf_cookie sample_request).
Proof.
  assert (Hadmin : Csrf.admin sample_request = true) by reflexivity.
  assert (Hmethod : Csrf.state_changing (Csrf.method sample_request) = true)
    by reflexivity.
  destruct (csrf_protect_rejects toy_hmac "server-secret" 1700000100
              1700000000 "q7Zt_x-0" sample_request Hadmin Hmethod)
    as (_ & Hiff & Hpass).
  split; [done|]. split; [done|]. split.
  - apply Hpass. vm_compute. discriminate.
  - intros Hne. apply Hne. reflexivity.
Defined.

(** ** More on the session store *)

Section StoreMore.
Context `{Host}.
Import SessionManager.

Lemma bound_is_row w c r : bound w c = Some r -> exists sid, sessions w !! sid = Some r.
Proof. intros (sid & _ & _ & Hr)%bound_Some. eauto. Qed.

Lemma touch_keeps_others (h : list SessionContext) r s x j :
  j <> r -> (<[r := s]> h ++ [x]) !! j = (h ++ [x]) !! j.
Proof.
  intros Hne. destruct (decide (j < length h)%nat) as [Hlt | Hge].
  - rewrite !lookup_app_l by (rewrite ?length_insert; lia).
    by apply list_lookup_insert_ne.
  - rewrite !lookup_app_r by (rewrite ?length_insert; lia).
    by rewrite length_insert.
Qed.

(** What one operation does to the heap and to the set of row objects:
    objects that are not rows keep their content, the heap only grows,
    and a row of the new store is a row of the old one or a new object. *)
Lemma perform_heap op w :
  let w' := world_after (perform op) w in
  (length (heap w) <= length (heap w'))%nat
  /\ (forall j, (j < length (heap w))%nat ->
        (forall sid, sessions w !! sid <> Some j) ->
        heap w' !! j = heap w !! j)
  /\ (forall sid r, sessions w' !! sid = Some r ->
        sessions w !! sid = Some r \/ (length (heap w) <= r)%nat).
Proof.
  assert (Htouched : forall r s x t d,
            (exists sid, sessions w !! sid = Some r) ->
            let w' := mkWorld (<[r := s]> (heap w) ++ [x]) (sessions w)
                        (connectionToSession w) (currentConnectionId w) t d in
            (length (heap w) <= length (heap w'))%nat
            /\ (forall j, (j < length (heap w))%nat ->
                  (forall sid, sessions w !! sid <> Some j) ->
                  heap w' !! j = heap w !! j)
            /\ (forall sid r0, sessions w' !! sid = Some r0 ->
                  sessions w !! sid = Some r0 \/ (length (heap w) <= r0)%nat)).
  { intros r s x t d [sid Hsid]. cbn. split; [|split].
    - rewrite length_app, length_insert. lia.
    - intros j Hj Hnot. rewrite lookup_app_l by (rewrite length_insert; lia).
      apply list_lookup_insert_ne. intros ->. by apply (Hnot sid).
    - intros sid0 r0 Hr0. by left. }
  assert (Hsame : (length (heap w) <= length (heap w))%nat
            /\ (forall j, (j < length (heap w))%nat ->
                  (forall sid, sessions w !! sid <> Some j) ->
                  heap w !! j = heap w !! j)
            /\ (forall sid r, sessions w !! sid = Some r ->
                  sessions w !! sid = Some r \/ (length (heap w) <= r)%nat)).
  { split; [lia|]. split; [done|]. intros; by left. }
  unfold world_after.
  destruct op as [c | c | c u | c | ]; cbn [perform]; unfold bind.
  - destruct (bound w c) as [r|] eqn:Hb.
    + rewrite (getOrCreate_bound c w r Hb). cbn [snd fst]. cbv zeta.
      apply Htouched. by eapply bound_is_row.
    + rewrite (getOrCreate_unbound c w Hb). cbn. split; [|split].
      * rewrite length_app. cbn. lia.
      * intros j Hj _. by rewrite lookup_app_l.
      * intros sid r. rewrite lookup_insert. case_decide.
        -- intros [= <-]. by right.
        -- intros Hr. by left.
  - destruct (bound w c) as [r|] eqn:Hb.
    + rewrite (get_bound c w r Hb). cbn [snd fst]. cbv zeta.
      apply Htouched. by eapply bound_is_row.
    + by rewrite (get_unbound c w Hb).
  - destruct (bound w c) as [r|] eqn:Hb.
    + rewrite (update_bound c u w r Hb). cbn [snd fst]. cbv zeta.
      rewrite list_insert_insert_eq.
      apply Htouched. by eapply bound_is_row.
    + by rewrite (update_unbound c u w Hb).
  - destruct (connectionToSession w !! c) as [sid|] eqn:Hc.
    2:{ by rewrite cleanup_unbound. }
    unfold cleanup. rewrite Hc. destruct (nonempty sid); [|done]. cbn.
    split; [lia|]. split; [done|].
    intros sid0 r. rewrite lookup_delete. case_decide; [done|]. by left.
  - cbn.
    set (w0 := mkWorld (heap w) (sessions w) (connectionToSession w)
                 (currentConnectionId w) (S (ticks w)) (draws w)).
    generalize (staleConnections w0 (clock (ticks w))). intros cs.
    assert (Hgen : forall w1,
              heap w1 = heap w ->
              (forall sid r, sessions w1 !! sid = Some r ->
                             sessions w !! sid = Some r) ->
              heap (cleanup_each cs w1).2 = heap w
              /\ (forall sid r, sessions (cleanup_each cs w1).2 !! sid = Some r ->
                                sessions w !! sid = Some r)).
    { induction cs as [|c cs IH]; intros w1 Hh Hs; [done|].
      cbn [cleanup_each]. unfold bind.
      destruct (cleanup c w1) as [[[]|e] w2] eqn:Hc; cbn.
      - apply IH.
        + unfold cleanup in Hc.
          destruct (connectionToSession w1 !! c) as [sid|];
            [destruct (nonempty sid)|]; injection Hc as <-; done.
        + intros sid r. unfold cleanup in Hc.
          destruct (connectionToSession w1 !! c) as [sid'|];
            [destruct (nonempty sid')|]; injection Hc as <-; cbn;
            rewrite ?lookup_delete; try case_decide; try done; apply Hs.
      - unfold cleanup in Hc.
        destruct (connectionToSession w1 !! c) as [sid|];
          [destruct (nonempty sid)|]; discriminate Hc. }
    destruct (Hgen w0) as [Hh Hs]; [done | done |].
    rewrite Hh. split; [lia|]. split; [done|].
    intros sid r Hr. left. by apply Hs.
Qed.

(** X1.  An object handed out by the store is a value copy for good: no
    later run of store operations changes an object of the heap that is
    not a session row. *)
Theorem handed_out_objects_are_stable (ops : list operation) (w : World)
    (j : ref) (Hj : (j < length (heap w))%nat)
    (Hnot : forall sid, sessions w !! sid <> Some j) :
  heap (perform_all ops w) !! j = heap w !! j.
Proof.
  revert w Hj Hnot. induction ops as [|op ops IH]; intros w Hj Hnot; [done|].
  cbn [perform_all].
  destruct (perform_heap op w) as (Hlen & Hkeep & Hrows).
  rewrite IH.
  - by apply Hkeep.
  - lia.
  - intros sid Hsid. destruct (Hrows sid j Hsid) as [Hold | Hnew].
    + by apply (Hnot sid).
    + lia.
Qed.

(** X2.  [update] on a connection that has no session throws "No session
    found for connection <id>" and leaves the world as it is; on a bound
    connection of a well-formed store it merges the updates into the
    stored row, stamps [last_activity] with the clock reading, keeps
    both maps and every other object, and returns a new object equal to
    the stored row. *)
Theorem update_effect (c : jsstring) (u : PartialSessionContext) (w : World)
    (Hinv : store_invariant w) :
  match bound w c with
  | None =>
      update c u w
      = (Thrown (lit "No session found for connection " ++ c), w)
  | Some r =>
      exists w',
        update c u w = (Returned (length (heap w)), w')
        /\ sessions w' = sessions w
        /\ connectionToSession w' = connectionToSession w
        /\ heap w' !! r
           = Some (with_last_activity (clock (ticks w))
                     (Object_assign (deref (heap w) r) u))
        /\ heap w' !! length (heap w) = heap w' !! r
        /\ forall j, (j < length (heap w))%nat -> j <> r ->
             heap w' !! j = heap w !! j
  end.
Proof.
  destruct (bound w c) as [r|] eqn:Hb; [|by apply update_unbound].
  destruct (bound_is_row w c r Hb) as [sid Hsid].
  pose proof (rows_in_heap w Hinv sid r Hsid) as Hr.
  rewrite (update_bound c u w r Hb). eexists. split; [reflexivity|].
  cbn. rewrite list_insert_insert_eq.
  assert (Hrow : forall s, deref (<[r := s]> (heap w)) r = s).
  { intros s. unfold deref. by rewrite list_lookup_insert_eq. }
  assert (Hassign : deref (<[r := Object_assign (deref (heap w) r) u]> (heap w)) r
                    = Object_assign (deref (heap w) r) u) by apply Hrow.
  rewrite Hassign, Hrow.
  split; [done|]. split; [done|]. split; [|split].
  - rewrite lookup_app_l by (by rewrite length_insert).
    by apply list_lookup_insert_eq.
  - rewrite lookup_app_r by (by rewrite length_insert).
    rewrite length_insert, Nat.sub_diag.
    rewrite lookup_app_l by (by rewrite length_insert).
    by rewrite list_lookup_insert_eq.
  - intros j Hj Hjr. rewrite lookup_app_l by (by rewrite length_insert).
    by apply list_lookup_insert_ne.
Qed.

(** X3.  [get] never creates: for a connection without a session it
    returns [null] and leaves the world as it is; for a bound connection
    of a well-formed store it stamps [last_activity] of the row with the
    clock reading and returns a new object equal to the row. *)
Theorem get_effect (c : jsstring) (w : World) (Hinv : store_invariant w) :
  match bound w c with
  | None => get c w = (Returned None, w)
  | Some r =>
      exists w',
        get c w = (Returned (Some (length (heap w))), w')
        /\ sessions w' = sessions w
        /\ connectionToSession w' = connectionToSession w
        /\ heap w' !! r
           = Some (with_last_activity (clock (ticks w)) (deref (heap w) r))
        /\ heap w' !! length (heap w) = heap w' !! r
  end.
Proof.
  destruct (bound w c) as [r|] eqn:Hb; [|by apply get_unbound].
  destruct (bound_is_row w c r Hb) as [sid Hsid].
  pose proof (rows_in_heap w Hinv sid r Hsid) as Hr.
  rewrite (get_bound c w r Hb). eexists. split; [reflexivity|].
  assert (Hrow : forall s, deref (<[r := s]> (heap w)) r = s).
  { intros s. unfold deref. by rewrite list_lookup_insert_eq. }
  cbn. rewrite Hrow.
  split; [done|]. split; [done|]. split.
  - rewrite lookup_app_l by (by rewrite length_insert).
    by apply list_lookup_insert_eq.
  - rewrite lookup_app_r by (by rewrite length_insert).
    rewrite length_insert, Nat.sub_diag.
    rewrite lookup_app_l by (by rewrite length_insert).
    by rewrite list_lookup_insert_eq.
Qed.

(** X4.  [cleanup] of a connection of a well-formed store removes its
    binding and its row only: afterwards the connection has no session
    ([get] returns [null]), every other connection is bound to the row it
    had, the heap is unchanged, and a second [cleanup] changes nothing. *)
Theorem cleanup_effect (c : jsstring) (w : World) (Hinv : store_invariant w) :
  let w' := world_after (cleanup c) w in
  bound w' c = None
  /\ get c w' = (Returned None, w')
  /\ (forall c', c' <> c -> bound w' c' = bound w c')
  /\ heap w' = heap w
  /\ cleanup c w' = (Returned tt, w').
Proof.
  cbv zeta. unfold world_after.
  destruct (connectionToSession w !! c) as [sid|] eqn:Hc.
  - destruct (binding_has_row w Hinv c sid Hc) as [Hne Hrow].
    rewrite (cleanup_bound c w sid Hc Hne). cbn [snd].
    set (w' := mkWorld _ _ _ _ _ _).
    assert (Hgone : connectionToSession w' !! c = None)
      by (cbn; apply lookup_delete_eq).
    assert (Hb : bound w' c = None) by (unfold bound; by rewrite Hgone).
    split; [done|]. split; [by apply get_unbound|]. split; [|split; [done|]].
    + intros c' Hc'. unfold bound. cbn.
      rewrite lookup_delete_ne by done.
      destruct (connectionToSession w !! c') as [sid'|] eqn:Hsid'; [|done].
      destruct (nonempty sid'); [|done].
      apply lookup_delete_ne. intros <-.
      destruct (row_bound_exactly_once w Hinv sid Hrow) as (c0 & _ & Huniq).
      apply Hc'. by rewrite (Huniq c Hc), (Huniq c' Hsid').
    + by apply cleanup_unbound.
  - rewrite (cleanup_unbound c w Hc). cbn [snd].
    assert (Hb : bound w c = None) by (unfold bound; by rewrite Hc).
    split; [done|]. split; [by apply get_unbound|]. split; [done|].
    split; [done|]. by apply cleanup_unbound.
Qed.


(** Bindings and rows are in one-to-one correspondence, so there are as
    many of the one as of the other. *)
Lemma bindings_match_rows (f : gmap jsstring jsstring) :
  forall s : gmap jsstring nat,
    (forall c sid, f !! c = Some sid -> is_Some (s !! sid)) ->
    (forall sid, is_Some (s !! sid) ->
       exists c, f !! c = Some sid /\ forall c', f !! c' = Some sid -> c' = c) ->
    size s = size f.
Proof.
  induction f as [|c sid f Hc IH] using map_ind; intros s Hrow Hbound.
  - rewrite map_size_empty. apply map_size_empty_iff, map_empty.
    intros sid. destruct (s !! sid) as [r|] eqn:Hs; [|done].
    destruct (Hbound sid) as (c & Hc & _); [by rewrite Hs|].
    by rewrite lookup_empty in Hc.
  - destruct (Hrow c sid) as [r Hr]; [apply lookup_insert_eq|].
    rewrite map_size_insert_None by done.
    rewrite <- (insert_delete_id s sid r Hr).
    rewrite map_size_insert_None by apply lookup_delete_eq.
    f_equal. apply IH.
    + intros c' sid' Hc'.
      assert (Hne : c' <> c) by (intros ->; by rewrite Hc in Hc').
      assert (Hsid : sid' <> sid).
      { intros ->. destruct (Hbound sid) as (c0 & _ & Huniq); [by rewrite Hr|].
        assert (c' = c0) as ->.
        { apply Huniq. by rewrite lookup_insert_ne. }
        assert (c = c0) as ->; [|done].
        apply Huniq, lookup_insert_eq. }
      rewrite lookup_delete_ne by done.
      apply (Hrow c' sid'). by rewrite lookup_insert_ne.
    + intros sid' Hsid'.
      assert (Hne : sid' <> sid).
      { intros ->. rewrite lookup_delete_eq in Hsid'. by destruct Hsid'. }
      rewrite lookup_delete_ne in Hsid' by done.
      destruct (Hbound sid' Hsid') as (c0 & Hc0 & Huniq).
      assert (Hc0' : c0 <> c).
      { intros ->. rewrite lookup_insert_eq in Hc0. congruence. }
      exists c0. split; [by rewrite lookup_insert_ne in Hc0|].
      intros c' Hc'. apply Huniq.
      rewrite lookup_insert_ne; [done|]. intros ->. by rewrite Hc in Hc'.
Qed.

Lemma invariant_sizes w :
  store_invariant w -> size (sessions w) = size (connectionToSession w).
Proof.
  intros Hinv. apply bindings_match_rows.
  - intros c sid Hc. by apply (binding_has_row w Hinv c sid).
  - apply (row_bound_exactly_once w Hinv).
Qed.

(** X5.  In every store that satisfies the store invariant, and so after
    every run of the operations from such a store in which each newly
    minted session id is unused, [stats] reports as many sessions as
    connections and leaves the world as it is. *)
Theorem stats_balanced (ops : list operation) (w : World)
    (Hinv : store_invariant w) (Hfresh : fresh_run ops w = true) :
  exists n,
    stats (perform_all ops w)
    = (Returned {| total_sessions := n; total_connections := n |},
       perform_all ops w).
Proof.
  exists (size (sessions (perform_all ops w))).
  unfold stats. rewrite <- (invariant_sizes (perform_all ops w)); [done|].
  by apply invariant_run.
Qed.
Lemma cleanupStale_keeps w c sid r row :
  store_invariant w ->
  connectionToSession w !! c = Some sid ->
  sessions w !! sid = Some r -> heap w !! r = Some row ->
  ~ clock (ticks w) - last_activity row > sessionTimeout ->
  let w' := world_after cleanupStale w in
  connectionToSession w' !! c = Some sid
  /\ sessions w' !! sid = Some r /\ heap w' = heap w.
Proof.
  intros Hinv Hc Hsid Hrow Hle w'.
  set (now := clock (ticks w)) in *.
  set (w0 := mkWorld (heap w) (sessions w) (connectionToSession w)
               (currentConnectionId w) (S (ticks w)) (draws w)).
  assert (Hrun : cleanupStale w = cleanup_each (staleConnections w0 now) w0)
    by reflexivity.
  destruct (cleanup_each_effect (staleConnections w0 now) w0)
    as (Hres & Hheap & Hin & Hout & Hgone & Hkept).
  { apply NoDup_staleConnections. }
  { intros c' Hc'. apply elem_of_staleConnections in Hc' as (s & Hs & _).
    exists s. split; [done|]. by apply (binding_has_row w Hinv c' s). }
  assert (Hfresh : forall c', connectionToSession w !! c' = Some sid ->
                              c' ∉ staleConnections w0 now).
  { intros c' Hc' Hin'. apply elem_of_staleConnections in Hin'
      as (s & Hs & Hst). cbn in Hs. assert (s = sid) as -> by congruence.
    by apply Hle, (is_stale_spec w0 now sid r row). }
  subst w'. unfold world_after in *. rewrite Hrun.
  split; [|split].
  - rewrite Hout; [done|]. by apply Hfresh.
  - rewrite Hkept; [done|]. intros c' Hc' Hb. by apply (Hfresh c').
  - by rewrite Hheap.
Qed.

(** X6.  Use keeps a session alive: after [getOrCreate] the session of
    the connection carries the clock reading of that call as
    [last_activity], and a [cleanupStale] that then runs at a reading no
    more than 30 minutes later leaves the connection bound to the same
    row. *)
Theorem used_session_survives_cleanup (c : jsstring) (w : World)
    (Hinv : store_invariant w)
    (Hfresh : mints_fresh (OpGetOrCreate c) w = true) :
  let w1 := world_after (getOrCreate c) w in
  exists r row,
    bound w1 c = Some r /\ heap w1 !! r = Some row
    /\ last_activity row
       = clock (match bound w c with
                | Some _ => ticks w
                | None => S (S (ticks w))
                end)
    /\ (clock (ticks w1) - last_activity row <= 1800000 ->
        bound (world_after cleanupStale w1) c = Some r).
Proof.
  intros w1.
  assert (Hinv1 : store_invariant w1).
  { pose proof (invariant_perform (OpGetOrCreate c) w Hinv Hfresh) as Hp.
    unfold world_after in Hp. cbn [perform] in Hp. unfold bind in Hp.
    subst w1. unfold world_after.
    by destruct (getOrCreate c w) as [[copy | e] w']. }
  assert (Hrow : exists sid r row,
            connectionToSession w1 !! c = Some sid /\ sid <> []
            /\ sessions w1 !! sid = Some r /\ heap w1 !! r = Some row
            /\ last_activity row
               = clock (match bound w c with
                        | Some _ => ticks w
                        | None => S (S (ticks w))
                        end)).
  { subst w1. unfold world_after.
    destruct (bound w c) as [r|] eqn:Hb.
    - rewrite (getOrCreate_bound c w r Hb). cbn [snd]. cbv zeta.
      destruct (proj1 (bound_Some w c r) Hb) as (sid & Hc & Hne & Hsid).
      pose proof (rows_in_heap w Hinv sid r Hsid) as Hr.
      exists sid, r. eexists. cbn.
      split; [done|]. split; [done|]. split; [done|]. split.
      + rewrite lookup_app_l by (by rewrite length_insert).
        by apply list_lookup_insert_eq.
      + reflexivity.
    - rewrite (getOrCreate_unbound c w Hb). cbn [snd]. cbv zeta.
      exists (minted_session_id w), (length (heap w)). eexists. cbn.
      rewrite !lookup_insert_eq.
      split; [done|]. split; [apply session_id_of_nonempty|].
      split; [done|]. split.
      + rewrite lookup_app_r by lia. by rewrite Nat.sub_diag.
      + reflexivity. }
  destruct Hrow as (sid & r & row & Hc & Hne & Hsid & Hr & Hlast).
  exists r, row.
  split; [apply bound_Some; by exists sid|]. split; [done|]. split; [done|].
  intros Hrecent.
  destruct (cleanupStale_keeps w1 c sid r row Hinv1 Hc Hsid Hr)
    as (Hc' & Hsid' & _).
  { change sessionTimeout with 1800000. lia. }
  apply bound_Some. by exists sid.
Qed.


End StoreMore.

Lemma sample_store_invariant : store_invariant sample_store.
Proof.
  apply (invariant_run (H := sample_host));
    [apply invariant_empty_world | vm_compute; reflexivity].
Qed.

Lemma sample_store_rows sid r :
  sessions sample_store !! sid = Some r -> r = 0%nat \/ r = 2%nat.
Proof.
  assert (Hs : sessions sample_store
               = <[@minted_session_id sample_host empty_world := 0%nat]>
                   (<[@minted_session_id sample_host
                        (world_after (@perform sample_host (OpGetOrCreate conn_a))
                           empty_world) := 2%nat]> ∅))
    by (vm_compute; reflexivity).
  rewrite Hs. rewrite !lookup_insert. repeat case_decide; rewrite ?lookup_empty;
    intros [= <-]; auto.
Qed.

Lemma handed_out_objects_are_stable_witness :
  (1 < length (heap sample_store))%nat
  /\ (forall sid, sessions sample_store !! sid <> Some 1%nat)
  /\ heap (@perform_all sample_host
             [OpUpdate conn_a no_updates; OpGet conn_b; OpCleanup conn_a]
             sample_store) !! 1%nat
     = heap sample_store !! 1%nat.
Proof.
  assert (Hj : (1 < length (heap sample_store))%nat) by (vm_compute; lia).
  assert (Hnot : forall sid, sessions sample_store !! sid <> Some 1%nat).
  { intros sid Hsid. destruct (sample_store_rows sid 1 Hsid); lia. }
  split; [done|]. split; [done|].
  by apply (@handed_out_objects_are_stable sample_host).
Defined.

Lemma update_effect_witness :
  store_invariant sample_store
  /\ match SessionManager.bound sample_store (lit "conn-z") with
     | None =>
         @SessionManager.update sample_host (lit "conn-z") no_updates
           sample_store
         = (Thrown (lit "No session found for connection " ++ lit "conn-z"),
            sample_store)
     | Some r => True
     end.
Proof.
  split; [apply sample_store_invariant|].
  pose proof (@update_effect sample_host (lit "conn-z") no_updates sample_store
                sample_store_invariant) as Heffect.
  destruct (SessionManager.bound sample_store (lit "conn-z")); [exact I | done].
Defined.

Lemma get_effect_witness :
  store_invariant sample_store
  /\ match SessionManager.bound sample_store conn_a with
     | None => True
     | Some r =>
         exists w',
           @SessionManager.get sample_host conn_a sample_store
           = (Returned (Some (length (heap sample_store))), w')
           /\ sessions w' = sessions sample_store
     end.
Proof.
  split; [apply sample_store_invariant|].
  pose proof (@get_effect sample_host conn_a sample_store
                sample_store_invariant) as Heffect.
  destruct (SessionManager.bound sample_store conn_a); [|exact I].
  destruct Heffect as (w' & Hget & Hs & _).
  exists w'. split; [exact Hget | exact Hs].
Defined.

Lemma cleanup_effect_witness :
  store_invariant sample_store
  /\ SessionManager.bound
       (world_after (SessionManager.cleanup conn_a) sample_store) conn_a
     = None
  /\ heap (world_after (SessionManager.cleanup conn_a) sample_store)
     = heap sample_store.
Proof.
  split; [apply sample_store_invariant|].
  destruct (@cleanup_effect sample_host conn_a sample_store
              sample_store_invariant)
    as (Hb & _ & _ & Hh & _).
  split; [exact Hb | exact Hh].
Defined.

Lemma stats_balanced_witness :
  store_invariant sample_store
  /\ @fresh_run sample_host
       [OpGetOrCreate (lit "conn-c"); OpCleanup conn_b; OpCleanupStale]
       sample_store = true
  /\ exists n,
       SessionManager.stats
         (@perform_all sample_host
            [OpGetOrCreate (lit "conn-c"); OpCleanup conn_b; OpCleanupStale]
            sample_store)
       = (Returned {| SessionManager.total_sessions := n;
                      SessionManager.total_connections := n |},
          @perform_all sample_host
            [OpGetOrCreate (lit "conn-c"); OpCleanup conn_b; OpCleanupStale]
            sample_store).
Proof.
  assert (Hfresh : @fresh_run sample_host
                     [OpGetOrCreate (lit "conn-c"); OpCleanup conn_b;
                      OpCleanupStale] sample_store = true)
    by (vm_compute; reflexivity).
  split; [apply sample_store_invariant|]. split; [exact Hfresh|].
  apply (@stats_balanced sample_host _ sample_store sample_store_invariant
           Hfresh).
Defined.

Lemma used_session_survives_cleanup_witness :
  store_invariant sample_store
  /\ @mints_fresh sample_host (OpGetOrCreate conn_a) sample_store = true
  /\ exists r row,
       SessionManager.bound
         (world_after (@SessionManager.getOrCreate sample_host conn_a)
            sample_store) conn_a = Some r
       /\ heap (world_after (@SessionManager.getOrCreate sample_host conn_a)
                  sample_store) !! r = Some row.
Proof.
  assert (Hfresh : @mints_fresh sample_host (OpGetOrCreate conn_a) sample_store
                   = true) by (vm_compute; reflexivity).
  split; [apply sample_store_invariant|]. split; [done|].
  destruct (@used_session_survives_cleanup sample_host conn_a sample_store
              sample_store_invariant Hfresh) as (r & row & Hb & Hrow & _).
  exists r, row. split; [exact Hb | exact Hrow].
Defined.

(** ** More on the envelope glue *)

Section EyesMore.
Context `{Host}.
Import Eyes.

Lemma cleanup_each_keeps_connection cs : forall w,
  currentConnectionId (world_after (SessionManager.cleanup_each cs) w)
  = currentConnectionId w.
Proof.
  induction cs as [|c cs IH]; intros w; [done|].
  unfold world_after in *. cbn [SessionManager.cleanup_each]. unfold bind.
  destruct (SessionManager.cleanup c w) as [[[]|e] w1] eqn:Hc; cbn.
  - rewrite IH. unfold SessionManager.cleanup in Hc.
    destruct (connectionToSession w !! c) as [sid|];
      [destruct (SessionManager.nonempty sid)|]; by injection Hc as <-.
  - unfold SessionManager.cleanup in Hc.
    destruct (connectionToSession w !! c) as [sid|];
      [destruct (SessionManager.nonempty sid)|]; discriminate Hc.
Qed.

Lemma perform_keeps_connection op w :
  currentConnectionId (world_after (perform op) w) = currentConnectionId w.
Proof.
  unfold world_after.
  destruct op as [c | c | c u | c | ]; cbn [perform]; unfold bind.
  - destruct (SessionManager.bound w c) as [r|] eqn:Hb.
    + by rewrite (getOrCreate_bound c w r Hb).
    + by rewrite (getOrCreate_unbound c w Hb).
  - destruct (SessionManager.bound w c) as [r|] eqn:Hb.
    + by rewrite (get_bound c w r Hb).
    + by rewrite (get_unbound c w Hb).
  - destruct (SessionManager.bound w c) as [r|] eqn:Hb.
    + by rewrite (update_bound c u w r Hb).
    + by rewrite (update_unbound c u w Hb).
  - unfold SessionManager.cleanup.
    destruct (connectionToSession w !! c) as [sid|];
      [destruct (SessionManager.nonempty sid)|]; reflexivity.
  - cbn.
    apply (cleanup_each_keeps_connection _
             (mkWorld (heap w) (sessions w) (connectionToSession w)
                (currentConnectionId w) (S (ticks w)) (draws w))).
Qed.

(** X7.  The connection id is generated once: the first call of
    [getConnectionId] yields a non-empty id, and after any run of store
    operations a further call returns the same id without changing the
    world (so without reading the clock or the random source again). *)
Theorem getConnectionId_stable (w : World) (ops : list operation) :
  exists c w0,
    getConnectionId w = (Returned c, w0) /\ c <> []
    /\ getConnectionId (perform_all ops w0)
       = (Returned c, perform_all ops w0).
Proof.
  destruct (getConnectionId_spec w) as (c & w0 & Hc & Hne & Hcur & _).
  exists c, w0. split; [done|]. split; [done|].
  apply getConnectionId_known; [|done].
  clear Hc. revert w0 Hcur. induction ops as [|op ops IH]; intros w0 Hcur;
    [done|].
  cbn [perform_all]. apply IH. by rewrite perform_keeps_connection.
Qed.


(** *** Persistence of the coalesced context *)

Ltac tracks_step st :=
  let Hb := fresh "Hb" in
  let Hu := fresh "Hu" in
  let Hf := fresh "Hf" in
  intros [Hb Hu]; split; [|intros Hf; discriminate Hf];
  destruct st as [[b1 b2 b3 b4 b5] [u1 u2 u3 u4 u5 u6 u7] h];
  cbn in *; injection Hb as -> -> -> -> ->; reflexivity.

Lemma tracks_session_id row raw st :
  tracks row st -> tracks row (coalesce_session_id raw st).
Proof.
  unfold coalesce_session_id.
  destruct (get_prop raw (lit "session_id")) as [| |b|n|s|items|props|];
    try done.
  destruct (SessionManager.nonempty (trim s)); [|done]. tracks_step st.
Qed.

Lemma tracks_user_id row raw st :
  tracks row st -> tracks row (coalesce_user_id raw st).
Proof.
  unfold coalesce_user_id, set_user_id.
  destruct (get_prop raw (lit "user_id")) as [| |b|n|s|items|props|];
    try done.
  - tracks_step st.
  - destruct (SessionManager.nonempty (trim s)); [|done]. tracks_step st.
Qed.

Lemma tracks_lang row raw st :
  tracks row st -> tracks row (coalesce_lang raw st).
Proof.
  unfold coalesce_lang.
  destruct (string_lang (get_prop raw (lit "lang"))); [|done]. tracks_step st.
Qed.

Lemma tracks_budget_tokens row raw st :
  tracks row st -> tracks row (coalesce_budget_tokens raw st).
Proof.
  unfold coalesce_budget_tokens.
  destruct (Number_isFinite _ && number_ge0 _); [|done]. tracks_step st.
Qed.

Lemma tracks_tenant row raw st :
  tracks row st -> tracks row (coalesce_tenant raw st).
Proof.
  unfold coalesce_tenant, set_tenant.
  destruct (get_prop raw (lit "tenant")) as [| |b|n|s|items|props|];
    try done.
  - tracks_step st.
  - destruct (SessionManager.nonempty (trim s)); [|done]. tracks_step st.
Qed.

Lemma tracks_fields row raw :
  tracks row
    (coalesce_fields raw (mkCoalesce (session_fields row) no_updates false)).
Proof.
  unfold coalesce_fields.
  apply tracks_tenant, tracks_budget_tokens, tracks_lang, tracks_user_id,
    tracks_session_id.
  split; [by destruct row | done].
Qed.

(** The row of the connection after [getOrCreate]. *)
Lemma getOrCreate_row c w :
  store_invariant w ->
  exists copy w2 r,
    SessionManager.getOrCreate c w = (Returned copy, w2)
    /\ SessionManager.bound w2 c = Some r
    /\ (r < length (heap w2))%nat
    /\ session_fields (deref (heap w2) r) = bound_context w c
    /\ session_fields (deref (heap w2) copy) = bound_context w c
    /\ currentConnectionId w2 = currentConnectionId w.
Proof.
  intros Hinv.
  destruct (SessionManager.bound w c) as [r|] eqn:Hb.
  - assert (Hr : (r < length (heap w))%nat).
    { apply bound_Some in Hb as (sid & Hc & Hne & Hs).
      by apply (rows_in_heap w Hinv sid). }
    rewrite (getOrCreate_bound c w r Hb). eexists _, _, r.
    split; [reflexivity|]. cbn.
    split; [done|]. rewrite length_app, length_insert. split; [lia|].
    unfold bound_context. rewrite Hb.
    split; [|split; [|done]].
    + unfold deref at 1. rewrite lookup_app_l by (by rewrite length_insert).
      apply fields_after_touch.
    + unfold deref at 1.
      rewrite lookup_app_r by (by rewrite length_insert).
      rewrite length_insert, Nat.sub_diag. cbn. apply fields_after_touch.
  - rewrite (getOrCreate_unbound c w Hb). eexists _, _, (length (heap w)).
    split; [reflexivity|]. cbn.
    split.
    { apply bound_Some. exists (minted_session_id w). cbn.
      rewrite !lookup_insert_eq.
      split; [done|]. split; [apply session_id_of_nonempty | done]. }
    rewrite length_app. cbn. split; [lia|].
    unfold bound_context. rewrite Hb. unfold deref.
    split; [|split; [|done]].
    + rewrite lookup_app_r by lia. by rewrite Nat.sub_diag.
    + rewrite lookup_app_r by lia.
      replace (S (length (heap w)) - length (heap w))%nat with 1%nat by lia.
      reflexivity.
Qed.

Lemma coalesceContext_row input w :
  store_invariant w ->
  exists c ctx w3 r,
    coalesceContext input w = (Returned ctx, w3)
    /\ currentConnectionId w3 = Some c /\ c <> []
    /\ SessionManager.bound w3 c = Some r
    /\ (r < length (heap w3))%nat
    /\ session_fields (deref (heap w3) r) = ctx.
Proof.
  intros Hinv.
  destruct (getConnectionId_spec w) as (c & w0 & Hc & Hne & Hcur & Hh & Hs & Hm).
  assert (Hinv0 : store_invariant w0).
  { apply (invariant_same_maps w); [done..|]. by rewrite Hh. }
  destruct (getOrCreate_row c w0 Hinv0)
    as (copy & w2 & r & Hg & Hb & Hr & Hrow & Hcopy & Hcur2).
  rewrite Hcur in Hcur2.
  assert (He : ensureContext w
               = (Returned (session_fields (deref (heap w2) r)), w2)).
  { unfold ensureContext, bind. rewrite Hc, Hg. cbn.
    change (mkContext _ _ _ _ _) with (session_fields (deref (heap w2) copy)).
    by rewrite Hcopy, <- Hrow. }
  unfold coalesceContext, bind. rewrite He.
  destruct (negb (truthy input) || negb (typeof_object input)).
  { exists c, (session_fields (deref (heap w2) r)), w2, r. done. }
  destruct (tracks_fields (deref (heap w2) r) input) as [Hbase Hupd].
  destruct (hasUpdates _) eqn:Hhas.
  - rewrite (getConnectionId_known w2 c Hcur2 Hne).
    rewrite (update_bound c _ w2 r Hb). cbv zeta.
    eexists c, _, _, r. split; [reflexivity|]. cbn.
    split; [done|]. split; [done|]. split; [done|].
    rewrite length_app, !length_insert. split; [lia|].
    unfold deref at 1. rewrite lookup_app_l by (by rewrite !length_insert).
    rewrite list_lookup_insert_eq by (by rewrite length_insert).
    cbn. unfold deref at 1.
    rewrite list_lookup_insert_eq by done. cbn.
    rewrite Hbase. reflexivity.
  - exists c, (base (coalesce_fields input
                       (mkCoalesce (session_fields (deref (heap w2) r))
                          no_updates false))), w2, r.
    split; [reflexivity|]. split; [done|]. split; [done|]. split; [done|].
    split; [done|].
    rewrite Hbase, (Hupd eq_refl). by destruct (deref (heap w2) r).
Qed.

(** X9.  What [coalesceContext] returns is what the store holds afterwards:
    the row bound to the current connection has exactly the five fields of
    the returned context, so overrides taken from a submitted context are
    persisted. *)
Theorem coalesceContext_persists (input : value) (w : World)
    (Hinv : store_invariant w) :
  exists c ctx w3 r,
    coalesceContext input w = (Returned ctx, w3)
    /\ currentConnectionId w3 = Some c
    /\ SessionManager.bound w3 c = Some r
    /\ session_fields (deref (heap w3) r) = ctx.
Proof.
  destruct (coalesceContext_row input w Hinv)
    as (c & ctx & w3 & r & Hrun & Hcur & Hne & Hb & Hr & Hrow).
  by exists c, ctx, w3, r.
Qed.

Lemma coalesce_fields_not_object later st :
  (forall props, later <> VObject props) ->
  base (coalesce_fields later st) = base st.
Proof.
  intros Hnot. rewrite coalesce_fields_base.
  destruct later as [| |b|n|s|items|props|]; cbn; try (by destruct (base st)).
  by destruct (Hnot props).
Qed.

(** X10.  The context is sticky: after any call of [coalesceContext], a
    further call whose input is not an object (absent, null, a primitive,
    an array) returns the context of the earlier call. *)
Theorem context_is_sticky (input later : value) (w : World)
    (Hinv : store_invariant w)
    (Hlater : forall props, later <> VObject props) :
  exists ctx w3,
    coalesceContext input w = (Returned ctx, w3)
    /\ result_of (coalesceContext later) w3 = Returned ctx.
Proof.
  destruct (coalesceContext_row input w Hinv)
    as (c & ctx & w3 & r & Hrun & Hcur & Hne & Hb & Hr & Hrow).
  exists ctx, w3. split; [done|].
  destruct (coalesceContext_returns later w3) as (c' & w0 & w4 & Hc & Hlat).
  rewrite (getConnectionId_known w3 c Hcur Hne) in Hc.
  injection Hc as <- <-.
  unfold result_of. rewrite Hlat. cbn [fst].
  rewrite (coalesce_fields_not_object later _ Hlater). cbn [base].
  assert (Hctx : bound_context w3 c = ctx).
  { unfold bound_context. by rewrite Hb. }
  rewrite Hctx. by destruct (truthy later && typeof_object later).
Qed.

Import Schema.

Ltac each_kw :=
  repeat first [ apply List.Forall_nil | apply List.Forall_cons ].

Lemma context_value_valid ctx q :
  c_budget_tokens ctx = Finite q -> Qle_bool 0 q = true ->
  valid contextSchema (context_value ctx) = true.
Proof.
  intros Hbudget Hq. destruct ctx as [sid uid l budget ten].
  cbn in Hbudget. subst budget.
  apply valid_Forall. unfold contextSchema, context_value. each_kw.
  - reflexivity.
  - apply check_properties. intros key s x Hin Hx.
    cbn [c_session_id c_user_id c_lang c_budget_tokens c_tenant] in Hx.
    repeat (apply elem_of_cons in Hin as [Hin | Hin]);
      [.. | by apply elem_of_nil in Hin]; injection Hin as -> ->;
      vm_compute in Hx; injection Hx as <-.
    + reflexivity.
    + by destruct uid.
    + by destruct ten.
    + by destruct l.
    + cbn. by rewrite Hq.
  - apply check_required. intros key Hin.
    repeat (apply elem_of_cons in Hin as [Hin | Hin]);
      [.. | by apply elem_of_nil in Hin]; subst key; vm_compute; eauto.
  - apply check_no_additional. intros key [x Hx].
    cbn [declared_properties flat_map fst fmap list_fmap app].
    repeat (apply lookup_insert_Some in Hx as [[<- _] | [_ Hx]];
            [set_solver|]).
    by rewrite lookup_empty in Hx.
Qed.

(** X11.  When the stored budgets are finite and non-negative, the
    context [coalesceContext] returns, written as the object of the request
    body, satisfies [contextSchema]: the bridge forwards contexts of the
    shape it asks of its callers. *)
Theorem forwarded_context_is_valid (input : value) (w : World)
    (Hinv : store_invariant w) (Hbudgets : budgets_ok w) :
  exists ctx w3,
    coalesceContext input w = (Returned ctx, w3)
    /\ valid contextSchema (context_value ctx) = true.
Proof.
  destruct (coalesceContext_returns input w) as (c & w0 & w3 & Hc & Hrun).
  eexists _, w3. split; [exact Hrun|].
  destruct (getConnectionId_spec w) as (c' & w0' & Hc' & _ & _ & Hh & Hs & Hm).
  rewrite Hc in Hc'. injection Hc' as <- <-.
  assert (Hb : exists q, c_budget_tokens (bound_context w0 c) = Finite q
                         /\ Qle_bool 0 q = true).
  { unfold bound_context.
    destruct (SessionManager.bound w0 c) as [r|] eqn:Hb; [|by exists 0%Q].
    apply bound_Some in Hb as (sid & _ & _ & Hrow).
    rewrite Hs in Hrow. rewrite Hh. apply (Hbudgets sid r Hrow). }
  destruct Hb as (q & Hq & Hle).
  destruct (truthy input && typeof_object input);
    [|by apply (context_value_valid _ q)].
  rewrite coalesce_fields_base. cbn [base].
  destruct (ToNumber (get_prop input (lit "budget_tokens"))) as [|neg|q'] eqn:Hn;
    try (by apply (context_value_valid _ q)).
  destruct (Qle_bool 0 q') eqn:Hle'.
  - by apply (context_value_valid _ q').
  - by apply (context_value_valid _ q).
Qed.


End EyesMore.

Lemma sample_store_budgets : budgets_ok sample_store.
Proof.
  intros sid r Hr. exists 0%Q.
  destruct (sample_store_rows sid r Hr) as [-> | ->];
    (split; [vm_compute; reflexivity | reflexivity]).
Qed.

Lemma coalesceContext_persists_witness :
  store_invariant sample_store
  /\ exists c ctx w3 r,
       @Eyes.coalesceContext sample_host alice_context sample_store
       = (Returned ctx, w3)
       /\ currentConnectionId w3 = Some c
       /\ SessionManager.bound w3 c = Some r
       /\ session_fields (deref (heap w3) r) = ctx.
Proof.
  split; [apply sample_store_invariant|].
  apply (@coalesceContext_persists sample_host alice_context sample_store
           sample_store_invariant).
Defined.

Lemma context_is_sticky_witness :
  store_invariant sample_store
  /\ (forall props, VUndefined <> VObject props)
  /\ exists ctx w3,
       @Eyes.coalesceContext sample_host alice_context sample_store
       = (Returned ctx, w3)
       /\ result_of (@Eyes.coalesceContext sample_host VUndefined) w3
          = Returned ctx.
Proof.
  assert (Hnot : forall props, VUndefined <> VObject props)
    by (intros props Hp; discriminate Hp).
  split; [apply sample_store_invariant|]. split; [exact Hnot|].
  apply (@context_is_sticky sample_host alice_context VUndefined sample_store
           sample_store_invariant Hnot).
Defined.

Lemma forwarded_context_is_valid_witness :
  store_invariant sample_store /\ budgets_ok sample_store
  /\ exists ctx w3,
       @Eyes.coalesceContext sample_host alice_context sample_store
       = (Returned ctx, w3)
       /\ Schema.valid Schema.contextSchema (Eyes.context_value ctx) = true.
Proof.
  split; [apply sample_store_invariant|].
  split; [apply sample_store_budgets|].
  apply (@forwarded_context_is_valid sample_host alice_context sample_store
           sample_store_invariant sample_store_budgets).
Defined.

(** ** More on the storage format and the schema *)

Section FormatMore.
Import Encryption.

(** X12.  Reading a stored buffer and writing it back gives the same
    bytes.  A buffer of fewer than 60 bytes is refused with
    [Invalid encrypted data: buffer too short]; any other buffer is split
    into a 32-byte salt, a 12-byte iv, a 16-byte tag and the rest, and
    [serializeEncrypted] of these parts is the buffer again. *)
Theorem deserialize_serialize_roundtrip (buffer : Buffer) :
  if (length buffer <? 60)%nat then
    deserializeEncrypted buffer
    = Thrown (lit "Invalid encrypted data: buffer too short")
  else
    exists data,
      deserializeEncrypted buffer = Returned data
      /\ length (salt data) = 32%nat /\ length (iv data) = 12%nat
      /\ length (tag data) = 16%nat
      /\ length (encrypted data) = (length buffer - 60)%nat
      /\ serializeEncrypted data = buffer.
Proof.
  unfold deserializeEncrypted.
  change (SALT_LENGTH + IV_LENGTH + TAG_LENGTH)%nat with 60%nat.
  destruct (length buffer <? 60)%nat eqn:Hlen; [reflexivity|].
  apply Nat.ltb_ge in Hlen.
  eexists. split; [reflexivity|].
  unfold subarray, subarray_from, SALT_LENGTH, IV_LENGTH, TAG_LENGTH.
  cbn [salt iv tag encrypted].
  rewrite !length_take, !length_drop.
  repeat split; try lia.
  unfold serializeEncrypted, Buffer_concat.
  cbn [salt iv tag encrypted concat]. rewrite app_nil_r.
  change (0 + 32 - 0)%nat with 32%nat.
  change (0 + 32 + 12 - (0 + 32))%nat with 12%nat.
  change (0 + 32 + 12 + 16 - (0 + 32 + 12))%nat with 16%nat.
  rewrite drop_0.
  assert (H3 : take 16 (drop (0 + 32 + 12) buffer)
               ++ drop (0 + 32 + 12 + 16) buffer
               = drop (0 + 32 + 12) buffer).
  { rewrite <- (drop_drop buffer 16 (0 + 32 + 12)). apply take_drop. }
  rewrite H3.
  assert (H2 : take 12 (drop (0 + 32) buffer) ++ drop (0 + 32 + 12) buffer
               = drop (0 + 32) buffer).
  { rewrite <- (drop_drop buffer 12 (0 + 32)). apply take_drop. }
  rewrite H2. apply take_drop.
Qed.

End FormatMore.

Section SchemaMore.
Import Schema.

Ltac in_list := repeat first [ by left | right ].

(** X13.  An [intent] with a line terminator in it is refused by the input
    schema, however long it is: the pattern [^.{5,}$] has to match the
    whole string and [.] matches no line terminator. *)
Theorem multiline_intent_rejected (args : value) (s : jsstring) (c : N)
    (Hintent : get_prop (get_prop args (lit "payload")) (lit "intent")
               = VString s)
    (Hc : c ∈ s) (Hline : is_line_terminator c = true) :
  valid inputSchema args = false.
Proof.
  apply not_true_is_false. intros Hv.
  apply get_prop_VString in Hintent as (pp & Hpayload & Hi).
  apply get_prop_VObject in Hpayload as (props & -> & Hp).
  assert (Hvp : valid payloadSchema (VObject pp) = true).
  { eapply (valid_property inputSchema _ (lit "payload"));
      [in_list | in_list | done | done]. }
  assert (Hvi : valid intentSchema (VString s) = true).
  { eapply (valid_property payloadSchema _ (lit "intent"));
      [in_list | in_list | done | done]. }
  apply (valid_keyword _ (pattern re_5_or_more)) in Hvi; [|in_list].
  cbn [check] in Hvi. unfold re_5_or_more in Hvi.
  apply andb_true_iff in Hvi as [_ Hall].
  rewrite forallb_forall in Hall.
  apply list_elem_of_In in Hc. specialize (Hall c Hc).
  by rewrite Hline in Hall.
Qed.

End SchemaMore.

Lemma multiline_intent_rejected_witness :
  get_prop (get_prop multiline_submission (lit "payload")) (lit "intent")
  = VString multiline_intent
  /\ 10%N ∈ multiline_intent
  /\ is_line_terminator 10 = true
  /\ Schema.valid Schema.inputSchema multiline_submission = false.
Proof.
  assert (Hintent : get_prop (get_prop multiline_submission (lit "payload"))
                      (lit "intent") = VString multiline_intent)
    by (vm_compute; reflexivity).
  assert (Hc : 10%N ∈ multiline_intent).
  { apply list_elem_of_In. vm_compute. tauto. }
  split; [exact Hintent|]. split; [exact Hc|]. split; [reflexivity|].
  apply (multiline_intent_rejected multiline_submission multiline_intent 10
           Hintent Hc).
  reflexivity.
Defined.

(** ** The tool call and the instructions *)

Section ToolFacts.
Context `{Host}.
Variables (API_URL API_KEY : jsstring).
Variable fetch : Tool.FetchRequest -> outcome Tool.Response.
Variable JSON_stringify : value -> jsstring.
Import Eyes Tool.

#[local] Abbreviation callEye := (Tool.callEye API_URL API_KEY fetch JSON_stringify).
#[local] Abbreviation buildEyes := (Tool.buildEyes API_URL API_KEY fetch JSON_stringify).

Lemma generateTraceId_returns w :
  exists traceId,
    generateTraceId w
    = (Returned traceId,
       mkWorld (heap w) (sessions w) (connectionToSession w)
         (currentConnectionId w) (S (ticks w)) (S (draws w))).
Proof. eexists. reflexivity. Qed.

(** [callEye] changes the world as building the request does, whatever
    the server answers; its result is decided by the answer. *)
Lemma callEye_run path body w :
  exists traceId ctx fp,
    callEye_finalPayload path body w
    = (Returned fp, world_after (callEye_finalPayload path body) w)
    /\ fp !! lit "context" = Some (context_value ctx)
    /\ world_after (callEye path body) w
       = world_after (callEye_finalPayload path body) w
    /\ result_of (callEye path body) w
       = match
           fetch
             (mkFetchRequest (API_URL ++ path)
                (let headers :=
                   <[lit "X-Trace-Id" := traceId]>
                     (<[lit "content-type" := lit "application/json"]> ∅) in
                 if SessionManager.nonempty API_KEY
                 then <[lit "X-API-Key" := API_KEY]> headers
                 else headers)
                fp)
         with
         | Thrown e => Thrown e
         | Returned response =>
             if negb (ok response) then
               Thrown (lit "Eye request failed (" ++ index_key (status response)
                       ++ lit "): " ++ text response)
             else
               match json response with
               | Thrown e => Thrown e
               | Returned payload =>
                   Returned
                     (mkToolResult
                        (VObject
                           (<[lit "content" :=
                                VArray
                                  [VObject
                                     (<[lit "type" := VString (lit "text")]>
                                        (<[lit "text" :=
                                             VString (JSON_stringify payload)]>
                                           ∅))]]>
                              (<[lit "structuredContent" := payload]> ∅)))
                        (if bool_decide (path = lit "/eyes/overseer/navigator")
                         then
                           if SessionManager.nonempty (c_session_id ctx)
                           then Portal.launchPortal (c_session_id ctx) true
                           else None
                         else None))
               end
         end.
Proof.
  destruct (generateTraceId_returns w) as [traceId Htrace].
  set (w1 := mkWorld _ _ _ _ _ _) in Htrace.
  destruct (coalesceContext_returns
              (default VUndefined (extractEnvelope body !! lit "context")) w1)
    as (c & w0 & w3 & _ & Hctx).
  match type of Hctx with _ = (Returned ?x, _) => set (ctx := x) in Hctx end.
  assert (Hlook : forall (m : gmap jsstring value),
            (if negb (truthy (default VUndefined
                                (<[lit "context" := context_value ctx]> m
                                   !! lit "payload")))
                || negb (typeof_object
                           (default VUndefined
                              (<[lit "context" := context_value ctx]> m
                                 !! lit "payload")))
             then <[lit "payload" := VObject ∅]>
                    (<[lit "context" := context_value ctx]> m)
             else <[lit "context" := context_value ctx]> m) !! lit "context"
            = Some (context_value ctx)).
  { intros m. destruct (_ || _).
    - rewrite lookup_insert_ne by (symmetry; apply context_ne_payload).
      apply lookup_insert_eq.
    - apply lookup_insert_eq. }
  eexists traceId, ctx, _.
  unfold world_after, result_of, Tool.callEye, callEye_finalPayload, bind.
  rewrite Htrace, Hctx. cbn [fst snd ret]. cbv zeta.
  split; [reflexivity|].
  split; [by rewrite lookup_insert_eq, Hlook|].
  destruct (fetch _) as [response | e]; [|split; reflexivity].
  destruct (ok response); cbn [negb]; [|split; reflexivity].
  destruct (json response) as [payload | e]; [|split; reflexivity].
  cbn [throw ret fst snd]. split; [reflexivity|].
  rewrite Hlook. cbn [default from_option id].
  replace (get_prop (context_value ctx) (lit "session_id"))
    with (VString (c_session_id ctx)) by (by destruct ctx).
  reflexivity.
Qed.

(** X14.  When the server answers with a status that is not ok, [callEye]
    throws [Eye request failed (<status>): <body text>]; the session store
    has by then been updated exactly as for a request that succeeds, so a
    context submitted with a failing call is kept. *)
Theorem callEye_failure (path : jsstring) (body : gmap jsstring value)
    (w : World) (response : Response)
    (Hfetch : forall req, fetch req = Returned response)
    (Hok : ok response = false) :
  callEye path body w
  = (Thrown (lit "Eye request failed (" ++ index_key (status response)
             ++ lit "): " ++ text response),
     world_after (callEye_finalPayload path body) w).
Proof.
  destruct (callEye_run path body w)
    as (traceId & ctx & fp & _ & _ & Hw & Hres).
  rewrite Hfetch, Hok in Hres. cbn [negb] in Hres.
  unfold world_after, result_of in *.
  destruct (callEye path body w) as [o w']. cbn [fst snd] in *. congruence.
Qed.

Lemma orchestrate_is_not_navigator :
  lit "/eyes/overseer/orchestrate" <> lit "/eyes/overseer/navigator".
Proof. intros Heq. vm_compute in Heq. discriminate Heq. Qed.

(** X15.  [buildEyes] forgets the connection id and registers a single
    tool, [third-eye/oversee], with the input schema; the handler of that
    tool never starts a portal process, whatever the arguments, the state
    and the server's answer are. *)
Theorem oversee_never_opens_portal (w : World) :
  exists tool,
    buildEyes w = (Returned [tool], set_currentConnectionId None w)
    /\ name tool = lit "third-eye/oversee"
    /\ inputSchema tool = Schema.inputSchema
    /\ forall args w1 result,
         result_of (handler tool args) w1 = Returned result ->
         spawned result = None.
Proof.
  eexists. split; [reflexivity|]. cbn [name inputSchema handler].
  split; [reflexivity|]. split; [reflexivity|].
  intros args w1 result Hres.
  destruct (callEye_run (lit "/eyes/overseer/orchestrate") args w1)
    as (traceId & ctx & fp & _ & _ & _ & Hrun).
  rewrite Hrun in Hres.
  destruct (fetch _) as [response | e]; [|discriminate Hres].
  destruct (negb (ok response)); [discriminate Hres|].
  destruct (json response) as [payload | e]; [|discriminate Hres].
  injection Hres as <-. cbn [spawned].
  case_bool_decide as Heq; [|reflexivity].
  destruct (orchestrate_is_not_navigator Heq).
Qed.

(** *** The instructions *)

Lemma connection_id_is_not_default t rnd :
  connection_id_of t rnd <> DynamicInstructions.getConnectionId.
Proof.
  unfold connection_id_of, DynamicInstructions.getConnectionId.
  intros Heq.
  change (lit "conn-") with [99%N; 111%N; 110%N; 110%N; 45%N] in Heq.
  change (lit "default-connection")
    with (100%N :: List.tl (lit "default-connection")) in Heq.
  cbn [app] in Heq. injection Heq as Hc _. discriminate Hc.
Qed.

Lemma getConnectionId_not_default w :
  default_connection_unused w ->
  exists c w0,
    getConnectionId w = (Returned c, w0)
    /\ c <> [] /\ c <> DynamicInstructions.getConnectionId
    /\ currentConnectionId w0 = Some c
    /\ heap w0 = heap w /\ sessions w0 = sessions w
    /\ connectionToSession w0 = connectionToSession w.
Proof.
  intros [_ Hcur]. unfold getConnectionId.
  destruct (currentConnectionId w) as [[|a c]|] eqn:Hc.
  - eexists _, _. split; [reflexivity|]. cbn.
    split; [apply connection_id_of_nonempty|].
    split; [apply connection_id_is_not_default | done].
  - exists (a :: c), w. split; [done|]. split; [done|].
    split; [congruence | done].
  - eexists _, _. split; [reflexivity|]. cbn.
    split; [apply connection_id_of_nonempty|].
    split; [apply connection_id_is_not_default | done].
Qed.

Lemma coalesceContext_keeps_default_unused input w :
  default_connection_unused w ->
  default_connection_unused (world_after (coalesceContext input) w).
Proof.
  intros Hunused.
  destruct (getConnectionId_not_default w Hunused)
    as (c & w0 & Hc & Hne & Hnd & Hcur & Hh & Hs & Hm).
  destruct Hunused as [Hmap _].
  assert (H2 : exists copy w2 r,
             SessionManager.getOrCreate c w0 = (Returned copy, w2)
             /\ SessionManager.bound w2 c = Some r
             /\ currentConnectionId w2 = Some c
             /\ connectionToSession w2 !! DynamicInstructions.getConnectionId
                = None).
  { destruct (SessionManager.bound w0 c) as [r|] eqn:Hb.
    - rewrite (getOrCreate_bound c w0 r Hb). eexists _, _, r.
      split; [reflexivity|]. cbn. split; [done|]. split; [done|].
      by rewrite Hm.
    - rewrite (getOrCreate_unbound c w0 Hb). eexists _, _, _.
      split; [reflexivity|]. cbn. split.
      { apply bound_Some. exists (minted_session_id w0). cbn.
        rewrite !lookup_insert_eq.
        split; [done|]. split; [apply session_id_of_nonempty | done]. }
      split; [done|]. rewrite lookup_insert_ne by done. by rewrite Hm. }
  destruct H2 as (copy & w2 & r & Hg & Hb & Hcur2 & Hmap2).
  unfold world_after, coalesceContext, ensureContext, bind.
  rewrite Hc, Hg. cbn [load ret fst snd].
  destruct (negb (truthy input) || negb (typeof_object input)).
  { cbn. split; [done|]. rewrite Hcur2. intros [= Heq]. by apply Hnd. }
  destruct (hasUpdates _).
  - rewrite (getConnectionId_known w2 c Hcur2 Hne).
    rewrite (update_bound c _ w2 r Hb). cbn.
    split; [done|]. rewrite Hcur2. intros [= Heq]. by apply Hnd.
  - cbn. split; [done|]. rewrite Hcur2. intros [= Heq]. by apply Hnd.
Qed.

Lemma callEye_keeps_default_unused path body w :
  default_connection_unused w ->
  default_connection_unused (world_after (callEye path body) w).
Proof.
  intros Hunused.
  destruct (callEye_run path body w) as (traceId0 & ctx & fp & _ & _ & -> & _).
  unfold world_after, callEye_finalPayload, bind.
  destruct (generateTraceId_returns w) as [traceId ->].
  set (w1 := mkWorld _ _ _ _ _ _).
  assert (H1 : default_connection_unused w1) by exact Hunused.
  pose proof (coalesceContext_keeps_default_unused
                (default VUndefined (extractEnvelope body !! lit "context"))
                w1 H1) as H3.
  unfold world_after in H3.
  destruct (coalesceContext _ w1) as [[ctx' | e] w3]; exact H3.
Qed.

(** X16.  The instructions do not follow the session: when the connection
    id of dynamic-instructions.ts is unused (as at start-up), it stays
    unused through every run of tool calls, and [getDynamicInstructions]
    returns the text for a missing session and leaves the store as it
    is. *)
Theorem instructions_ignore_sessions
    (calls : list (jsstring * gmap jsstring value)) (w : World)
    (Hunused : default_connection_unused w) :
  let w' := tool_calls API_URL API_KEY fetch JSON_stringify calls w in
  DynamicInstructions.getDynamicInstructions w'
  = (Returned DynamicInstructions.no_session_instructions, w').
Proof.
  cbv zeta. revert w Hunused.
  induction calls as [|[path body] calls IH]; intros w Hunused.
  - cbn [tool_calls]. destruct Hunused as [Hmap _].
    unfold DynamicInstructions.getDynamicInstructions.
    rewrite get_unbound; [done|].
    unfold SessionManager.bound. by rewrite Hmap.
  - cbn [tool_calls]. apply IH. by apply callEye_keeps_default_unused.
Qed.

End ToolFacts.

Lemma callEye_failure_witness :
  (forall req, failing_fetch req = Returned sample_failure)
  /\ Tool.ok sample_failure = false
  /\ @Tool.callEye sample_host sample_api_url [] failing_fetch sample_stringify
       orchestrate_path relaxed_body empty_world
     = (Thrown (lit "Eye request failed (" ++ index_key 422 ++ lit "): "
                ++ lit "reasoning_md is required"),
        world_after (@Eyes.callEye_finalPayload sample_host orchestrate_path
                       relaxed_body) empty_world).
Proof.
  split; [reflexivity|]. split; [reflexivity|].
  apply (@callEye_failure sample_host sample_api_url [] failing_fetch
           sample_stringify orchestrate_path relaxed_body empty_world
           sample_failure (fun req => eq_refl) eq_refl).
Defined.

Lemma instructions_ignore_sessions_witness :
  default_connection_unused empty_world
  /\ @DynamicInstructions.getDynamicInstructions sample_host
       (@tool_calls sample_host sample_api_url [] failing_fetch sample_stringify
          [(orchestrate_path, relaxed_body)] empty_world)
     = (Returned DynamicInstructions.no_session_instructions,
        @tool_calls sample_host sample_api_url [] failing_fetch sample_stringify
          [(orchestrate_path, relaxed_body)] empty_world).
Proof.
  assert (Hunused : default_connection_unused empty_world).
  { split; [reflexivity | intros Hcur; discriminate Hcur]. }
  split; [exact Hunused|].
  apply (@instructions_ignore_sessions sample_host sample_api_url []
           failing_fetch sample_stringify [(orchestrate_path, relaxed_body)]
           empty_world Hunused).
Defined.

(** ** Encrypting and decrypting provider keys *)

Section CipherFacts.
Import Encryption Cipher.

Variable encryptionKey : option jsstring.
Variable randomBytes : nat -> nat -> Buffer.
Variable pbkdf2Sync : jsstring -> Buffer -> Buffer.
Variable aes_256_gcm_encrypt : Buffer -> Buffer -> Buffer -> outcome (Buffer * Buffer).
Variable aes_256_gcm_decrypt :
  Buffer -> Buffer -> Buffer -> Buffer -> outcome Buffer.
Variable utf8_encode : jsstring -> Buffer.
Variable utf8_decode : Buffer -> jsstring.

#[local] Abbreviation getEncryptionKey :=
  (Cipher.getEncryptionKey encryptionKey randomBytes).
#[local] Abbreviation encrypt :=
  (Cipher.encrypt encryptionKey randomBytes pbkdf2Sync aes_256_gcm_encrypt
     utf8_encode).
#[local] Abbreviation decrypt :=
  (Cipher.decrypt encryptionKey randomBytes pbkdf2Sync aes_256_gcm_decrypt
     utf8_decode).
#[local] Abbreviation encryptForStorage :=
  (Cipher.encryptForStorage encryptionKey randomBytes pbkdf2Sync
     aes_256_gcm_encrypt utf8_encode).
#[local] Abbreviation decryptFromStorage :=
  (Cipher.decryptFromStorage encryptionKey randomBytes pbkdf2Sync
     aes_256_gcm_decrypt utf8_decode).
#[local] Abbreviation testEncryption :=
  (Cipher.testEncryption encryptionKey randomBytes pbkdf2Sync
     aes_256_gcm_encrypt aes_256_gcm_decrypt utf8_encode utf8_decode).

Lemma getEncryptionKey_configured key draws :
  encryptionKey = Some key -> key <> [] ->
  getEncryptionKey draws = (key, draws).
Proof.
  intros Hkey Hne. unfold Cipher.getEncryptionKey. rewrite Hkey.
  by destruct key.
Qed.

(** With a configured master key, what [encrypt] returns has a salt of 32
    bytes and an iv of 12 bytes, and [decrypt] gives the plaintext back. *)
Lemma encrypt_decrypt key plaintext draws data draws' :
  encryptionKey = Some key -> key <> [] ->
  (forall k n, length (randomBytes k n) = n) ->
  (forall k iv pt ct tag,
     aes_256_gcm_encrypt k iv pt = Returned (ct, tag) ->
     length tag = 16%nat /\ aes_256_gcm_decrypt k iv tag ct = Returned pt) ->
  utf8_decode (utf8_encode plaintext) = plaintext ->
  encrypt plaintext draws = (Returned data, draws') ->
  length (salt data) = 32%nat /\ length (iv data) = 12%nat
  /\ length (tag data) = 16%nat
  /\ forall draws2, decrypt data draws2 = (Returned plaintext, draws2).
Proof.
  intros Hkey Hne Hrand Hcipher Hutf8 Henc.
  unfold Cipher.encrypt in Henc.
  rewrite (getEncryptionKey_configured key draws Hkey Hne) in Henc.
  destruct (aes_256_gcm_encrypt _ _ _) as [[ct tg] | message] eqn:Hct;
    [|discriminate Henc].
  injection Henc as <- <-. cbn [salt iv tag encrypted].
  destruct (Hcipher _ _ _ _ _ Hct) as [Htag Hdec].
  split; [apply Hrand|]. split; [apply Hrand|]. split; [exact Htag|].
  intros draws2. unfold Cipher.decrypt.
  rewrite (getEncryptionKey_configured key draws2 Hkey Hne).
  cbn [salt iv tag encrypted]. rewrite Hdec. by rewrite Hutf8.
Qed.


(** X18.  Under the same assumptions [testEncryption] passes exactly when
    the cipher accepts the test data. *)
Theorem testEncryption_passes (key : jsstring) (draws : nat)
    (Hkey : encryptionKey = Some key) (Hne : key <> [])
    (Hrand : forall k n, length (randomBytes k n) = n)
    (Hcipher : forall k iv pt ct tag,
       aes_256_gcm_encrypt k iv pt = Returned (ct, tag) ->
       length tag = 16%nat /\ aes_256_gcm_decrypt k iv tag ct = Returned pt)
    (Hutf8 : utf8_decode (utf8_encode (lit "test-api-key-12345"))
             = lit "test-api-key-12345") :
  (testEncryption draws).1
  = match (encrypt (lit "test-api-key-12345") draws).1 with
    | Returned _ => true
    | Thrown _ => false
    end.
Proof.
  unfold Cipher.testEncryption.
  destruct (encrypt (lit "test-api-key-12345") draws)
    as [[data | message] draws'] eqn:Henc; [|reflexivity].
  destruct (encrypt_decrypt key _ draws data draws' Hkey Hne Hrand
              Hcipher Hutf8 Henc) as (Hs & Hi & Ht & Hdec).
  rewrite Hdec. rewrite bool_decide_eq_true_2 by done. cbn [negb].
  assert (Hlayout : deserializeEncrypted (serializeEncrypted data)
                    = Returned data).
  { unfold serializeEncrypted, Buffer_concat. cbn [concat].
    rewrite app_nil_r. rewrite deserialize_layout by done. by destruct data. }
  rewrite Hlayout, Hdec. by rewrite bool_decide_eq_true_2 by done.
Qed.

(** *** Key strength *)

Variables toLowerCase toUpperCase : jsstring -> jsstring.

#[local] Abbreviation validateEncryptionKey :=
  (Cipher.validateEncryptionKey toLowerCase toUpperCase).

Lemma letter_is_no_digit c : is_letter c = true -> is_digit c = false.
Proof.
  unfold is_letter, is_digit. intros Hl.
  apply andb_false_iff.
  apply orb_true_iff in Hl as [Hl | Hl];
    apply andb_true_iff in Hl as [H1 H2];
    apply N.leb_le in H1; apply N.leb_le in H2;
    right; apply N.leb_gt; lia.
Qed.

Lemma repetitive_one_kind units :
  repetitive units = true ->
  existsb is_letter units = true -> existsb is_digit units = false.
Proof.
  destruct units as [|c [|c' rest]]; try discriminate.
  intros Hrep Hlet. apply andb_true_iff in Hrep as [_ Hall].
  rewrite forallb_forall in Hall.
  assert (Hsame : forall x, In x (c :: c' :: rest) -> x = c).
  { intros x [<- | Hx]; [done|]. symmetry. by apply N.eqb_eq, Hall. }
  apply existsb_exists in Hlet as (x & Hx & Hlx).
  rewrite (Hsame x Hx) in Hlx.
  apply not_true_is_false. intros Hdig.
  apply existsb_exists in Hdig as (y & Hy & Hdy).
  rewrite (Hsame y Hy) in Hdy.
  by rewrite (letter_is_no_digit c Hlx) in Hdy.
Qed.

(** X19.  A key is valid exactly when it has at least 64 UTF-16 code
    units, a letter and a digit among them, and differs from both its
    lower-case and its upper-case form.  The 32-character minimum and the
    repetition check never decide validity. *)
Theorem key_validity (key : jsstring) :
  valid (validateEncryptionKey key) = true
  <-> (64 <= length (code_units key))%nat
      /\ existsb is_letter (code_units key) = true
      /\ existsb is_digit (code_units key) = true
      /\ key <> toLowerCase key /\ key <> toUpperCase key.
Proof.
  unfold Cipher.validateEncryptionKey. cbv zeta. cbn [valid].
  pose proof (repetitive_one_kind (code_units key)) as Hrep.
  destruct (Nat.ltb_spec (length (code_units key)) 32) as [H32 | H32];
    destruct (Nat.ltb_spec (length (code_units key)) 64) as [H64 | H64];
    try lia;
    destruct (existsb is_letter (code_units key)) eqn:Hlet;
    destruct (existsb is_digit (code_units key)) eqn:Hdig;
    destruct (repetitive (code_units key)) eqn:Hr;
    try (by specialize (Hrep eq_refl eq_refl));
    do 2 case_bool_decide; cbn;
    (split; [try discriminate | intros (? & ? & ? & ? & ?); try done; try lia]).
  by repeat split.
Qed.

(** The hexadecimal digits [0-9a-f]. *)
Lemma toHex_digits buffer :
  Forall (fun c => (48 <= c <= 57)%N \/ (97 <= c <= 102)%N) (toHex buffer).
Proof.
  assert (Hdigit : forall d, (d < 16)%N ->
            (48 <= hex_digit d <= 57)%N \/ (97 <= hex_digit d <= 102)%N).
  { intros d Hd. unfold hex_digit.
    destruct (N.ltb_spec d 10); [left | right]; lia. }
  induction buffer as [|b buffer IH]; [constructor|].
  unfold toHex. cbn [flat_map app].
  constructor; [|constructor; [|exact IH]].
  - apply Hdigit. pose proof (Byte.to_N_bounded b) as Hb.
    apply N.Div0.div_lt_upper_bound. lia.
  - apply Hdigit. apply N.mod_lt. lia.
Qed.

(** X20.  The key that [getEncryptionKey] generates when none is
    configured never passes [validateEncryptionKey]: being hexadecimal in
    lower case, it is reported as lacking mixed case. *)
Theorem generated_key_is_rejected (draws : nat)
    (Hunset : forall key, encryptionKey = Some key -> key = [])
    (Hlower : forall s,
       Forall (fun c => (48 <= c <= 57)%N \/ (97 <= c <= 102)%N) s ->
       toLowerCase s = s) :
  let key := (getEncryptionKey draws).1 in
  key = toHex (randomBytes draws 32)
  /\ valid (validateEncryptionKey key) = false
  /\ lit "Key should contain mixed case" ∈ issues (validateEncryptionKey key).
Proof.
  cbv zeta.
  assert (Hk : (getEncryptionKey draws).1 = toHex (randomBytes draws 32)).
  { unfold Cipher.getEncryptionKey.
    destruct encryptionKey as [[|c key]|] eqn:Hkey; try reflexivity.
    discriminate (Hunset _ eq_refl). }
  rewrite Hk. split; [reflexivity|].
  set (key := toHex (randomBytes draws 32)).
  assert (Hsame : key = toLowerCase key).
  { symmetry. apply Hlower, toHex_digits. }
  unfold Cipher.validateEncryptionKey. cbv zeta. cbn [valid issues].
  rewrite (bool_decide_eq_true_2 _ Hsame). cbn [orb].
  split.
  - apply Nat.eqb_neq. rewrite length_app. cbn [length]. lia.
  - apply elem_of_app. right. apply list_elem_of_singleton. reflexivity.
Qed.

End CipherFacts.

Lemma toy_cipher_inverts k iv pt ct tag :
  toy_encrypt k iv pt = Returned (ct, tag) ->
  length tag = 16%nat /\ toy_decrypt k iv tag ct = Returned pt.
Proof.
  intros [= <- <-]. split; [reflexivity|].
  unfold toy_decrypt. by rewrite rev_involutive.
Qed.

Lemma toy_randomBytes_length k n : length (toy_randomBytes k n) = n.
Proof. apply repeat_length. Qed.

Lemma ascii_toLowerCase_hex s :
  Forall (fun c => (48 <= c <= 57)%N \/ (97 <= c <= 102)%N) s ->
  ascii_toLowerCase s = s.
Proof.
  induction 1 as [|c s Hc _ IH]; [reflexivity|].
  cbn [ascii_toLowerCase List.map]. fold (ascii_toLowerCase s). rewrite IH.
  replace ((65 <=? c) && (c <=? 90))%N with false; [reflexivity|].
  symmetry. apply andb_false_iff.
  destruct Hc as [Hc | Hc]; [left | right]; apply N.leb_gt; lia.
Qed.


Lemma testEncryption_passes_witness :
  sample_master_key <> []
  /\ toy_utf8_decode (toy_utf8_encode (lit "test-api-key-12345"))
     = lit "test-api-key-12345"
  /\ (Cipher.testEncryption (Some sample_master_key) toy_randomBytes
        toy_pbkdf2Sync toy_encrypt toy_decrypt toy_utf8_encode toy_utf8_decode
        0).1
     = match
         (Cipher.encrypt (Some sample_master_key) toy_randomBytes
            toy_pbkdf2Sync toy_encrypt toy_utf8_encode
            (lit "test-api-key-12345") 0).1
       with
       | Returned _ => true
       | Thrown _ => false
       end.
Proof.
  assert (Hne : sample_master_key <> []) by (intros Hnil; discriminate Hnil).
  assert (Hutf8 : toy_utf8_decode (toy_utf8_encode (lit "test-api-key-12345"))
                  = lit "test-api-key-12345") by (vm_compute; reflexivity).
  split; [exact Hne|]. split; [exact Hutf8|].
  apply (testEncryption_passes (Some sample_master_key) toy_randomBytes
           toy_pbkdf2Sync toy_encrypt toy_decrypt toy_utf8_encode
           toy_utf8_decode sample_master_key 0 eq_refl Hne
           toy_randomBytes_length toy_cipher_inverts Hutf8).
Defined.

Lemma generated_key_is_rejected_witness :
  (forall key, (None : option jsstring) = Some key -> key = [])
  /\ Cipher.valid
       (Cipher.validateEncryptionKey ascii_toLowerCase ascii_toUpperCase
          (Cipher.getEncryptionKey None toy_randomBytes 0).1)
     = false.
Proof.
  assert (Hunset : forall key, (None : option jsstring) = Some key -> key = [])
    by (intros key Hkey; discriminate Hkey).
  split; [exact Hunset|].
  destruct (generated_key_is_rejected None toy_randomBytes ascii_toLowerCase
              ascii_toUpperCase 0 Hunset ascii_toLowerCase_hex)
    as (_ & Hvalid & _).
  exact Hvalid.
Defined.

(** ** Session ids *)

Section IdFacts.
Context `{Host}.
Import SessionManager.

Lemma digits36_no_dash fuel : forall n acc,
  Forall (fun c => c <> 45%N) acc ->
  Forall (fun c => c <> 45%N) (digits36 fuel n acc).
Proof.
  induction fuel as [|fuel IH]; intros n acc Hacc; [done|].
  cbn [digits36].
  assert (Hd : digit36 (n mod 36) <> 45%N).
  { unfold digit36. generalize (n mod 36)%N. intros d.
    destruct (N.ltb_spec d 10); lia. }
  destruct (n <? 36)%N; [by constructor|].
  apply IH. by constructor.
Qed.

Lemma toString36_no_dash t :
  0 <= t -> Forall (fun c => c <> 45%N) (toString36 t).
Proof.
  intros Ht. unfold toString36.
  destruct (Z.ltb_spec t 0) as [Hneg | _]; [lia|].
  apply digits36_no_dash. constructor.
Qed.

Lemma split_at_dash (a : jsstring) : forall a' r r',
  Forall (fun c => c <> 45%N) a -> Forall (fun c => c <> 45%N) a' ->
  a ++ 45%N :: r = a' ++ 45%N :: r' -> a = a' /\ r = r'.
Proof.
  induction a as [|x a IH]; intros [|x' a'] r r' Ha Ha' Heq; cbn in Heq.
  - by injection Heq as ->.
  - injection Heq as <- _. apply Forall_cons in Ha' as [Hx _]. done.
  - injection Heq as -> _. apply Forall_cons in Ha as [Hx _]. done.
  - injection Heq as -> Heq.
    apply Forall_cons in Ha as [_ Ha]. apply Forall_cons in Ha' as [_ Ha'].
    destruct (IH a' r r' Ha Ha' Heq) as [-> ->]. done.
Qed.

(** The random suffix can be read off a session id. *)
Lemma session_id_of_suffix t t' rnd rnd' :
  0 <= t -> 0 <= t' ->
  session_id_of t rnd = session_id_of t' rnd' -> rnd = rnd'.
Proof.
  intros Ht Ht' Heq. unfold session_id_of in Heq.
  apply app_inv_head in Heq.
  change (lit "-") with [45%N] in Heq. cbn [app] in Heq.
  by destruct (split_at_dash _ _ _ _ (toString36_no_dash t Ht)
                 (toString36_no_dash t' Ht') Heq).
Qed.

Lemma minted_is_fresh w :
  (forall n, 0 <= clock n) ->
  (forall i j, random_suffix i = random_suffix j -> i = j) ->
  minted_before w -> sessions w !! minted_session_id w = None.
Proof.
  intros Hclock Hrandom Hminted.
  destruct (sessions w !! minted_session_id w) as [r|] eqn:Hs; [|done].
  destruct (Hminted (minted_session_id w)) as (t & j & Heq & Ht & Hj);
    [by rewrite Hs|].
  unfold minted_session_id in Heq.
  apply session_id_of_suffix in Heq; [|apply Hclock | done].
  apply Hrandom in Heq. lia.
Qed.

Lemma minted_before_weaken w w' :
  minted_before w ->
  (forall sid, is_Some (sessions w' !! sid) -> is_Some (sessions w !! sid)) ->
  (draws w <= draws w')%nat ->
  minted_before w'.
Proof.
  intros Hminted Hs Hd sid Hsid.
  destruct (Hminted sid (Hs sid Hsid)) as (t & j & -> & Ht & Hj).
  exists t, j. split; [done|]. split; [done | lia].
Qed.

Lemma cleanup_sessions c w :
  exists w1,
    cleanup c w = (Returned tt, w1) /\ draws w1 = draws w
    /\ forall sid, is_Some (sessions w1 !! sid) -> is_Some (sessions w !! sid).
Proof.
  unfold cleanup.
  destruct (connectionToSession w !! c) as [sid0|];
    [destruct (nonempty sid0)|]; eexists; (split; [reflexivity|]);
    (split; [reflexivity|]); cbn; try done.
  intros sid. rewrite lookup_delete. by case_decide.
Qed.

Lemma cleanup_each_sessions cs : forall w,
  let w' := world_after (cleanup_each cs) w in
  draws w' = draws w
  /\ forall sid, is_Some (sessions w' !! sid) -> is_Some (sessions w !! sid).
Proof.
  induction cs as [|c cs IH]; intros w; [done|].
  cbv zeta. unfold world_after. cbn [cleanup_each]. unfold bind.
  destruct (cleanup_sessions c w) as (w1 & -> & Hd1 & Hs1).
  destruct (IH w1) as [Hd Hs]. unfold world_after in Hd, Hs.
  split; [congruence|]. intros sid Hsid. by apply Hs1, Hs.
Qed.

Lemma minted_before_perform op w :
  (forall n, 0 <= clock n) ->
  minted_before w -> minted_before (world_after (perform op) w).
Proof.
  intros Hclock Hminted. unfold world_after.
  destruct op as [c | c | c u | c | ]; cbn [perform]; unfold bind.
  - destruct (bound w c) as [r|] eqn:Hb.
    + rewrite (getOrCreate_bound c w r Hb).
      by apply (minted_before_weaken w).
    + rewrite (getOrCreate_unbound c w Hb). cbn.
      intros sid Hsid. cbn in Hsid.
      destruct (decide (sid = minted_session_id w)) as [-> | Hne].
      * exists (clock (ticks w)), (draws w). cbn.
        split; [done|]. split; [apply Hclock | lia].
      * rewrite lookup_insert_ne in Hsid by done.
        destruct (Hminted sid Hsid) as (t & j & -> & Ht & Hj).
        exists t, j. cbn. split; [done|]. split; [done | lia].
  - destruct (bound w c) as [r|] eqn:Hb.
    + rewrite (get_bound c w r Hb). by apply (minted_before_weaken w).
    + by rewrite (get_unbound c w Hb).
  - destruct (bound w c) as [r|] eqn:Hb.
    + rewrite (update_bound c u w r Hb). by apply (minted_before_weaken w).
    + by rewrite (update_unbound c u w Hb).
  - destruct (cleanup_sessions c w) as (w1 & -> & Hd1 & Hs1). cbn.
    apply (minted_before_weaken w); [done | done | lia].
  - cbn.
    set (w1 := mkWorld _ _ _ _ _ _).
    destruct (cleanup_each_sessions (staleConnections w1 (clock (ticks w))) w1)
      as [Hd Hs].
    apply (minted_before_weaken w); [done | exact Hs | ].
    unfold world_after in Hd. rewrite Hd. done.
Qed.

Lemma distinct_suffixes_run ops : forall w,
  (forall n, 0 <= clock n) ->
  (forall i j, random_suffix i = random_suffix j -> i = j) ->
  minted_before w -> fresh_run ops w = true.
Proof.
  induction ops as [|op ops IH]; intros w Hclock Hrandom Hminted; [done|].
  cbn [fresh_run]. apply andb_true_iff. split.
  - destruct op as [c | c | c u | c | ]; try done. cbn [mints_fresh].
    destruct (bound w c); [done|].
    by apply bool_decide_eq_true, minted_is_fresh.
  - apply IH; try done. by apply minted_before_perform.
Qed.

(** X21.  When the clock is never negative and no two random suffixes are
    the same, a newly minted session id is never in use: every run of
    store operations from the empty store is fresh and keeps the store
    invariant. *)
Theorem distinct_suffixes_keep_invariant (ops : list operation)
    (Hclock : forall n, 0 <= clock n)
    (Hrandom : forall i j, random_suffix i = random_suffix j -> i = j) :
  fresh_run ops empty_world = true
  /\ store_invariant (perform_all ops empty_world).
Proof.
  assert (Hfresh : fresh_run ops empty_world = true).
  { apply distinct_suffixes_run; try done.
    intros sid Hsid. cbn in Hsid. rewrite lookup_empty in Hsid.
    by destruct Hsid. }
  split; [exact Hfresh|].
  apply invariant_run; [apply invariant_empty_world | exact Hfresh].
Qed.

End IdFacts.

Lemma counting_host_suffixes i j :
  @random_suffix counting_host i = @random_suffix counting_host j -> i = j.
Proof.
  cbn [random_suffix counting_host]. intros Heq.
  apply (f_equal length) in Heq. rewrite !repeat_length in Heq. lia.
Qed.

Lemma distinct_suffixes_keep_invariant_witness :
  (forall n, 0 <= @clock counting_host n)
  /\ (forall i j,
        @random_suffix counting_host i = @random_suffix counting_host j -> i = j)
  /\ @fresh_run counting_host sample_ops empty_world = true
  /\ store_invariant (@perform_all counting_host sample_ops empty_world).
Proof.
  assert (Hclock : forall n, 0 <= @clock counting_host n)
    by (intros n; cbn; lia).
  split; [exact Hclock|]. split; [exact counting_host_suffixes|].
  apply (@distinct_suffixes_keep_invariant counting_host sample_ops Hclock
           counting_host_suffixes).
Defined.

(** ** Accepted submissions *)

Section SubmissionFacts.
Context `{Host}.
Import Eyes Schema.

Ltac in_list := repeat first [ by left | right ].

Lemma arguments_not_declared :
  lit "arguments" ∉ declared_properties inputSchema.
Proof.
  cbn [declared_properties inputSchema flat_map fmap list_fmap fst app].
  intros Hin.
  repeat (apply elem_of_cons in Hin as [Hin | Hin];
          [vm_compute in Hin; discriminate Hin|]).
  by apply elem_of_nil in Hin.
Qed.

(** X22.  Arguments that the input schema accepts are forwarded as they
    are: the request body carries the submitted [payload] object and the
    submitted [reasoning_md] string, never the empty-object or [null]
    substitutes. *)
Theorem valid_submission_forwarded (args : gmap jsstring value)
    (path : jsstring) (w : World)
    (Hvalid : valid inputSchema (VObject args) = true) :
  exists fp payload reasoning,
    result_of (callEye_finalPayload path args) w = Returned fp
    /\ args !! lit "payload" = Some (VObject payload)
    /\ args !! lit "reasoning_md" = Some (VString reasoning)
    /\ fp !! lit "payload" = Some (VObject payload)
    /\ fp !! lit "reasoning_md" = Some (VString reasoning).
Proof.
  assert (Hargs : args !! lit "arguments" = None).
  { destruct (args !! lit "arguments") as [x|] eqn:Hx; [|done].
    apply (valid_keyword _ (additionalProperties false)) in Hvalid;
      [|in_list].
    destruct arguments_not_declared.
    apply (proj1 (check_no_additional _ args) Hvalid). by rewrite Hx. }
  assert (Hunwrap : unwrap_arguments args = args).
  { unfold unwrap_arguments. by rewrite Hargs. }
  destruct (valid_required inputSchema [lit "payload"; lit "reasoning_md"]
              args (lit "payload")) as [payload Hpayload];
    [in_list | in_list | done |].
  destruct (valid_required inputSchema [lit "payload"; lit "reasoning_md"]
              args (lit "reasoning_md")) as [reasoning Hreasoning];
    [in_list | in_list | done |].
  assert (Hp : valid payloadSchema payload = true).
  { eapply (valid_property inputSchema _ (lit "payload"));
      [in_list | in_list | done | done]. }
  assert (Hr : valid [type [TString]; minLength 10] reasoning = true).
  { eapply (valid_property inputSchema _ (lit "reasoning_md"));
      [in_list | in_list | done | done]. }
  destruct (valid_object payloadSchema payload) as [pp ->];
    [in_list | done |].
  apply reasoning_elim in Hr as (r & -> & Hlen).
  destruct (callEye_finalPayload_spec path args w) as (ctx & w' & Hrun).
  rewrite Hunwrap, Hpayload, Hreasoning in Hrun.
  cbn [default from_option id] in Hrun.
  eexists _, pp, r. unfold result_of. rewrite Hrun. cbn [fst].
  split; [reflexivity|]. split; [done|]. split; [done|].
  split.
  - rewrite lookup_insert_ne by apply context_ne_payload.
    apply lookup_insert_eq.
  - rewrite lookup_insert_ne by apply context_ne_reasoning_md.
    rewrite lookup_insert_ne by apply payload_ne_reasoning_md.
    rewrite lookup_insert_eq. f_equal.
    destruct r as [|c r]; [cbn in Hlen; lia | reflexivity].
Qed.

End SubmissionFacts.

Lemma valid_submission_forwarded_witness :
  Schema.valid Schema.inputSchema sample_submission = true
  /\ exists fp payload reasoning,
       result_of (@Eyes.callEye_finalPayload sample_host orchestrate_path
                    (submission_of sample_context_info)) empty_world
       = Returned fp
       /\ submission_of sample_context_info !! lit "payload"
          = Some (VObject payload)
       /\ submission_of sample_context_info !! lit "reasoning_md"
          = Some (VString reasoning)
       /\ fp !! lit "payload" = Some (VObject payload)
       /\ fp !! lit "reasoning_md" = Some (VString reasoning).
Proof.
  assert (Hvalid : Schema.valid Schema.inputSchema sample_submission = true)
    by (vm_compute; reflexivity).
  split; [exact Hvalid|].
  apply (@valid_submission_forwarded sample_host
           (submission_of sample_context_info) orchestrate_path empty_world
           Hvalid).
Defined.
